(** * EDA text augmentation: a shallow embedding of [code/eda.py]

    The first part follows the Python module function by function: the
    text normalizer [get_only_chars], the four perturbation operators,
    the allocation policy [get_num_per_technique] and the orchestrator
    [eda]. The second part fixes the vocabulary of the statements, and
    the third proves them.

    - A Python [int] is a [Z]. A Python [float] is an IEEE-754 binary64
      value, taken from the Standard Library's [SpecFloat] (precision 53,
      [emax] 1024): every float operation below rounds as the
      interpreter does.
    - A Python [str] is the list of its code points.
    - The module-wide generator [random] is a tape of raw draws that the
      code takes from the left, one for each call of [random.randint]
      and [random.uniform]. A run that asks for a draw when the tape is
      empty is still running ([Starved]); a statement about every tape
      is a statement about whatever the generator hands out.
    - An exception is a result of its own ([Raise]).
    - [nltk] and [iso639] are not part of the repository: what the code
      asks of them is a parameter, the [lexicon]. *)

From Stdlib Require Import ZArith Lia SpecFloat String Ascii.
From stdpp Require Import base list.

Open Scope Z_scope.

(** ** Python numbers *)

Module Num.

Inductive exn : Set :=
| IndexError
| ValueError
| ZeroDivisionError
| OverflowError
| LookupError.

(** What evaluating an expression without side effects gives. *)
Inductive val (A : Type) : Type :=
| Val (a : A)
| Exc (e : exn).
Arguments Val {A} a.
Arguments Exc {A} e.

Definition val_bind {A B} (v : val A) (k : A -> val B) : val B :=
  match v with
  | Val a => k a
  | Exc e => Exc e
  end.

(** [Union[int, float]] *)
Inductive number : Set :=
| PyInt (z : Z)
| PyFloat (f : spec_float).

Definition prec : Z := 53.
Definition emax : Z := 1024.

Definition fmul := SFmul prec emax.
Definition fdiv := SFdiv prec emax.
Definition fadd := SFadd prec emax.
#[global] Arguments fmul : simpl never.
#[global] Arguments fdiv : simpl never.
#[global] Arguments fadd : simpl never.

(** [bool(x)] for a number: zero (of either sign) is false, NaN is true. *)
Definition truthy (x : number) : bool :=
  match x with
  | PyInt z => negb (z =? 0)
  | PyFloat (S754_zero _) => false
  | PyFloat _ => true
  end.

(** [float(z)] for an int: the nearest double, ties to even;
    [OverflowError] when it does not fit. *)
Definition float_of_int (z : Z) : val spec_float :=
  match binary_normalize prec emax z 0 false with
  | S754_infinity _ => Exc OverflowError
  | f => Val f
  end.

(** An int seen as an (unrounded) mantissa with exponent 0. *)
Definition exact_int (z : Z) : spec_float :=
  match z with
  | Z0 => S754_zero false
  | Zpos p => S754_finite false p 0
  | Zneg p => S754_finite true p 0
  end.

(** [a / b] on two ints: the correctly rounded quotient. *)
Definition int_truediv (a b : Z) : val spec_float :=
  if b =? 0 then Exc ZeroDivisionError
  else match fdiv (exact_int a) (exact_int b) with
       | S754_infinity _ => Exc OverflowError
       | f => Val f
       end.

Definition float_truediv (x y : spec_float) : val spec_float :=
  match y with
  | S754_zero _ => Exc ZeroDivisionError
  | _ => Val (fdiv x y)
  end.

(** [x / y] *)
Definition truediv (x y : number) : val spec_float :=
  match x, y with
  | PyInt a, PyInt b => int_truediv a b
  | PyFloat f, PyInt b => val_bind (float_of_int b) (float_truediv f)
  | PyInt a, PyFloat g => val_bind (float_of_int a) (fun f => float_truediv f g)
  | PyFloat f, PyFloat g => float_truediv f g
  end.

(** [int(f)]: truncation toward zero. *)
Definition int_of_float (f : spec_float) : val Z :=
  match f with
  | S754_zero _ => Val 0
  | S754_infinity _ => Exc OverflowError
  | S754_nan => Exc ValueError
  | S754_finite s m e => Val (cond_Zopp s (Z.shiftl (Zpos m) e))
  end.

(** [int(x)] *)
Definition py_int (x : number) : val Z :=
  match x with
  | PyInt z => Val z
  | PyFloat f => int_of_float f
  end.

(** [math.ceil(f)] on a float. *)
Definition ceil_of_float (f : spec_float) : val Z :=
  match f with
  | S754_zero _ => Val 0
  | S754_infinity _ => Exc OverflowError
  | S754_nan => Exc ValueError
  | S754_finite s m e => Val (- Z.shiftl (cond_Zopp (negb s) (Zpos m)) e)
  end.

(** [math.ceil(x)] *)
Definition math_ceil (x : number) : val Z :=
  match x with
  | PyInt z => Val z
  | PyFloat f => ceil_of_float f
  end.

(** C's [fmod(x, y)] for finite nonzero [y]: exact, with the sign of [x]. *)
Definition fmod (x y : spec_float) : spec_float :=
  match x, y with
  | S754_finite sx mx ex, S754_finite _ my ey =>
      let e0 := Z.min ex ey in
      let r := Z.rem (Z.shiftl (Zpos mx) (ex - e0)) (Z.shiftl (Zpos my) (ey - e0)) in
      binary_normalize prec emax (cond_Zopp sx r) e0 sx
  | S754_zero _, S754_finite _ _ _ => x
  | S754_finite _ _ _, S754_infinity _ => x
  | S754_zero _, S754_infinity _ => x
  | _, _ => S754_nan
  end.

(** [x % y] on floats (CPython's [float_rem]): the result takes the
    sign of the divisor. *)
Definition float_mod (x y : spec_float) : val spec_float :=
  match y with
  | S754_zero _ => Exc ZeroDivisionError
  | _ =>
      let m := fmod x y in
      match m with
      | S754_zero _ =>
          Val (S754_zero (match y with
                          | S754_finite s _ _ | S754_infinity s => s
                          | _ => false
                          end))
      | S754_finite s _ _ =>
          let ys := match y with
                    | S754_finite s' _ _ | S754_infinity s' => s'
                    | _ => false
                    end in
          if Bool.eqb ys s then Val m else Val (fadd m y)
      | _ => Val m
      end
  end.

(** [x % y] *)
Definition py_mod (x y : number) : val number :=
  match x, y with
  | PyInt a, PyInt b =>
      if b =? 0 then Exc ZeroDivisionError else Val (PyInt (a mod b))
  | PyFloat f, PyInt b =>
      val_bind (float_of_int b) (fun g =>
      val_bind (float_mod f g) (fun r => Val (PyFloat r)))
  | PyInt a, PyFloat g =>
      val_bind (float_of_int a) (fun f =>
      val_bind (float_mod f g) (fun r => Val (PyFloat r)))
  | PyFloat f, PyFloat g =>
      val_bind (float_mod f g) (fun r => Val (PyFloat r))
  end.

(** Exact comparison of a float with an int, as Python does it. *)
Definition compare_float_int (f : spec_float) (z : Z) : option comparison :=
  match f with
  | S754_nan => None
  | S754_infinity s => Some (if s then Lt else Gt)
  | S754_zero _ => Some (0 ?= z)
  | S754_finite s m e =>
      let v := cond_Zopp s (Zpos m) in
      if 0 <=? e then Some (v * 2 ^ e ?= z) else Some (v ?= z * 2 ^ (- e))
  end.

Definition num_compare (x y : number) : option comparison :=
  match x, y with
  | PyInt a, PyInt b => Some (a ?= b)
  | PyFloat f, PyInt b => compare_float_int f b
  | PyInt a, PyFloat g => option_map CompOpp (compare_float_int g a)
  | PyFloat f, PyFloat g => SFcompare f g
  end.

(** [x < y], [x <= y]; [x > y] is [num_lt y x] and [x >= y] is
    [num_le y x]. A comparison with NaN is false. *)
Definition num_lt (x y : number) : bool :=
  match num_compare x y with Some Lt => true | _ => false end.
Definition num_le (x y : number) : bool :=
  match num_compare x y with Some (Lt | Eq) => true | _ => false end.

(** The float a decimal literal [digits / 10^places] denotes: the
    nearest double. *)
Definition decimal (digits places : Z) : spec_float :=
  fdiv (exact_int digits) (exact_int (10 ^ places)).

(** [x * n] for an int [n]. *)
Definition mul_int (x : number) (n : Z) : val number :=
  match x with
  | PyInt a => Val (PyInt (a * n))
  | PyFloat f => val_bind (float_of_int n) (fun g => Val (PyFloat (fmul f g)))
  end.

End Num.
Export Num.

(** ** The generator and the run of a function *)

Module Run.

(** The raw draws still to be handed out by [random]. *)
Definition tape : Type := list Z.

Inductive outcome (A : Type) : Type :=
| Return (a : A) (rest : tape)
| Raise (e : exn)
| Starved.
Arguments Return {A} a rest.
Arguments Raise {A} e.
Arguments Starved {A}.

Definition M (A : Type) : Type := tape -> outcome A.

Definition ret {A} (a : A) : M A := fun t => Return a t.

Definition bind {A B} (c : M A) (k : A -> M B) : M B :=
  fun t =>
    match c t with
    | Return a t' => k a t'
    | Raise e => Raise e
    | Starved => Starved
    end.

Definition raise {A} (e : exn) : M A := fun _ => Raise e.

Definition lift {A} (v : val A) : M A :=
  match v with
  | Val a => ret a
  | Exc e => raise e
  end.

Declare Scope run_scope.
Delimit Scope run_scope with run.
Notation "x <- c ;; k" := (bind c (fun x => k))
  (at level 100, c at next level, right associativity) : run_scope.

(** The value [random.randint(a, b)] makes of the raw draw [r]. *)
Definition randint_of (a b r : Z) : Z := a + r mod (b - a + 1).

(** [random.randint(a, b)]; an empty range is a [ValueError]. *)
Definition randint (a b : Z) : M Z :=
  fun t =>
    if b <? a then Raise ValueError
    else match t with
         | [] => Starved
         | r :: t' => Return (randint_of a b r) t'
         end.

(** The value [random.random()] makes of the raw draw [r]: a multiple
    of [2^-53] in [[0, 1)]. *)
Definition random_of (r : Z) : spec_float :=
  binary_normalize prec emax (r mod 2 ^ 53) (- 53) false.

(** [random.uniform(0, 1)], that is [0 + (1 - 0) * random()]. *)
Definition uniform01 : M spec_float :=
  fun t =>
    match t with
    | [] => Starved
    | r :: t' => Return (random_of r) t'
    end.

(** [for _ in range(n): acc = body(acc)] *)
Fixpoint repeat_m {A} (n : nat) (body : A -> M A) (acc : A) : M A :=
  match n with
  | O => ret acc
  | S n' => bind (body acc) (repeat_m n' body)
  end.

(** [[x for x in l if keep(x)]] *)
Fixpoint filter_m {A} (keep : A -> M bool) (l : list A) : M (list A) :=
  match l with
  | [] => ret []
  | x :: l' =>
      bind (keep x) (fun b =>
      bind (filter_m keep l') (fun ys => ret (if b then x :: ys else ys)))
  end.

End Run.
Export Run.
Open Scope run_scope.

(** ** Strings and the normalizer *)

Module Text.

(** A [str] is the list of its code points. *)
Definition char : Type := Z.
Definition str : Type := list char.

(** The [str] a source literal in ASCII denotes. *)
Definition of_string (s : string) : str :=
  map (fun a => Z.of_N (N_of_ascii a)) (list_ascii_of_string s).

Definition space : char := 32.

Fixpoint starts_with (prefix s : str) : bool :=
  match prefix, s with
  | [], _ => true
  | _ :: _, [] => false
  | a :: prefix', b :: s' => (a =? b) && starts_with prefix' s'
  end.

(** [s.replace(old, new)] for a pattern that is not empty: occurrences
    are found from the left and do not overlap. [skip] counts the chars
    of a replaced occurrence still to be passed over. *)
Fixpoint str_replace_from (old new : str) (skip : nat) (s : str) : str :=
  match s with
  | [] => []
  | c :: s' =>
      match skip with
      | S k => str_replace_from old new k s'
      | O =>
          if starts_with old s
          then new ++ str_replace_from old new (length old - 1) s'
          else c :: str_replace_from old new 0 s'
      end
  end.

Definition str_replace (old new s : str) : str := str_replace_from old new 0 s.

(** [c.lower()] for one code point. Outside ASCII two code points lower
    to something that holds an ASCII letter: U+0130 gives [i] followed by
    U+0307, and U+212A (the Kelvin sign) gives [k]. Every other code
    point outside ASCII lowers to a single code point outside ASCII and
    stands for it here: the callers only ask of a lowered char whether it
    is one of [a-z] or the space. *)
Definition lower_char (c : char) : str :=
  if (65 <=? c) && (c <=? 90) then [c + 32]
  else if c =? 304 then [105; 775]
  else if c =? 8490 then [107]
  else [c].

(** [s.lower()] *)
Definition str_lower (s : str) : str := flat_map lower_char s.

(** [__VALID_CHARS = string.ascii_lowercase + " "] *)
Definition VALID_CHARS : str := of_string "abcdefghijklmnopqrstuvwxyz ".

(** [char in __VALID_CHARS] for a single char. *)
Definition is_valid (c : char) : bool := existsb (Z.eqb c) VALID_CHARS.

(** [char if (char in __VALID_CHARS) else " "] *)
Definition keep_valid (c : char) : char := if is_valid c then c else space.

(** [re.sub(" +", " ", s)]: every run of spaces becomes one space. *)
Fixpoint collapse_spaces (s : str) : str :=
  match s with
  | [] => []
  | c :: s' =>
      match s' with
      | d :: _ =>
          if (c =? space) && (d =? space) then collapse_spaces s'
          else c :: collapse_spaces s'
      | [] => [c]
      end
  end.

(** [c.isspace()] *)
Definition isspace (c : char) : bool :=
  ((9 <=? c) && (c <=? 13)) || ((28 <=? c) && (c <=? 32))
  || (c =? 133) || (c =? 160) || (c =? 5760)
  || ((8192 <=? c) && (c <=? 8202))
  || (c =? 8232) || (c =? 8233) || (c =? 8239) || (c =? 8287) || (c =? 12288).

Fixpoint lstrip (s : str) : str :=
  match s with
  | [] => []
  | c :: s' => if isspace c then lstrip s' else s
  end.

Fixpoint rstrip (s : str) : str :=
  match s with
  | [] => []
  | c :: s' =>
      match rstrip s' with
      | [] => if isspace c then [] else [c]
      | r => c :: r
      end
  end.

(** [s.strip()] *)
Definition str_strip (s : str) : str := lstrip (rstrip s).

(** [s.split(sep)] for a separator of one char; empty pieces are kept. *)
Fixpoint str_split (sep : char) (s : str) : list str :=
  match s with
  | [] => [[]]
  | c :: s' =>
      if c =? sep then [] :: str_split sep s'
      else match str_split sep s' with
           | w :: ws => (c :: w) :: ws
           | [] => [[c]]
           end
  end.

(** [sep.join(words)] *)
Fixpoint str_join (sep : str) (words : list str) : str :=
  match words with
  | [] => []
  | [w] => w
  | w :: ws => w ++ sep ++ str_join sep ws
  end.

(** The three chars of the mis-decoded apostrophe the source spells out. *)
Definition broken_apostrophe : str := [226; 8364; 8482].

Definition get_only_chars (line : str) : str :=
  let line :=
    str_lower
      (str_replace [10] [space]
        (str_replace [9] [space]
          (str_replace (of_string "-") [space]
            (str_replace (of_string "'") []
              (str_replace broken_apostrophe [] line))))) in
  let clean_line := map keep_valid line in
  str_strip (collapse_spaces clean_line).

End Text.
Export Text.

(** ** The allocation policy *)

(** [l[i]] for an getitem that is not negative. *)
Definition getitem {A} (l : list A) (i : Z) : val A :=
  match l !! Z.to_nat i with
  | Some x => Val x
  | None => Exc IndexError
  end.

Definition num_methods : Z := 4.

(** [int(num_aug / num_methods)] *)
Definition base_share (num_aug : number) : val Z :=
  val_bind (truediv num_aug (PyInt num_methods)) int_of_float.

(** [math.ceil(num_aug % num_methods)] *)
Definition remainder_of (num_aug : number) : val Z :=
  val_bind (py_mod num_aug (PyInt num_methods)) math_ceil.

(** [[int(num_aug / num_methods) if flags[pos] else 0 for pos in range(num_methods)]];
    the division is evaluated only at an enabled position. *)
Fixpoint base_counts (num_aug : number) (flags : list number) (positions : list Z)
  : val (list Z) :=
  match positions with
  | [] => Val []
  | pos :: rest =>
      val_bind (getitem flags pos) (fun flag =>
      val_bind (if truthy flag then base_share num_aug else Val 0) (fun c =>
      val_bind (base_counts num_aug flags rest) (fun cs => Val (c :: cs))))
  end.

(** [num_new_per_technique[position] += 1] *)
Definition increment (counts : list Z) (position : Z) : list Z :=
  match counts !! Z.to_nat position with
  | Some c => <[Z.to_nat position := c + 1]> counts
  | None => counts
  end.

(** The loop [while remainder > 0]: every turn takes one draw. *)
Fixpoint remainder_loop (flags : list number) (counts : list Z) (remainder : Z)
  (t : tape) {struct t} : outcome (list Z) :=
  if 0 <? remainder then
    match t with
    | [] => Starved
    | r :: t' =>
        let position := randint_of 0 (num_methods - 1) r in
        match getitem flags position with
        | Exc e => Raise e
        | Val flag =>
            if truthy flag
            then remainder_loop flags (increment counts position) (remainder - 1) t'
            else remainder_loop flags counts remainder t'
        end
    end
  else Return counts t.

Definition get_num_per_technique (num_aug : number) (flags : list number)
  : M (list Z) :=
  let flags := match flags with
               | [] => replicate (Z.to_nat num_methods) (PyInt 1)
               | _ => flags
               end in
  num_new_per_technique <- lift (base_counts num_aug flags [0; 1; 2; 3]) ;;
  remainder <- lift (remainder_of num_aug) ;;
  remainder_loop flags num_new_per_technique remainder.

(** ** The perturbation operators *)

(** [len(l)] *)
Definition len {A} (l : list A) : Z := Z.of_nat (length l).

(** *** Random deletion *)

Definition random_deletion (words : list str) (probability : number)
  : M (list str) :=
  if len words =? 1 then ret words
  else
    new_words <-
      filter_m (fun _ => u <- uniform01 ;; ret (num_lt probability (PyFloat u)))
        words ;;
    if len new_words =? 0 then
      rand_int <- randint 0 (len words - 1) ;;
      word <- lift (getitem words rand_int) ;;
      ret [word]
    else ret new_words.

(** *** Random swap *)

(** [l[i], l[j] = l[j], l[i]] *)
Definition swap_items {A} (l : list A) (i j : Z) : val (list A) :=
  val_bind (getitem l j) (fun at_j =>
  val_bind (getitem l i) (fun at_i =>
  Val (<[Z.to_nat j := at_i]> (<[Z.to_nat i := at_j]> l)))).

(** The loop [while random_idx_2 == random_idx_1] of [swap_word]; it is
    entered with the two indices equal, and every turn takes one draw. *)
Fixpoint swap_word_loop (new_words : list str) (random_idx_1 counter : Z)
  (t : tape) {struct t} : outcome (list str) :=
  if len new_words - 1 <? 0 then Raise ValueError
  else
    match t with
    | [] => Starved
    | r :: t' =>
        let random_idx_2 := randint_of 0 (len new_words - 1) r in
        let counter := counter + 1 in
        if 3 <? counter then Return new_words t'
        else if random_idx_2 =? random_idx_1
             then swap_word_loop new_words random_idx_1 counter t'
             else lift (swap_items new_words random_idx_1 random_idx_2) t'
    end.

Definition swap_word (new_words : list str) : M (list str) :=
  random_idx_1 <- randint 0 (len new_words - 1) ;;
  swap_word_loop new_words random_idx_1 0.

Definition random_swap (words : list str) (n : Z) : M (list str) :=
  repeat_m (Z.to_nat n) swap_word words.

(** *** The lexical resource *)

(** What the code asks of [nltk] and [iso639], which are not part of the
    repository. *)
Record lexicon : Type := {
  (** [[lemma.name() for syn in wordnet.synsets(word, lang=language)
                     for lemma in syn.lemmas(lang=language)]] *)
  lemma_names : str -> str -> val (list str);
  (** [stopwords.words(Lang(language).name.lower())] *)
  stop_words : str -> val (list str);
  (** the order in which a [set] of these strings is iterated *)
  set_order : list str -> list str
}.

(** A resource that knows no word. *)
Definition empty_lexicon : lexicon :=
  {| lemma_names := fun _ _ => Val [];
     stop_words := fun _ => Val [];
     set_order := fun l => l |}.

Definition str_in (w : str) (l : list str) : bool := bool_decide (w ∈ l).

Definition get_synonyms (lex : lexicon) (word language : str) : val (list str) :=
  val_bind (lemma_names lex word language) (fun names =>
  let synonyms :=
    remove_dups
      (map (fun name =>
              List.filter is_valid
                (str_lower
                   (str_replace (of_string "-") [space]
                      (str_replace (of_string "_") [space] name))))
         names) in
  let synonyms :=
    if str_in word synonyms
    then List.filter (fun w => negb (bool_decide (w = word))) synonyms
    else synonyms in
  Val (set_order lex synonyms)).

(** [random.shuffle(x)]: for [i] from [len(x) - 1] down to 1, swap
    [x[i]] with [x[j]] for a [j] picked in [[0, i]]. *)
Fixpoint shuffle_from {A} (i : nat) (x : list A) : M (list A) :=
  match i with
  | O => ret x
  | S i' =>
      j <- randint 0 (Z.of_nat i) ;;
      x' <- lift (swap_items x (Z.of_nat i) j) ;;
      shuffle_from i' x'
  end.

Definition shuffle {A} (x : list A) : M (list A) :=
  shuffle_from (length x - 1) x.

(** [random.choice(seq)] *)
Definition choice {A} (seq : list A) : M A :=
  if len seq =? 0 then raise IndexError
  else i <- randint 0 (len seq - 1) ;; lift (getitem seq i).

(** *** Synonym replacement *)

(** The loop [for random_word in random_word_list] with its [break]. *)
Fixpoint replacement_loop (lex : lexicon) (language : str) (n : Z)
  (random_word_list : list str) (new_words : list str) (num_replaced : Z)
  : M (list str) :=
  match random_word_list with
  | [] => ret new_words
  | random_word :: rest =>
      synonyms <- lift (get_synonyms lex random_word language) ;;
      state <-
        (if 1 <=? len synonyms then
           synonym <- choice synonyms ;;
           ret (map (fun word =>
                       if bool_decide (word = random_word) then synonym else word)
                  new_words,
                num_replaced + 1)
         else ret (new_words, num_replaced)) ;;
      if n <=? snd state then ret (fst state)
      else replacement_loop lex language n rest (fst state) (snd state)
  end.

Definition synonym_replacement (lex : lexicon) (words : list str) (n : Z)
  (language : str) : M (list str) :=
  stops <- lift (stop_words lex language) ;;
  random_word_list <-
    shuffle (set_order lex
               (remove_dups
                  (List.filter (fun word => negb (str_in word stops)) words))) ;;
  new_words <- replacement_loop lex language n random_word_list words 0 ;;
  ret (str_split space (str_join [space] new_words)).

(** *** Random insertion *)

(** The loop [while len(synonyms) < 1] of [add_word]; [None] is the
    early [return] after ten tries. *)
Fixpoint add_word_loop (lex : lexicon) (language : str) (new_words : list str)
  (turns : nat) (counter : Z) : M (option (list str)) :=
  match turns with
  | O => ret None
  | S turns' =>
      i <- randint 0 (len new_words - 1) ;;
      random_word <- lift (getitem new_words i) ;;
      synonyms <- lift (get_synonyms lex random_word language) ;;
      let counter := counter + 1 in
      if 10 <=? counter then ret None
      else if len synonyms <? 1
           then add_word_loop lex language new_words turns' counter
           else ret (Some synonyms)
  end.

(** [add_word] changes the list it is given; here it returns the new list. *)
Definition add_word (lex : lexicon) (new_words : list str) (language : str)
  : M (list str) :=
  found <- add_word_loop lex language new_words 10 0 ;;
  match found with
  | None => ret new_words
  | Some synonyms =>
      random_synonym <- lift (getitem synonyms 0) ;;
      random_idx <- randint 0 (len new_words - 1) ;;
      ret (take (Z.to_nat random_idx) new_words
           ++ random_synonym :: drop (Z.to_nat random_idx) new_words)
  end.

Definition random_insertion (lex : lexicon) (words : list str) (n : Z)
  (language : str) : M (list str) :=
  repeat_m (Z.to_nat n) (fun new_words => add_word lex new_words language) words.

(** ** The orchestrator *)

(** [for _ in range(count): a_words = operator(...);
     augmented_sentences.append(" ".join(a_words))] *)
Definition generate (count : Z) (operator : M (list str))
  (augmented_sentences : list str) : M (list str) :=
  repeat_m (Z.to_nat count)
    (fun augmented_sentences =>
       a_words <- operator ;;
       ret (augmented_sentences ++ [str_join [space] a_words]))
    augmented_sentences.

(** [max(1, int(alpha * num_words))] *)
Definition words_to_change (alpha : number) (num_words : Z) : val Z :=
  val_bind (mul_int alpha num_words) (fun product =>
  val_bind (py_int product) (fun k => Val (Z.max 1 k))).

(** The statements of [eda] from the call of [get_num_per_technique] to
    the cleaning of the generated sentences. *)
Definition eda_generate (lex : lexicon) (words : list str) (language : str)
  (num_aug alpha_sr alpha_ri alpha_rs alpha_rd : number) : M (list str) :=
  let num_words := len words in
  num_new_per_technique <-
    get_num_per_technique num_aug [alpha_sr; alpha_ri; alpha_rs; alpha_rd] ;;
  let augmented_sentences := [] in
  augmented_sentences <-
    (if num_lt (PyInt 0) alpha_sr then
       num_sr <- lift (words_to_change alpha_sr num_words) ;;
       count <- lift (getitem num_new_per_technique 0) ;;
       generate count (synonym_replacement lex words num_sr language)
         augmented_sentences
     else ret augmented_sentences) ;;
  augmented_sentences <-
    (if num_lt (PyInt 0) alpha_ri then
       num_ri <- lift (words_to_change alpha_ri num_words) ;;
       count <- lift (getitem num_new_per_technique 1) ;;
       generate count (random_insertion lex words num_ri language)
         augmented_sentences
     else ret augmented_sentences) ;;
  augmented_sentences <-
    (if num_lt (PyInt 0) alpha_rs then
       num_rs <- lift (words_to_change alpha_rs num_words) ;;
       count <- lift (getitem num_new_per_technique 2) ;;
       generate count (random_swap words num_rs) augmented_sentences
     else ret augmented_sentences) ;;
  augmented_sentences <-
    (if num_lt (PyInt 0) alpha_rd then
       count <- lift (getitem num_new_per_technique 3) ;;
       generate count (random_deletion words alpha_rd) augmented_sentences
     else ret augmented_sentences) ;;
  ret (map get_only_chars augmented_sentences).

(** The trimming of the generated sentences to the requested number.
    The message printed when sentences are cut off is left out. *)
Definition eda_trim (num_aug : number) (augmented_sentences : list str)
  : M (list str) :=
  cut <-
    (if num_le (PyInt 1) num_aug then
       k <- lift (py_int num_aug) ;;
       ret (if k <? len augmented_sentences then Some k else None)
     else ret None) ;;
  match cut with
  | Some k => ret (take (Z.to_nat k) augmented_sentences)
  | None =>
      if num_lt (PyInt 0) num_aug then
        keep_prob <- lift (truediv num_aug (PyInt (len augmented_sentences))) ;;
        filter_m (fun _ => u <- uniform01 ;; ret (SFltb u keep_prob))
          augmented_sentences
      else ret augmented_sentences
  end.

Definition eda (lex : lexicon) (sentence language : str)
  (num_aug alpha_sr alpha_ri alpha_rs alpha_rd : number) (randomize : bool)
  : M (list str) :=
  let clean_sentence := get_only_chars sentence in
  let words :=
    List.filter (fun word => negb (bool_decide (word = [])))
      (str_split space clean_sentence) in
  let num_words := len words in
  if num_words =? 0 then ret [sentence]
  else
    augmented_sentences <-
      eda_generate lex words language num_aug alpha_sr alpha_ri alpha_rs alpha_rd ;;
    augmented_sentences <-
      (if randomize then shuffle augmented_sentences else ret augmented_sentences) ;;
    augmented_sentences <- eda_trim num_aug augmented_sentences ;;
    ret (sentence :: augmented_sentences).

(** ** Vocabulary of the statements *)

(** [sum(counts)] *)
Definition total (counts : list Z) : Z := foldr Z.add 0 counts.

(** The flags [get_num_per_technique] works with: an empty list stands
    for four operators switched on. *)
Definition effective (flags : list number) : list number :=
  match flags with
  | [] => replicate (Z.to_nat num_methods) (PyInt 1)
  | _ => flags
  end.

(** The operator at [position] is switched on. *)
Definition enabled (flags : list number) (position : Z) : bool :=
  match getitem flags position with
  | Val flag => truthy flag
  | Exc _ => false
  end.

(** How many of the four operators are switched on. *)
Definition count_enabled (flags : list number) : Z :=
  total (map (fun pos => if enabled flags pos then 1 else 0) [0; 1; 2; 3]).

(** The draw [r] picks an operator that is switched on. *)
Definition lands (flags : list number) (r : Z) : bool :=
  enabled flags (randint_of 0 (num_methods - 1) r).

(** How many draws of the tape pick an operator that is switched on. *)
Fixpoint hits (flags : list number) (t : tape) : Z :=
  match t with
  | [] => 0
  | r :: t' => (if lands flags r then 1 else 0) + hits flags t'
  end.

(** How many of the draws pick [position]. *)
Fixpoint picks (position : Z) (t : tape) : Z :=
  match t with
  | [] => 0
  | r :: t' =>
      (if randint_of 0 (num_methods - 1) r =? position then 1 else 0)
      + picks position t'
  end.

(** The value of [int(num_aug / num_methods)] where the function uses it. *)
Definition share (num_aug : number) : Z :=
  match base_share num_aug with
  | Val b => b
  | Exc _ => 0
  end.

(** A strength as it is written in decimal, e.g. [strength 1 1] for [0.1]. *)
Definition strength (digits places : Z) : number := PyFloat (decimal digits places).

(** Only chars of [a-z] and spaces. *)
Definition valid_str (s : str) : Prop := Forall (fun c => is_valid c = true) s.

(** No two spaces in a row. *)
Fixpoint single_spaced (s : str) : bool :=
  match s with
  | [] => true
  | c :: s' =>
      match s' with
      | d :: _ => negb ((c =? space) && (d =? space)) && single_spaced s'
      | [] => true
      end
  end.

(** The words that survive the draws of [random_deletion]: the word at
    position [i] stays when the [i]-th draw, read as a float of [[0, 1)],
    is above the probability. *)
Fixpoint survivors (probability : number) (words : list str) (t : tape)
  : list str :=
  match words, t with
  | word :: words', r :: t' =>
      if num_lt probability (PyFloat (random_of r))
      then word :: survivors probability words' t'
      else survivors probability words' t'
  | _, _ => []
  end.

(** The token list [eda] works on: [words] after the two assignments. *)
Definition words_of (sentence : str) : list str :=
  List.filter (fun word => negb (bool_decide (word = [])))
    (str_split space (get_only_chars sentence)).

(** A word: one letter of [a-z] or more. *)
Definition is_word (w : str) : Prop :=
  w <> [] /\ Forall (fun c => 97 <= c <= 122) w.

(** The float [1.0]. *)
Definition one : spec_float := S754_finite false 4503599627370496 (-52).

(** The sentence of the scenario of C6 and its five words. *)
Definition fox_sentence : str := of_string "The quick brown fox jumps".
Definition fox_words : list str :=
  map of_string ["the"; "quick"; "brown"; "fox"; "jumps"]%string.

(** No char of the string gives a letter of [a-z] once lowered. *)
Definition letterless (s : str) : Prop :=
  Forall (fun c => ~ (65 <= c <= 90) /\ ~ (97 <= c <= 122)
                   /\ c <> 304 /\ c <> 8490) s.

(** The lexicon iterates a [set] in some order of its elements. *)
Definition orders_sets (lex : lexicon) : Prop :=
  forall l, set_order lex l ≡ₚ l.

(** The lexicon has no synonym for any word of the list. *)
Definition no_synonyms (lex : lexicon) (language : str) (words : list str)
  : Prop :=
  forall w, w ∈ words -> get_synonyms lex w language = Val [].

(** The position [random.randint(0, len(words) - 1)] makes of a draw. *)
Definition pick (words : list str) (r : Z) : Z :=
  randint_of 0 (len words - 1) r.

(** A small lexicon: [quick] has lemma names, [the] is a stop word, and
    a set is iterated from its last element to its first. *)
Definition sample_lexicon : lexicon :=
  {| lemma_names := fun word _ =>
       if bool_decide (word = of_string "quick")
       then Val [of_string "fast"; of_string "Speedy_one"; of_string "quick";
                 of_string "fast"]
       else Val [];
     stop_words := fun _ => Val [of_string "the"];
     set_order := fun l => reverse l |}.

(** The word the draw picks has no synonym. *)
Definition misses (lex : lexicon) (language : str) (words : list str) (r : Z)
  : Prop :=
  exists word, words !! Z.to_nat (pick words r) = Some word
               /\ get_synonyms lex word language = Val [].

(** [a] is what the computation returns for some draws. *)
Definition produced_by {A} (c : M A) (a : A) : Prop :=
  exists t rest, c t = Return a rest.

(** The token lists one operator of [eda] has produced: none when its
    strength is not above zero, and otherwise as many as its count. *)
Definition batch (alpha : number) (counts : list Z) (position : Z)
  (operator : Z -> M (list str)) (vs : list (list str)) : Prop :=
  if num_lt (PyInt 0) alpha
  then exists count,
         getitem counts position = Val count
         /\ length vs = Z.to_nat count
         /\ Forall (fun v => exists num, produced_by (operator num) v) vs
  else vs = [].

(** The token list is the result of one of the four operators, switched
    on, for the words of the sentence. *)
Definition operator_output (lex : lexicon) (words : list str) (language : str)
  (alpha_sr alpha_ri alpha_rs alpha_rd : number) (v : list str) : Prop :=
  (num_lt (PyInt 0) alpha_sr = true
   /\ exists n, produced_by (synonym_replacement lex words n language) v)
  \/ (num_lt (PyInt 0) alpha_ri = true
      /\ exists n, produced_by (random_insertion lex words n language) v)
  \/ (num_lt (PyInt 0) alpha_rs = true
      /\ exists n, produced_by (random_swap words n) v)
  \/ (num_lt (PyInt 0) alpha_rd = true
      /\ produced_by (random_deletion words alpha_rd) v).

(** The normal form of the normalizer: chars of [a-z] and single spaces,
    no space at either end. *)
Definition normal (s : str) : Prop :=
  valid_str s /\ single_spaced s = true
  /\ head s <> Some space /\ last s <> Some space.

(** The draws the generator is going to hand out, one after the other. *)
Definition generator : Type := nat -> Z.

(** The tape of the first [k] draws. *)
Definition first_draws (g : generator) (k : nat) : tape := map g (seq 0 k).

(** Every operator position keeps coming up: whatever has been drawn so
    far, [random.randint(0, 3)] picks the position again later. *)
Definition recurrent (g : generator) : Prop :=
  forall (p : Z) (n : nat),
    0 <= p <= num_methods - 1 ->
    exists m, (n <= m)%nat /\ randint_of 0 (num_methods - 1) (g m) = p.

(** The generator whose draws are 0, 1, 2, 3, 4, ... *)
Definition counting : generator := fun n => Z.of_nat n.

(** A char that is no letter, also once lowered, and no apostrophe. *)
Definition separates (c : char) : Prop :=
  ~ (65 <= c <= 90) /\ ~ (97 <= c <= 122) /\ c <> 304 /\ c <> 8490 /\ c <> 39.

(** [c.lower()] for a letter of ASCII. *)
Definition ascii_lower (c : char) : char := if c <=? 90 then c + 32 else c.

(** ** Facts about binary64 arithmetic *)

Module FloatFacts.

Lemma digits2_pos_log2 p : Zpos (digits2_pos p) = Z.log2 (Zpos p) + 1.
Proof.
  induction p as [p IH|p IH|]; simpl digits2_pos; try reflexivity;
    rewrite Pos2Z.inj_succ, IH; destruct p; simpl; lia.
Qed.

(** [digits2_pos] is the bit length. *)
Lemma digits2_pos_bounds p d :
  Zpos (digits2_pos p) = d <-> 2 ^ (d - 1) <= Zpos p < 2 ^ d.
Proof.
  rewrite digits2_pos_log2. split.
  - intros <-. replace (Z.log2 (Z.pos p) + 1 - 1) with (Z.log2 (Zpos p)) by lia.
    pose proof (Z.log2_spec (Zpos p)) as H. rewrite <- Z.add_1_r in H. lia.
  - intros H. assert (0 <= d - 1).
    { destruct (Z.le_gt_cases 0 (d - 1)); [done|].
      rewrite (Z.pow_neg_r 2 (d - 1)) in H by lia.
      assert (d <= 0) by lia.
      destruct (Z.eq_dec d 0) as [->|]; [simpl in H; lia|].
      rewrite (Z.pow_neg_r 2 d) in H by lia. lia. }
    assert (Z.log2 (Zpos p) = d - 1); [|lia].
    apply Z.log2_unique; [lia|]. by replace (Z.succ (d - 1)) with d by lia.
Qed.

Lemma small_digits p :
  Zpos p < 2 ^ 53 -> 1 <= Zpos (digits2_pos p) <= 53.
Proof.
  intros Hp. split; [lia|].
  pose proof (proj1 (digits2_pos_bounds p _) eq_refl) as Hd.
  destruct (Z.le_gt_cases (Zpos (digits2_pos p)) 53); [done|].
  assert (2 ^ 53 <= 2 ^ (Zpos (digits2_pos p) - 1))
    by (apply Z.pow_le_mono_r; lia).
  lia.
Qed.

(** A mantissa shifted left until it has 53 bits. *)
Lemma normalised_mantissa p d :
  Zpos (digits2_pos p) = d -> 1 <= d <= 53 ->
  exists m, Zpos p * 2 ^ (53 - d) = Zpos m /\ Zpos (digits2_pos m) = 53.
Proof.
  intros Hd Hr. apply digits2_pos_bounds in Hd.
  pose proof (Z.pow_pos_nonneg 2 (53 - d) ltac:(lia) ltac:(lia)) as Hpow.
  destruct (Zpos p * 2 ^ (53 - d)) as [|m|m] eqn:Em; try lia.
  exists m. split; [done|].
  apply digits2_pos_bounds. rewrite <- Em. split.
  - replace (53 - 1) with ((d - 1) + (53 - d)) by lia.
    rewrite Z.pow_add_r by lia. apply Z.mul_le_mono_nonneg_r; lia.
  - replace 53 with (d + (53 - d)) at 2 by lia.
    rewrite Z.pow_add_r by lia. apply Z.mul_lt_mono_pos_r; lia.
Qed.

Lemma fexp_normal x : -1021 <= x -> fexp 53 1024 x = x - 53.
Proof. intros H. unfold fexp, emin. lia. Qed.

(** Rounding leaves a 53-bit mantissa as it is. *)
Lemma binary_round_aux_canonical s m e :
  Zpos (digits2_pos m) = 53 -> -1074 <= e <= 971 ->
  binary_round_aux 53 1024 s (Zpos m) e loc_Exact = S754_finite s m e.
Proof.
  intros Hd He. unfold binary_round_aux, shr_fexp. simpl Zdigits2.
  rewrite Hd, fexp_normal by lia.
  replace (53 + e - 53 - e) with 0 by lia. simpl.
  rewrite Hd. rewrite fexp_normal by lia.
  replace (53 + e - 53 - e) with 0 by lia. simpl.
  by replace (e <=? 1024 - 53) with true by (symmetry; apply Z.leb_le; lia).
Qed.

(** Rounding an even 54-bit mantissa drops its last bit. *)
Lemma binary_round_aux_even s m e :
  Zpos (digits2_pos m) = 53 -> -1075 <= e <= 970 ->
  binary_round_aux 53 1024 s (Zpos m~0) e loc_Exact = S754_finite s m (e + 1).
Proof.
  intros Hd He. unfold binary_round_aux, shr_fexp. simpl Zdigits2.
  rewrite Pos2Z.inj_succ, Hd, fexp_normal by lia.
  replace (Z.succ 53 + e - 53 - e) with 1 by lia. simpl.
  rewrite Hd. rewrite fexp_normal by lia.
  replace (53 + (e + 1) - 53 - (e + 1)) with 0 by lia. simpl.
  by replace (e + 1 <=? 1024 - 53) with true by (symmetry; apply Z.leb_le; lia).
Qed.

(** The result of rounding carries the sign it was given. *)
Lemma binary_round_aux_sign s mx ex lx :
  match binary_round_aux 53 1024 s mx ex lx with
  | S754_finite s' _ _ => s' = s
  | _ => True
  end.
Proof.
  unfold binary_round_aux.
  destruct (shr_fexp 53 1024 mx ex lx) as [mrs e'].
  destruct (shr_fexp 53 1024 _ e' loc_Exact) as [mrs' e''].
  destruct (shr_m mrs'); [done| |done]. by destruct (e'' <=? 1024 - 53).
Qed.

Lemma div_core_4 p d :
  Zpos (digits2_pos p) = d -> 1 <= d <= 53 ->
  SFdiv_core_binary 53 1024 (Zpos p) 0 4 0
  = (Zpos p * 2 ^ (54 - d), d - 56, loc_Exact).
Proof.
  intros Hd Hr. unfold SFdiv_core_binary.
  change (Zdigits2 4) with 3.
  change (Zdigits2 (Zpos p)) with (Zpos (digits2_pos p)).
  rewrite Hd.
  assert (fexp 53 1024 (d + 0 - (3 + 0)) = d - 56) as ->
    by (unfold fexp, emin; lia).
  change (0 - 0) with 0. rewrite Z.min_l by lia.
  replace (0 - (d - 56)) with (56 - d) by lia.
  assert (Hs : match 56 - d with
               | 0 => Z.pos p
               | Z.pos _ => Z.shiftl (Z.pos p) (56 - d)
               | Z.neg _ => 0
               end = (Zpos p * 2 ^ (54 - d)) * 4).
  { destruct (56 - d) as [|k|k] eqn:Ek; try lia. rewrite <- Ek.
    rewrite Z.shiftl_mul_pow2 by lia.
    replace (56 - d) with (54 - d + 2) by lia.
    rewrite Z.pow_add_r by lia. change (2 ^ 2) with 4. lia. }
  rewrite Hs.
  pose proof (Z.div_eucl_eq (Z.pos p * 2 ^ (54 - d) * 4) 4 ltac:(lia)) as Heq.
  pose proof (Z.mod_pos_bound (Z.pos p * 2 ^ (54 - d) * 4) 4 ltac:(lia)) as Hb.
  unfold Z.modulo in Hb.
  destruct (Z.div_eucl (Z.pos p * 2 ^ (54 - d) * 4) 4) as [q r].
  assert (r = 0) as -> by lia.
  by assert (q = Z.pos p * 2 ^ (54 - d)) as -> by lia.
Qed.

(** Dividing an int below [2^53] by 4 is exact. *)
Lemma fdiv_small_4 s p :
  Zpos p < 2 ^ 53 ->
  exists m e,
    fdiv (S754_finite s p 0) (S754_finite false 4 0) = S754_finite s m e
    /\ Z.shiftl (Zpos m) e = Zpos p / 4.
Proof.
  intros Hp. pose proof (small_digits p Hp) as Hr.
  set (d := Zpos (digits2_pos p)) in *.
  destruct (normalised_mantissa p d eq_refl Hr) as (m & Em & Hm).
  unfold fdiv, SFdiv. change prec with 53. change emax with 1024.
  rewrite (div_core_4 p d) by done.
  replace (Z.pos p * 2 ^ (54 - d)) with (Zpos m~0).
  2:{ replace (54 - d) with (53 - d + 1) by lia.
      rewrite Z.pow_add_r by lia. change (2 ^ 1) with 2. lia. }
  rewrite binary_round_aux_even by lia.
  exists m, (d - 56 + 1). split; [by destruct s|].
  rewrite <- Em.
  replace (d - 56 + 1) with (- (55 - d)) by lia.
  rewrite Z.shiftl_opp_r, Z.shiftr_div_pow2 by lia.
  replace (55 - d) with (53 - d + 2) by lia.
  rewrite Z.pow_add_r by lia. change (2 ^ 2) with 4.
  rewrite (Z.mul_comm (2 ^ (53 - d)) 4), Z.div_mul_cancel_r; lia.
Qed.

(** The float of a quotient has the sign of its operands' product. *)
Lemma fdiv_sign x sy my ey :
  match fdiv x (S754_finite sy my ey), x with
  | S754_finite s _ _, S754_finite sx _ _ => s = xorb sx sy
  | S754_finite _ _ _, _ => False
  | _, _ => True
  end.
Proof.
  destruct x as [sx|sx| |sx mx ex]; try done.
  unfold fdiv, SFdiv.
  destruct (SFdiv_core_binary prec emax (Z.pos mx) ex (Z.pos my) ey)
    as [[mz ez] lz].
  apply binary_round_aux_sign.
Qed.

End FloatFacts.

(** ** Facts about the allocation policy *)

Section Allocation.

Implicit Types (flags : list number) (counts : list Z) (t : tape).

Lemma randint_of_range a b r : a <= b -> a <= randint_of a b r <= b.
Proof.
  intros Hab. unfold randint_of.
  pose proof (Z.mod_pos_bound r (b - a + 1)). lia.
Qed.

Lemma position_range r : 0 <= randint_of 0 (num_methods - 1) r <= 3.
Proof. apply (randint_of_range 0 3). lia. Qed.

Lemma hits_nonneg flags t : 0 <= hits flags t.
Proof. induction t as [|r t IH]; simpl; [lia|]. destruct (lands flags r); lia. Qed.

Lemma getitem_in_range {A} (l : list A) (i : Z) :
  0 <= i < Z.of_nat (length l) -> exists x, getitem l i = Val x.
Proof.
  intros Hi. unfold getitem.
  destruct (l !! Z.to_nat i) as [x|] eqn:E; [eauto|].
  apply lookup_ge_None in E. lia.
Qed.

Lemma total_insert counts (i : nat) (c x : Z) :
  counts !! i = Some c -> total (<[i := x]> counts) = total counts - c + x.
Proof.
  revert i. induction counts as [|y counts IH]; intros [|i] H; simpl in *;
    try discriminate.
  - injection H as ->. lia.
  - rewrite (IH i H). lia.
Qed.

Lemma increment_length counts p : length (increment counts p) = length counts.
Proof.
  unfold increment. destruct (counts !! Z.to_nat p); [|done].
  by rewrite length_insert.
Qed.

Lemma increment_total counts p :
  0 <= p < Z.of_nat (length counts) ->
  total (increment counts p) = total counts + 1.
Proof.
  intros Hp. unfold increment.
  destruct (counts !! Z.to_nat p) as [c|] eqn:E.
  - rewrite (total_insert _ _ c) by done. lia.
  - apply lookup_ge_None in E. lia.
Qed.

Lemma increment_lookup counts p (i : nat) :
  increment counts p !! i =
    if decide (i = Z.to_nat p) then (fun c => c + 1) <$> counts !! i
    else counts !! i.
Proof.
  unfold increment. destruct (counts !! Z.to_nat p) as [c|] eqn:E.
  - destruct (decide (i = Z.to_nat p)) as [->|Hne].
    + rewrite list_lookup_insert_eq by (by eapply lookup_lt_Some).
      by rewrite E.
    + by rewrite list_lookup_insert_ne.
  - destruct (decide (i = Z.to_nat p)) as [->|Hne]; [by rewrite E|done].
Qed.

(** *** The remainder loop *)

(** The loop leaves as soon as, and only when, enough draws have landed
    on an operator that is switched on. *)
Lemma remainder_loop_returns flags counts remainder t :
  (4 <= length flags)%nat ->
  remainder <= hits flags t ->
  exists counts' rest, remainder_loop flags counts remainder t = Return counts' rest.
Proof.
  intros Hlen. revert counts remainder.
  induction t as [|r t IH]; intros counts remainder Hhits; simpl in *.
  - destruct (0 <? remainder) eqn:E; [apply Z.ltb_lt in E; lia|eauto].
  - destruct (0 <? remainder) eqn:E; [|eauto].
    pose proof (position_range r) as Hr.
    destruct (getitem_in_range flags (randint_of 0 (num_methods - 1) r))
      as [flag Hflag]; [lia|].
    unfold lands, enabled in Hhits. rewrite Hflag in *.
    destruct (truthy flag); apply IH; lia.
Qed.

Lemma remainder_loop_starves flags counts remainder t :
  (4 <= length flags)%nat ->
  hits flags t < remainder ->
  remainder_loop flags counts remainder t = Starved.
Proof.
  intros Hlen. revert counts remainder.
  induction t as [|r t IH]; intros counts remainder Hhits; simpl in *.
  - destruct (0 <? remainder) eqn:E; [done|apply Z.ltb_ge in E; lia].
  - pose proof (hits_nonneg flags t).
    destruct (0 <? remainder) eqn:E.
    + pose proof (position_range r) as Hr.
      destruct (getitem_in_range flags (randint_of 0 (num_methods - 1) r))
        as [flag Hflag]; [lia|].
      unfold lands, enabled in Hhits. rewrite Hflag in *.
      destruct (truthy flag); apply IH; lia.
    + apply Z.ltb_ge in E. destruct (lands flags r); lia.
Qed.

(** What the loop does to the counts. *)
Lemma remainder_loop_spec flags counts remainder t counts' rest :
  length counts = 4%nat ->
  remainder_loop flags counts remainder t = Return counts' rest ->
  length counts' = 4%nat
  /\ total counts' = total counts + Z.max 0 remainder
  /\ (forall i c, counts !! i = Some c ->
        exists c', counts' !! i = Some c' /\ c <= c'
                   /\ (enabled flags (Z.of_nat i) = false -> c' = c)).
Proof.
  revert counts remainder.
  induction t as [|r t IH]; intros counts remainder Hlen Hrun; simpl in *.
  - destruct (0 <? remainder) eqn:E; [done|]. apply Z.ltb_ge in E.
    injection Hrun as <- <-. repeat split; [done|lia|]. intros i c Hi. eauto with lia.
  - destruct (0 <? remainder) eqn:E.
    + apply Z.ltb_lt in E. pose proof (position_range r) as Hr.
      set (p := randint_of 0 (num_methods - 1) r) in *.
      destruct (getitem flags p) as [flag|] eqn:Hflag; [|done].
      destruct (truthy flag) eqn:Hon.
      * apply IH in Hrun as (Hl & Ht & Hc); [|by rewrite increment_length].
        split; [done|]. split.
        { rewrite Ht, increment_total by lia. lia. }
        intros i c Hi.
        destruct (decide (i = Z.to_nat p)) as [->|Hne].
        -- destruct (Hc (Z.to_nat p) (c + 1)) as (c' & Hc' & Hle & _).
           { rewrite increment_lookup, decide_True, Hi by done. done. }
           exists c'. split; [done|]. split; [lia|].
           unfold enabled. rewrite Z2Nat.id by lia. rewrite Hflag, Hon. done.
        -- destruct (Hc i c) as (c' & Hc' & Hle & Hoff).
           { by rewrite increment_lookup, decide_False. }
           eauto.
      * apply IH in Hrun as (Hl & Ht & Hc); [|done].
        split; [done|]. split; [lia|done].
    + apply Z.ltb_ge in E. injection Hrun as <- <-.
      repeat split; [done|lia|]. intros i c Hi. eauto with lia.
Qed.

End Allocation.

(** *** The base share *)

Lemma base_share_int n :
  Z.abs n < 2 ^ 53 -> base_share (PyInt n) = Val (Z.quot n 4).
Proof.
  intros Hn. unfold base_share, truediv, int_truediv. simpl.
  destruct n as [|p|p]; [done| |]; simpl exact_int.
  - destruct (FloatFacts.fdiv_small_4 false p) as (m & e & -> & Hq); [lia|].
    simpl. rewrite Hq. f_equal. symmetry. apply Z.quot_div_nonneg; lia.
  - destruct (FloatFacts.fdiv_small_4 true p) as (m & e & -> & Hq); [lia|].
    simpl. rewrite Hq. f_equal.
    change (Z.neg p) with (- Z.pos p). rewrite Z.quot_opp_l by lia.
    f_equal. symmetry. apply Z.quot_div_nonneg; lia.
Qed.

Lemma int_of_float_nonneg f c :
  int_of_float f = Val c ->
  match f with S754_finite s _ _ => s = false | _ => True end ->
  0 <= c.
Proof.
  destruct f as [s|s| |s m e]; simpl; intros H Hs; try discriminate.
  - injection H as <-. lia.
  - injection H as <-. subst s. simpl. apply Z.shiftl_nonneg. lia.
Qed.

Lemma float_of_int_4 :
  float_of_int num_methods = Val (S754_finite false 4503599627370496 (-50)).
Proof. reflexivity. Qed.

(** A target that is not negative has a base share that is not negative. *)
Lemma base_share_nonneg num_aug b :
  num_le (PyInt 0) num_aug = true -> base_share num_aug = Val b -> 0 <= b.
Proof.
  unfold base_share, num_le. destruct num_aug as [n|f].
  - simpl. intros Hn. unfold int_truediv. simpl.
    destruct n as [|p|p]; simpl in Hn; try discriminate; simpl exact_int.
    + intros H. injection H as <-. lia.
    + pose proof (FloatFacts.fdiv_sign (S754_finite false p 0) false 4 0) as Hs.
      destruct (fdiv (S754_finite false p 0) (S754_finite false 4 0))
        as [s|s| |s m e];
        simpl; intros H; try discriminate; injection H as <-; [lia|].
      simpl in Hs. subst s. simpl. apply Z.shiftl_nonneg. lia.
  - cbn [truediv num_compare]. rewrite float_of_int_4. cbn [val_bind float_truediv].
    intros Hf.
    pose proof (FloatFacts.fdiv_sign f false 4503599627370496 (-50)) as Hs.
    destruct (fdiv f (S754_finite false 4503599627370496 (-50)))
      as [s|s| |s m e];
      simpl; intros H; try discriminate; injection H as <-; [lia|].
    destruct f as [s0|s0| |s0 m0 e0]; try done.
    subst s. destruct s0; simpl; [|apply Z.shiftl_nonneg; lia].
    exfalso. simpl in Hf. destruct (0 <=? e0) eqn:He; simpl in Hf.
    + apply Z.leb_le in He.
      pose proof (Z.pow_pos_nonneg 2 e0 ltac:(lia) He).
      pose proof (Pos2Z.neg_is_neg m0).
      match type of Hf with
      | context [?a ?= 0] => destruct (Z.compare_spec a 0) as [C|C|C]
      end; simpl in Hf; try discriminate; nia.
    + discriminate.
Qed.

Lemma get_num_per_technique_unfold num_aug flags t :
  get_num_per_technique num_aug flags t =
    match base_counts num_aug (effective flags) [0; 1; 2; 3] with
    | Exc e => Raise e
    | Val counts =>
        match remainder_of num_aug with
        | Exc e => Raise e
        | Val remainder => remainder_loop (effective flags) counts remainder t
        end
    end.
Proof.
  unfold get_num_per_technique, bind, lift. fold (effective flags).
  destruct (base_counts _ _ _); [|done]. simpl.
  by destruct (remainder_of num_aug).
Qed.

Lemma base_counts_spec num_aug flags positions counts :
  base_counts num_aug flags positions = Val counts ->
  counts = map (fun pos => if enabled flags pos then share num_aug else 0) positions.
Proof.
  revert counts. induction positions as [|pos ps IH]; intros counts; simpl.
  - by intros [= <-].
  - destruct (getitem flags pos) as [flag|] eqn:Hi; [|done]. simpl.
    assert (enabled flags pos = truthy flag) as ->
      by (unfold enabled; by rewrite Hi).
    destruct (truthy flag).
    + destruct (base_share num_aug) as [b|] eqn:Hb; [|done]. simpl.
      destruct (base_counts num_aug flags ps) as [cs|]; [|done]. simpl.
      intros [= <-]. unfold share at 1. rewrite Hb. f_equal. by apply IH.
    + simpl. destruct (base_counts num_aug flags ps) as [cs|]; [|done]. simpl.
      intros [= <-]. f_equal. by apply IH.
Qed.

Lemma base_counts_defined num_aug flags positions b :
  base_share num_aug = Val b ->
  (forall pos, pos ∈ positions -> 0 <= pos < Z.of_nat (length flags)) ->
  base_counts num_aug flags positions
  = Val (map (fun pos => if enabled flags pos then b else 0) positions).
Proof.
  intros Hb. induction positions as [|pos ps IH]; intros Hin; simpl; [done|].
  destruct (getitem_in_range flags pos) as [flag Hflag].
  { apply Hin. by left. }
  unfold enabled at 1. rewrite Hflag. simpl.
  rewrite IH by (intros; apply Hin; by right).
  destruct (truthy flag); [rewrite Hb|]; done.
Qed.

Lemma total_shares flags b :
  total (map (fun pos => if enabled flags pos then b else 0) [0; 1; 2; 3])
  = count_enabled flags * b.
Proof.
  unfold count_enabled. simpl.
  destruct (enabled flags 0), (enabled flags 1), (enabled flags 2),
    (enabled flags 3); lia.
Qed.

Lemma remainder_of_int n : remainder_of (PyInt n) = Val (n mod 4).
Proof. reflexivity. Qed.

Lemma effective_nonempty flags : flags <> [] -> effective flags = flags.
Proof. by destruct flags. Qed.

Lemma enabled_lookup flags (i : nat) flag :
  flags !! i = Some flag -> enabled flags (Z.of_nat i) = truthy flag.
Proof. intros H. unfold enabled, getitem. by rewrite Nat2Z.id, H. Qed.

Lemma hits_app flags t t' : hits flags (t ++ t') = hits flags t + hits flags t'.
Proof. induction t as [|r t IH]; simpl; lia. Qed.

Lemma hits_replicate flags (k : nat) p :
  0 <= p <= 3 -> enabled flags p = true ->
  hits flags (replicate k p) = Z.of_nat k.
Proof.
  intros Hp Hon. induction k as [|k IH]; [done|].
  cbn [replicate hits]. rewrite IH. unfold lands, randint_of.
  change (0 + p mod (num_methods - 1 - 0 + 1)) with (p mod 4).
  rewrite Z.mod_small, Hon by lia. lia.
Qed.

Lemma hits_none flags t :
  (forall p, 0 <= p <= 3 -> enabled flags p = false) -> hits flags t = 0.
Proof.
  intros Hoff. induction t as [|r t IH]; [done|].
  cbn [hits]. unfold lands. rewrite Hoff by apply position_range. lia.
Qed.

(** With every operator switched on, each turn of the loop hands one
    unit to the operator the draw picks. *)
Lemma remainder_loop_all_enabled flags c0 c1 c2 c3 remainder t :
  (forall p, 0 <= p <= 3 -> enabled flags p = true) ->
  Z.max 0 remainder <= Z.of_nat (length t) ->
  remainder_loop flags [c0; c1; c2; c3] remainder t
  = Return [c0 + picks 0 (take (Z.to_nat remainder) t);
            c1 + picks 1 (take (Z.to_nat remainder) t);
            c2 + picks 2 (take (Z.to_nat remainder) t);
            c3 + picks 3 (take (Z.to_nat remainder) t)]
      (drop (Z.to_nat remainder) t).
Proof.
  intros Hon. revert c0 c1 c2 c3 remainder.
  induction t as [|r t IH]; intros c0 c1 c2 c3 remainder Hlen.
  - simpl in Hlen. cbn [remainder_loop].
    destruct (0 <? remainder) eqn:E; [apply Z.ltb_lt in E; lia|].
    rewrite take_nil, drop_nil. simpl. by rewrite !Z.add_0_r.
  - cbn [remainder_loop]. destruct (0 <? remainder) eqn:E.
    + apply Z.ltb_lt in E.
      pose proof (position_range r) as Hr.
      pose proof (Hon _ Hr) as Hp. unfold enabled in Hp.
      destruct (getitem flags (randint_of 0 (num_methods - 1) r)) as [flag|];
        [|done].
      rewrite Hp.
      assert (Z.to_nat remainder = S (Z.to_nat (remainder - 1))) as -> by lia.
      cbn [take drop picks length] in *.
      set (p := randint_of 0 (num_methods - 1) r) in *.
      assert (p = 0 \/ p = 1 \/ p = 2 \/ p = 3) as [-> | [-> | [-> | ->]]] by lia;
        [change (increment [c0; c1; c2; c3] 0) with [c0 + 1; c1; c2; c3]
        |change (increment [c0; c1; c2; c3] 1) with [c0; c1 + 1; c2; c3]
        |change (increment [c0; c1; c2; c3] 2) with [c0; c1; c2 + 1; c3]
        |change (increment [c0; c1; c2; c3] 3) with [c0; c1; c2; c3 + 1]];
        rewrite IH by lia; simpl; f_equal;
        repeat (apply (f_equal2 cons); [lia|]); reflexivity.
    + apply Z.ltb_ge in E.
      replace (Z.to_nat remainder) with 0%nat by lia.
      simpl. by rewrite !Z.add_0_r.
Qed.

(** *** The sum, the sign and the end of the allocation *)

(** C1, as stated, fails: with three of the four operators switched off
    and a target of 4, the only enabled operator gets [int(4 / 4) = 1],
    nothing is left to distribute, and the counts add up to 1. *)
Lemma allocation_sum_falls_short :
  ~ (forall n flags t counts rest,
       1 <= n -> length flags = 4%nat ->
       (exists flag, flag ∈ flags /\ truthy flag = true) ->
       get_num_per_technique (PyInt n) flags t = Return counts rest ->
       total counts = n).
Proof.
  intros H.
  specialize (H 4 [strength 1 1; strength 0 0; strength 0 0; strength 0 0]
                [] [1; 0; 0; 0] []).
  assert (total [1; 0; 0; 0] = 4) as Hbad; [|discriminate Hbad].
  apply H; [lia|reflexivity| |reflexivity].
  exists (strength 1 1). split; [left|reflexivity].
Qed.

(** C1, amended: for an integer target [1 <= n < 2^53] and four flags,
    as soon as the draws have landed [n mod 4] times on an enabled
    operator the function returns four counts, and their sum is
    [k * (n / 4) + n mod 4] where [k] is the number of enabled operators;
    the sum is the target exactly when all four operators are enabled or
    the target is below 4. *)
Theorem allocation_sum n flags t :
  1 <= n < 2 ^ 53 ->
  length flags = 4%nat ->
  n mod 4 <= hits flags t ->
  exists counts rest,
    get_num_per_technique (PyInt n) flags t = Return counts rest
    /\ length counts = 4%nat
    /\ total counts = count_enabled flags * (n / 4) + n mod 4
    /\ (total counts = n <-> count_enabled flags = 4 \/ n < 4).
Proof.
  intros Hn Hlen Hhits.
  assert (Hb : base_share (PyInt n) = Val (n / 4)).
  { rewrite base_share_int by lia. f_equal. apply Z.quot_div_nonneg; lia. }
  rewrite get_num_per_technique_unfold, effective_nonempty by (by destruct flags).
  rewrite (base_counts_defined _ _ _ (n / 4) Hb), remainder_of_int.
  2:{ intros pos Hpos. rewrite Hlen.
      repeat (apply elem_of_cons in Hpos as [->|Hpos]; [lia|]).
      by apply elem_of_nil in Hpos. }
  destruct (remainder_loop_returns flags
              (map (fun pos => if enabled flags pos then n / 4 else 0) [0; 1; 2; 3])
              (n mod 4) t) as (counts & rest & Hrun); [lia|done|].
  exists counts, rest. split; [done|].
  apply remainder_loop_spec in Hrun as (Hl & Ht & _); [|done].
  rewrite total_shares in Ht.
  pose proof (Z.mod_pos_bound n 4 ltac:(lia)) as Hm.
  pose proof (Z.div_mod n 4 ltac:(lia)) as Hdm.
  assert (0 <= count_enabled flags <= 4) as Hk.
  { unfold count_enabled. simpl.
    destruct (enabled flags 0), (enabled flags 1), (enabled flags 2),
      (enabled flags 3); lia. }
  repeat split; [done|lia| |].
  - intros Hsum. destruct (Z.eq_dec (n / 4) 0) as [Hq|Hq]; [right; lia|left; nia].
  - intros [Hall|Hsmall]; [rewrite Ht, Hall; lia|].
    rewrite Ht, (Z.div_small n 4) by lia. lia.
Qed.

Lemma allocation_sum_witness :
  exists counts rest,
    get_num_per_technique (PyInt 9)
      [strength 1 1; strength 0 0; strength 0 0; strength 0 0] [2; 4; 1]
    = Return counts rest
    /\ length counts = 4%nat
    /\ total counts
       = count_enabled [strength 1 1; strength 0 0; strength 0 0; strength 0 0]
         * (9 / 4) + 9 mod 4
    /\ (total counts = 9
        <-> count_enabled [strength 1 1; strength 0 0; strength 0 0; strength 0 0] = 4
            \/ 9 < 4).
Proof.
  apply (allocation_sum 9
           [strength 1 1; strength 0 0; strength 0 0; strength 0 0] [2; 4; 1]).
  - lia.
  - reflexivity.
  - vm_compute. discriminate.
Defined.

(** Above [2^53] the quotient [num_aug / 4] is rounded to a double
    before [int] truncates it, and the counts drift from the target. *)
Lemma allocation_sum_rounded :
  exists counts rest,
    get_num_per_technique (PyInt (2 ^ 53 + 3))
      [PyInt 1; PyInt 1; PyInt 1; PyInt 1] [0; 0; 0] = Return counts rest
    /\ total counts = 2 ^ 53 + 7.
Proof. by eexists _, _. Qed.

(** C8, as stated, fails for a negative target: [int(-4 / 4)] is [-1],
    and every enabled operator receives it. *)
Lemma allocation_negative_target :
  ~ (forall num_aug flags t counts rest,
       flags <> [] ->
       get_num_per_technique num_aug flags t = Return counts rest ->
       forall i c, counts !! i = Some c ->
         0 <= c
         /\ (forall flag, flags !! i = Some flag -> truthy flag = false -> c = 0)).
Proof.
  intros H.
  destruct (H (PyInt (-4)) [PyInt 1; PyInt 1; PyInt 1; PyInt 1] []
              [-1; -1; -1; -1] [] ltac:(done) eq_refl 0%nat (-1) eq_refl)
    as [Hneg _].
  lia.
Qed.

(** C8, amended: for every target and every flags list, the function
    returns four counts and an operator whose flag is zero gets exactly
    0; for a target that is not negative (an integer or a float, in
    particular a fraction between 0 and 1) no count is negative. *)
Theorem allocation_counts_nonneg num_aug flags t counts rest :
  get_num_per_technique num_aug flags t = Return counts rest ->
  length counts = 4%nat
  /\ (forall i c flag,
        counts !! i = Some c -> flags !! i = Some flag ->
        truthy flag = false -> c = 0)
  /\ (num_le (PyInt 0) num_aug = true ->
        forall i c, counts !! i = Some c -> 0 <= c).
Proof.
  rewrite get_num_per_technique_unfold.
  destruct (base_counts num_aug (effective flags) [0; 1; 2; 3])
    as [counts0|] eqn:Hbase; [|done].
  destruct (remainder_of num_aug) as [remainder|]; [|done].
  intros Hrun. apply base_counts_spec in Hbase.
  apply remainder_loop_spec in Hrun as (Hl & _ & Hc); [|by subst counts0].
  assert (Hfrom : forall i c, counts !! i = Some c ->
            exists c0,
              c0 = (if enabled (effective flags) (Z.of_nat i)
                    then share num_aug else 0)
              /\ c0 <= c
              /\ (enabled (effective flags) (Z.of_nat i) = false -> c = c0)).
  { intros i c Hi.
    assert (i < 4)%nat as Hi4 by (rewrite <- Hl; by eapply lookup_lt_Some).
    destruct (counts0 !! i) as [c0|] eqn:Hi0.
    2:{ apply lookup_ge_None in Hi0. subst counts0. simpl in Hi0. lia. }
    destruct (Hc i c0 Hi0) as (c' & Hc' & Hle & Hoff).
    rewrite Hi in Hc'. injection Hc' as <-.
    exists c0. split; [|done]. subst counts0.
    destruct i as [|[|[|[|i]]]]; simpl in Hi0; try lia; by injection Hi0 as <-. }
  split; [done|]. split.
  - intros i c flag Hi Hflag Hfalse.
    destruct (Hfrom i c Hi) as (c0 & Hc0 & _ & Hoff).
    assert (effective flags = flags) as Heff
      by (apply effective_nonempty; by destruct flags).
    rewrite Heff in *.
    rewrite (enabled_lookup _ _ _ Hflag), Hfalse in Hc0, Hoff.
    rewrite Hoff by done. done.
  - intros Hpos i c Hi.
    destruct (Hfrom i c Hi) as (c0 & Hc0 & Hle & _).
    assert (Hshare : 0 <= share num_aug).
    { unfold share. destruct (base_share num_aug) as [b|] eqn:Hb; [|lia].
      by eapply base_share_nonneg. }
    destruct (enabled (effective flags) (Z.of_nat i)); lia.
Qed.

Lemma allocation_counts_nonneg_witness :
  length [3; 0; 0; 0] = 4%nat
  /\ (forall i c flag,
        [3; 0; 0; 0] !! i = Some c ->
        [strength 1 1; strength 0 0; strength 0 0; strength 0 0] !! i
        = Some flag ->
        truthy flag = false -> c = 0)
  /\ (num_le (PyInt 0) (PyInt 9) = true ->
        forall i c, [3; 0; 0; 0] !! i = Some c -> 0 <= c).
Proof.
  apply (allocation_counts_nonneg (PyInt 9)
           [strength 1 1; strength 0 0; strength 0 0; strength 0 0]
           [2; 4; 1] [3; 0; 0; 0] [1]); reflexivity.
Defined.

(** *** The end of the loop *)

(** On a tape, the function has returned when the draws have landed on
    an enabled operator as many times as the remainder asks for, and is
    still running when they have not. *)
Lemma allocation_run num_aug flags t b remainder :
  (4 <= length flags)%nat ->
  base_share num_aug = Val b ->
  remainder_of num_aug = Val remainder ->
  (remainder <= hits flags t ->
     exists counts rest, get_num_per_technique num_aug flags t = Return counts rest)
  /\ (hits flags t < remainder ->
        get_num_per_technique num_aug flags t = Starved).
Proof.
  intros Hlen Hb Hr.
  assert (Hunfold : forall t0,
            get_num_per_technique num_aug flags t0 =
              remainder_loop flags
                (map (fun pos => if enabled flags pos then b else 0) [0; 1; 2; 3])
                remainder t0).
  { intros t0.
    rewrite get_num_per_technique_unfold, effective_nonempty
      by (destruct flags; [simpl in Hlen; lia|done]).
    rewrite (base_counts_defined _ _ _ b Hb), Hr; [done|].
    intros pos Hpos.
    repeat (apply elem_of_cons in Hpos as [->|Hpos]; [lia|]).
    by apply elem_of_nil in Hpos. }
  split.
  - intros Hhits. rewrite Hunfold. by apply remainder_loop_returns.
  - intros Hhits. rewrite Hunfold. by apply remainder_loop_starves.
Qed.

Lemma first_draws_app (g : generator) (k k' : nat) :
  (k <= k')%nat ->
  first_draws g k' = first_draws g k ++ map g (seq k (k' - k)).
Proof.
  intros Hk. unfold first_draws. rewrite <- map_app, <- seq_app.
  do 2 f_equal. lia.
Qed.

Lemma hits_first_draws_mono flags (g : generator) (k k' : nat) :
  (k <= k')%nat ->
  hits flags (first_draws g k) <= hits flags (first_draws g k').
Proof.
  intros Hk. rewrite (first_draws_app g k k' Hk), hits_app.
  pose proof (hits_nonneg flags (map g (seq k (k' - k)))). lia.
Qed.

(** A recurrent generator lands on an enabled operator as often as one
    asks. *)
Lemma hits_first_draws_unbounded flags (g : generator) p (r : nat) :
  recurrent g -> 0 <= p <= 3 -> enabled flags p = true ->
  exists k, Z.of_nat r <= hits flags (first_draws g k).
Proof.
  intros Hg Hp Hon. induction r as [|r [k Hk]].
  - exists 0%nat. apply hits_nonneg.
  - destruct (Hg p k ltac:(unfold num_methods; lia)) as (m & Hm & Hpick).
    exists (S m).
    pose proof (hits_first_draws_mono flags g k m Hm) as Hmono.
    rewrite (first_draws_app g m (S m)) by lia.
    replace (S m - m)%nat with 1%nat by lia.
    rewrite hits_app. cbn [seq map hits]. unfold lands. rewrite Hpick, Hon. lia.
Qed.

Lemma enabled_flag flags :
  length flags = 4%nat ->
  (exists flag, flag ∈ flags /\ truthy flag = true) ->
  exists p, 0 <= p <= 3 /\ enabled flags p = true.
Proof.
  intros Hlen (flag & Hin & Hon).
  apply list_elem_of_lookup in Hin as [i Hi].
  pose proof (lookup_lt_Some _ _ _ Hi) as Hlt.
  exists (Z.of_nat i). split; [lia|].
  by rewrite (enabled_lookup _ _ _ Hi).
Qed.

(** With an operator switched on, a target that cannot be divided makes
    the base counts raise what the division raises. *)
Lemma base_counts_raises num_aug flags e :
  length flags = 4%nat ->
  (exists p, 0 <= p <= 3 /\ enabled flags p = true) ->
  base_share num_aug = Exc e ->
  base_counts num_aug flags [0; 1; 2; 3] = Exc e.
Proof.
  intros Hlen (p & Hp & Hon) Hb.
  destruct flags as [|f0 [|f1 [|f2 [|f3 [|]]]]]; try done.
  assert (p = 0 \/ p = 1 \/ p = 2 \/ p = 3) as Hcases by lia.
  unfold enabled, getitem in Hon. cbn [base_counts]. unfold getitem. simpl.
  rewrite Hb.
  destruct Hcases as [-> | [-> | [-> | ->]]]; simpl in Hon;
    destruct (truthy f0), (truthy f1), (truthy f2), (truthy f3); done.
Qed.

(** C9: with four flags of which one is not zero, and a generator that
    keeps picking every operator position, the remainder loop ends: from
    some number of draws on the function has returned its four counts.
    For a target that cannot be divided ([int(num_aug / 4)] or
    [math.ceil(num_aug % 4)] raises) it ends with that error, before the
    loop. *)
Theorem remainder_loop_terminates num_aug flags (g : generator) :
  length flags = 4%nat ->
  (exists flag, flag ∈ flags /\ truthy flag = true) ->
  recurrent g ->
  exists k, forall k', (k <= k')%nat ->
    (exists counts rest,
       get_num_per_technique num_aug flags (first_draws g k') = Return counts rest)
    \/ (exists e,
          get_num_per_technique num_aug flags (first_draws g k') = Raise e
          /\ (base_share num_aug = Exc e \/ remainder_of num_aug = Exc e)).
Proof.
  intros Hlen Hflag Hg.
  destruct (enabled_flag flags Hlen Hflag) as (p & Hp & Hon).
  destruct (base_share num_aug) as [b|e] eqn:Hb.
  - destruct (remainder_of num_aug) as [remainder|e] eqn:Hr.
    + destruct (hits_first_draws_unbounded flags g p (Z.to_nat remainder) Hg Hp Hon)
        as [k Hk].
      exists k. intros k' Hk'. left.
      apply (allocation_run num_aug flags (first_draws g k') b remainder);
        [lia|done|done|].
      pose proof (hits_first_draws_mono flags g k k' Hk'). lia.
    + exists 0%nat. intros k' _. right. exists e. split; [|by right].
      rewrite get_num_per_technique_unfold, effective_nonempty by (by destruct flags).
      rewrite (base_counts_defined _ _ _ b Hb), Hr; [done|].
      intros pos Hpos. rewrite Hlen.
      repeat (apply elem_of_cons in Hpos as [->|Hpos]; [lia|]).
      by apply elem_of_nil in Hpos.
  - exists 0%nat. intros k' _. right. exists e. split; [|by left].
    rewrite get_num_per_technique_unfold, effective_nonempty by (by destruct flags).
    rewrite (base_counts_raises num_aug flags e); [done|done| |done].
    by exists p.
Qed.

Lemma counting_recurrent : recurrent counting.
Proof.
  intros p n Hp. unfold num_methods in Hp.
  exists (4 * n + Z.to_nat p)%nat. split; [lia|].
  unfold randint_of, counting, num_methods.
  replace (Z.of_nat (4 * n + Z.to_nat p)) with (p + Z.of_nat n * 4) by lia.
  rewrite Z.add_0_l. change (3 - 0 + 1) with 4.
  rewrite Z.mod_add by lia. apply Z.mod_small. lia.
Qed.

Lemma remainder_loop_terminates_witness :
  exists k, forall k', (k <= k')%nat ->
    (exists counts rest,
       get_num_per_technique (PyInt 2)
         [strength 0 0; strength 0 0; strength 3 1; strength 0 0]
         (first_draws counting k') = Return counts rest)
    \/ (exists e,
          get_num_per_technique (PyInt 2)
            [strength 0 0; strength 0 0; strength 3 1; strength 0 0]
            (first_draws counting k') = Raise e
          /\ (base_share (PyInt 2) = Exc e \/ remainder_of (PyInt 2) = Exc e)).
Proof.
  apply (remainder_loop_terminates (PyInt 2)
           [strength 0 0; strength 0 0; strength 3 1; strength 0 0] counting).
  - reflexivity.
  - exists (strength 3 1). split; [|reflexivity]. right. right. left.
  - exact counting_recurrent.
Defined.

(** C10: with an empty flags list the function behaves as with four
    flags set to 1. Every operator starts from [int(num_aug / 4)], no
    draw is wasted, and each of the first [remainder] draws gives one
    unit to the operator it picks, whichever of the four that is. *)
Theorem empty_flags_all_enabled num_aug t b remainder :
  base_share num_aug = Val b ->
  remainder_of num_aug = Val remainder ->
  Z.max 0 remainder <= Z.of_nat (length t) ->
  get_num_per_technique num_aug [] t
  = get_num_per_technique num_aug [PyInt 1; PyInt 1; PyInt 1; PyInt 1] t
  /\ get_num_per_technique num_aug [] t
     = Return [b + picks 0 (take (Z.to_nat remainder) t);
               b + picks 1 (take (Z.to_nat remainder) t);
               b + picks 2 (take (Z.to_nat remainder) t);
               b + picks 3 (take (Z.to_nat remainder) t)]
         (drop (Z.to_nat remainder) t).
Proof.
  intros Hb Hr Hlen. split; [reflexivity|].
  rewrite get_num_per_technique_unfold.
  rewrite (base_counts_defined _ _ _ b Hb), Hr.
  2:{ intros pos Hpos. simpl.
      repeat (apply elem_of_cons in Hpos as [->|Hpos]; [lia|]).
      by apply elem_of_nil in Hpos. }
  change (map _ [0; 1; 2; 3]) with [b; b; b; b].
  apply remainder_loop_all_enabled; [|done].
  intros p Hp.
  assert (p = 0 \/ p = 1 \/ p = 2 \/ p = 3) as [-> | [-> | [-> | ->]]] by lia;
    reflexivity.
Qed.

Lemma empty_flags_all_enabled_witness :
  get_num_per_technique (PyInt 11) [] [7; 7; 5; 0]
  = get_num_per_technique (PyInt 11) [PyInt 1; PyInt 1; PyInt 1; PyInt 1] [7; 7; 5; 0]
  /\ get_num_per_technique (PyInt 11) [] [7; 7; 5; 0]
     = Return [2 + picks 0 (take (Z.to_nat 3) [7; 7; 5; 0]);
               2 + picks 1 (take (Z.to_nat 3) [7; 7; 5; 0]);
               2 + picks 2 (take (Z.to_nat 3) [7; 7; 5; 0]);
               2 + picks 3 (take (Z.to_nat 3) [7; 7; 5; 0])]
         (drop (Z.to_nat 3) [7; 7; 5; 0]).
Proof.
  apply (empty_flags_all_enabled (PyInt 11) [7; 7; 5; 0] 2 3).
  - reflexivity.
  - reflexivity.
  - simpl. lia.
Defined.

(** ** Facts about the normalizer *)

Section Normalizer.

Implicit Types (c : char) (s : str).

Lemma is_valid_spec c : is_valid c = true <-> 97 <= c <= 122 \/ c = 32.
Proof.
  unfold is_valid. split.
  - intros H. apply existsb_exists in H as (x & Hin & Hx).
    apply Z.eqb_eq in Hx. subst x. vm_compute in Hin.
    repeat (destruct Hin as [<-|Hin]; [lia|]). done.
  - intros H. apply existsb_exists. exists c. split; [|apply Z.eqb_refl].
    assert (Hc : 0 <= c - 97 < 26 \/ c = 32) by lia.
    destruct Hc as [Hc| ->]; [|vm_compute; tauto].
    replace c with (97 + Z.of_nat (Z.to_nat (c - 97))) by lia.
    assert (Z.to_nat (c - 97) < 26)%nat as Hn by lia.
    revert Hn. generalize (Z.to_nat (c - 97)). intros n Hn.
    do 26 (destruct n as [|n]; [vm_compute; tauto|]). lia.
Qed.

Lemma valid_isspace c : is_valid c = true -> isspace c = (c =? space).
Proof.
  intros H. apply is_valid_spec in H. unfold isspace, space.
  destruct H as [H| ->]; [|done].
  repeat match goal with
         | |- context [?a <=? ?b] =>
             first [ replace (a <=? b) with true by (symmetry; apply Z.leb_le; lia)
                   | replace (a <=? b) with false by (symmetry; apply Z.leb_gt; lia) ]
         | |- context [?a =? ?b] =>
             replace (a =? b) with false by (symmetry; apply Z.eqb_neq; lia)
         end.
  done.
Qed.

Lemma str_replace_from_absent o old new s :
  o ∉ s -> str_replace_from (o :: old) new 0 s = s.
Proof.
  induction s as [|c s IH]; intros Hno; [done|].
  apply not_elem_of_cons in Hno as [Hne Hno].
  cbn [str_replace_from starts_with].
  replace (o =? c) with false by (symmetry; apply Z.eqb_neq; done).
  simpl. by rewrite IH.
Qed.

Lemma valid_not_elem s o : valid_str s -> is_valid o = false -> o ∉ s.
Proof.
  intros Hs Ho Hin. unfold valid_str in Hs. rewrite Forall_forall in Hs.
  apply Hs in Hin. congruence.
Qed.

Lemma str_lower_valid s : valid_str s -> str_lower s = s.
Proof.
  induction 1 as [|c s Hc Hs IH]; [done|].
  unfold str_lower in *. cbn [flat_map]. rewrite IH.
  apply is_valid_spec in Hc. unfold lower_char.
  replace ((65 <=? c) && (c <=? 90)) with false.
  2:{ symmetry. apply andb_false_iff. rewrite Z.leb_gt, Z.leb_gt. lia. }
  replace (c =? 304) with false by (symmetry; apply Z.eqb_neq; lia).
  replace (c =? 8490) with false by (symmetry; apply Z.eqb_neq; lia).
  done.
Qed.

Lemma keep_valid_valid s : valid_str (map keep_valid s).
Proof.
  apply Forall_map, Forall_forall. intros c _. unfold keep_valid.
  destruct (is_valid c) eqn:E; [done|reflexivity].
Qed.

Lemma keep_valid_id s : valid_str s -> map keep_valid s = s.
Proof.
  induction 1 as [|c s Hc Hs IH]; [done|].
  cbn [map]. unfold keep_valid at 1. by rewrite Hc, IH.
Qed.

Lemma collapse_spaces_valid s : valid_str s -> valid_str (collapse_spaces s).
Proof.
  induction 1 as [|c s Hc Hs IH]; [constructor|].
  cbn [collapse_spaces]. destruct s as [|d s]; [by repeat constructor|].
  destruct ((c =? space) && (d =? space)); [done|by constructor].
Qed.

Lemma collapse_spaces_head c s :
  exists s', collapse_spaces (c :: s) = c :: s'.
Proof.
  revert c. induction s as [|d s IH]; intros c; [by exists []|].
  cbn [collapse_spaces]. fold (collapse_spaces (d :: s)).
  destruct ((c =? space) && (d =? space)) eqn:E; [|eauto].
  apply andb_prop in E as [Ec Ed]. apply Z.eqb_eq in Ec, Ed. subst.
  apply IH.
Qed.

Lemma collapse_spaces_single s : single_spaced (collapse_spaces s) = true.
Proof.
  induction s as [|c s IH]; [done|].
  cbn [collapse_spaces]. destruct s as [|d s]; [done|].
  destruct ((c =? space) && (d =? space)) eqn:E; [done|].
  destruct (collapse_spaces_head d s) as [s' Hs']. rewrite Hs' in *.
  change (single_spaced (c :: d :: s'))
    with (negb ((c =? space) && (d =? space)) && single_spaced (d :: s')).
  by rewrite E, IH.
Qed.

Lemma collapse_spaces_id s : single_spaced s = true -> collapse_spaces s = s.
Proof.
  induction s as [|c s IH]; [done|].
  destruct s as [|d s]; [done|].
  change (single_spaced (c :: d :: s))
    with (negb ((c =? space) && (d =? space)) && single_spaced (d :: s)).
  change (collapse_spaces (c :: d :: s))
    with (if (c =? space) && (d =? space) then collapse_spaces (d :: s)
          else c :: collapse_spaces (d :: s)).
  intros H. apply andb_prop in H as [H1 H2].
  apply negb_true_iff in H1. rewrite H1. by rewrite IH.
Qed.


Lemma lstrip_valid s : valid_str s -> valid_str (lstrip s).
Proof.
  induction 1 as [|c s Hc Hs IH]; [constructor|].
  cbn [lstrip]. destruct (isspace c); [done|by constructor].
Qed.

Lemma rstrip_valid s : valid_str s -> valid_str (rstrip s).
Proof.
  induction 1 as [|c s Hc Hs IH]; [constructor|].
  cbn [rstrip]. destruct (rstrip s) as [|d r].
  - destruct (isspace c); by repeat constructor.
  - by constructor.
Qed.

Lemma single_spaced_tail c s : single_spaced (c :: s) = true -> single_spaced s = true.
Proof.
  destruct s as [|d s]; [done|].
  change (single_spaced (c :: d :: s))
    with (negb ((c =? space) && (d =? space)) && single_spaced (d :: s)).
  intros H. by apply andb_prop in H as [_ H].
Qed.

Lemma lstrip_single s : single_spaced s = true -> single_spaced (lstrip s) = true.
Proof.
  induction s as [|c s IH]; [done|]. intros H.
  cbn [lstrip]. destruct (isspace c); [|done].
  apply IH. by eapply single_spaced_tail.
Qed.

Lemma rstrip_head c s d r : rstrip (c :: s) = d :: r -> d = c.
Proof.
  cbn [rstrip]. destruct (rstrip s); [|by intros [= <- _]].
  destruct (isspace c); [done|by intros [= <- _]].
Qed.

Lemma rstrip_single s : single_spaced s = true -> single_spaced (rstrip s) = true.
Proof.
  induction s as [|c s IH]; [done|]. intros H.
  pose proof (IH (single_spaced_tail _ _ H)) as IH'.
  cbn [rstrip]. destruct (rstrip s) as [|d r] eqn:E.
  - by destruct (isspace c).
  - destruct s as [|d' s]; [done|].
    apply rstrip_head in E as Hd. subst d'.
    change (single_spaced (c :: d :: s))
      with (negb ((c =? space) && (d =? space)) && single_spaced (d :: s)) in H.
    apply andb_prop in H as [H1 _].
    change (single_spaced (c :: d :: r))
      with (negb ((c =? space) && (d =? space)) && single_spaced (d :: r)).
    by rewrite H1, IH'.
Qed.

Lemma lstrip_idemp s : lstrip (lstrip s) = lstrip s.
Proof.
  induction s as [|c s IH]; [done|].
  cbn [lstrip]. destruct (isspace c) eqn:E; [done|].
  cbn [lstrip]. by rewrite E.
Qed.

Lemma rstrip_idemp s : rstrip (rstrip s) = rstrip s.
Proof.
  induction s as [|c s IH]; [done|].
  cbn [rstrip]. destruct (rstrip s) as [|d r] eqn:E.
  - destruct (isspace c) eqn:Ec; [done|]. cbn [rstrip]. by rewrite Ec.
  - change (rstrip (c :: d :: r))
      with (match rstrip (d :: r) with
            | [] => if isspace c then [] else [c]
            | r0 => c :: r0
            end).
    by rewrite IH.
Qed.

Lemma strip_commute s : lstrip (rstrip s) = rstrip (lstrip s).
Proof.
  induction s as [|c s IH]; [done|].
  cbn [rstrip lstrip]. destruct (isspace c) eqn:Ec.
  - rewrite <- IH. destruct (rstrip s) as [|d r]; [done|].
    cbn [lstrip]. by rewrite Ec.
  - cbn [rstrip]. destruct (rstrip s) as [|d r]; cbn [lstrip]; by rewrite Ec.
Qed.

Lemma str_strip_idemp s : str_strip (str_strip s) = str_strip s.
Proof.
  unfold str_strip.
  by rewrite (strip_commute s), rstrip_idemp, <- strip_commute, lstrip_idemp.
Qed.

(** What the normalizer returns: only [a-z] and single spaces. *)
Lemma get_only_chars_shape line :
  valid_str (get_only_chars line)
  /\ single_spaced (get_only_chars line) = true.
Proof.
  unfold get_only_chars, str_strip. fold keep_valid.
  split.
  - apply lstrip_valid, rstrip_valid, collapse_spaces_valid, keep_valid_valid.
  - apply lstrip_single, rstrip_single, collapse_spaces_single.
Qed.

Lemma get_only_chars_valid s :
  valid_str s -> get_only_chars s = str_strip (collapse_spaces s).
Proof.
  intros Hs. unfold get_only_chars, str_replace, broken_apostrophe.
  cbn [of_string list_ascii_of_string map N_of_ascii Z.of_N N.add N.mul].
  rewrite (str_replace_from_absent 226 _ _ s) by (by apply valid_not_elem).
  rewrite (str_replace_from_absent 39 _ _ s) by (by apply valid_not_elem).
  rewrite (str_replace_from_absent 45 _ _ s) by (by apply valid_not_elem).
  rewrite (str_replace_from_absent 9 _ _ s) by (by apply valid_not_elem).
  rewrite (str_replace_from_absent 10 _ _ s) by (by apply valid_not_elem).
  fold keep_valid. by rewrite str_lower_valid, keep_valid_id.
Qed.

(** C7: the normalizer is idempotent, for every string [x]. *)
Theorem get_only_chars_idempotent x :
  get_only_chars (get_only_chars x) = get_only_chars x.
Proof.
  destruct (get_only_chars_shape x) as [Hv Hs].
  rewrite (get_only_chars_valid _ Hv), (collapse_spaces_id _ Hs).
  unfold get_only_chars. apply str_strip_idemp.
Qed.

End Normalizer.


(** ** Facts about the operators *)

Section Operators.

Implicit Types (words : list str) (t : tape).

Lemma len_nonneg {A} (l : list A) : 0 <= len l.
Proof. unfold len. lia. Qed.

Lemma filter_m_survivors probability words t :
  (length words <= length t)%nat ->
  filter_m (fun _ => u <- uniform01 ;; ret (num_lt probability (PyFloat u)))
    words t
  = Return (survivors probability words t) (drop (length words) t).
Proof.
  revert t. induction words as [|word words IH]; intros t Hlen; [by destruct t|].
  destruct t as [|r t]; [simpl in Hlen; lia|].
  cbn [filter_m survivors length drop]. unfold bind at 1 2. cbn [uniform01].
  unfold ret at 1. unfold bind at 1.
  rewrite IH by (simpl in Hlen; lia).
  unfold ret. by destruct (num_lt probability (PyFloat (random_of r))).
Qed.

Lemma survivors_sublist probability words t :
  survivors probability words t `sublist_of` words.
Proof.
  revert t. induction words as [|word words IH]; intros [|r t]; simpl;
    try apply sublist_nil_l.
  destruct (num_lt _ _); [by apply sublist_skip|by apply sublist_cons].
Qed.


Lemma sublist_elem_of words words' (w : str) :
  words' `sublist_of` words -> w ∈ words' -> w ∈ words.
Proof. intros Hsub. by apply sublist_subseteq. Qed.

(** C4: on a token list that is not empty, and with one draw more than
    there are tokens, [random_deletion] returns between 1 and
    [len(words)] tokens, all of them tokens of the input. A list of one
    token is returned as it is, with no draw taken. Otherwise the result
    is the list of the survivors, unless no token survives: then it is
    the single token [words[random.randint(0, len(words) - 1)]]. *)
Theorem random_deletion_length words probability t :
  words <> [] ->
  (length words < length t)%nat ->
  exists new_words rest,
    random_deletion words probability t = Return new_words rest
    /\ (1 <= length new_words <= length words)%nat
    /\ (forall w, w ∈ new_words -> w ∈ words)
    /\ (length words = 1%nat -> new_words = words /\ rest = t)
    /\ ((2 <= length words)%nat -> survivors probability words t <> [] ->
          new_words = survivors probability words t
          /\ rest = drop (length words) t)
    /\ ((2 <= length words)%nat -> survivors probability words t = [] ->
          exists r word,
            t !! length words = Some r
            /\ words !! Z.to_nat (randint_of 0 (len words - 1) r) = Some word
            /\ new_words = [word]
            /\ rest = drop (S (length words)) t).
Proof.
  intros Hne Hlen. unfold random_deletion.
  destruct (len words =? 1) eqn:E1.
  - apply Z.eqb_eq in E1. unfold len in E1.
    exists words, t. split; [done|]. repeat split; try lia; try done.
  - apply Z.eqb_neq in E1. unfold len in E1.
    assert (2 <= length words)%nat as H2.
    { destruct words as [|w [|w' ws]]; simpl in *; try done; lia. }
    unfold bind at 1. rewrite filter_m_survivors by lia.
    pose proof (survivors_sublist probability words t) as Hsub.
    destruct (survivors probability words t) as [|s0 ss] eqn:Es.
    + change (len [] =? 0) with true. cbn iota.
      destruct (drop (length words) t) as [|r rest] eqn:Ed.
      { apply (f_equal length) in Ed. rewrite length_drop in Ed. simpl in Ed. lia. }
      unfold bind, randint.
      replace (len words - 1 <? 0) with false
        by (symmetry; apply Z.ltb_ge; unfold len; lia).
      pose proof (randint_of_range 0 (len words - 1) r ltac:(unfold len; lia)) as Hr.
      destruct (getitem_in_range words (randint_of 0 (len words - 1) r)) as [word Hw].
      { unfold len in *. lia. }
      rewrite Hw. cbn [lift]. unfold ret.
      exists [word], rest.
      assert (Hlook : words !! Z.to_nat (randint_of 0 (len words - 1) r) = Some word).
      { unfold getitem in Hw.
        destruct (words !! Z.to_nat (randint_of 0 (len words - 1) r)) as [x|];
          [by injection Hw as ->|done]. }
      split; [done|]. split; [simpl; lia|]. split.
      { intros w Hin. apply list_elem_of_singleton in Hin as ->.
        by eapply list_elem_of_lookup_2. }
      split; [lia|]. split; [done|]. intros _ _.
      exists r, word. split.
      { pose proof (lookup_drop t (length words) 0) as Hd.
        by rewrite Ed, Nat.add_0_r in Hd. }
      split; [done|]. split; [done|].
      pose proof (drop_drop t 1 (length words)) as Hd.
      rewrite Ed, Nat.add_1_r in Hd. by rewrite <- Hd.
    + change (len (s0 :: ss) =? 0) with false. cbn iota. unfold ret.
      exists (s0 :: ss), (drop (length words) t).
      split; [done|]. split.
      { split; [simpl; lia|]. by apply sublist_length. }
      split; [intros w; by apply sublist_elem_of|].
      split; [lia|]. split; [done|]. done.
Qed.


Lemma random_deletion_length_witness :
  exists new_words rest,
    random_deletion [of_string "a"; of_string "b"; of_string "c"] (strength 5 1)
      [2 ^ 51; 0; 2 ^ 52; 7] = Return new_words rest
    /\ (1 <= length new_words
        <= length [of_string "a"; of_string "b"; of_string "c"])%nat
    /\ (forall w, w ∈ new_words ->
          w ∈ [of_string "a"; of_string "b"; of_string "c"])
    /\ (length [of_string "a"; of_string "b"; of_string "c"] = 1%nat ->
          new_words = [of_string "a"; of_string "b"; of_string "c"]
          /\ rest = [2 ^ 51; 0; 2 ^ 52; 7])
    /\ ((2 <= length [of_string "a"; of_string "b"; of_string "c"])%nat ->
          survivors (strength 5 1)
            [of_string "a"; of_string "b"; of_string "c"] [2 ^ 51; 0; 2 ^ 52; 7]
          <> [] ->
          new_words
          = survivors (strength 5 1)
              [of_string "a"; of_string "b"; of_string "c"] [2 ^ 51; 0; 2 ^ 52; 7]
          /\ rest
             = drop (length [of_string "a"; of_string "b"; of_string "c"])
                 [2 ^ 51; 0; 2 ^ 52; 7])
    /\ ((2 <= length [of_string "a"; of_string "b"; of_string "c"])%nat ->
          survivors (strength 5 1)
            [of_string "a"; of_string "b"; of_string "c"] [2 ^ 51; 0; 2 ^ 52; 7]
          = [] ->
          exists r word,
            [2 ^ 51; 0; 2 ^ 52; 7]
              !! length [of_string "a"; of_string "b"; of_string "c"] = Some r
            /\ [of_string "a"; of_string "b"; of_string "c"]
                 !! Z.to_nat
                      (randint_of 0
                         (len [of_string "a"; of_string "b"; of_string "c"] - 1) r)
               = Some word
            /\ new_words = [word]
            /\ rest
               = drop (S (length [of_string "a"; of_string "b"; of_string "c"]))
                   [2 ^ 51; 0; 2 ^ 52; 7]).
Proof.
  apply (random_deletion_length
           [of_string "a"; of_string "b"; of_string "c"] (strength 5 1)
           [2 ^ 51; 0; 2 ^ 52; 7]).
  - discriminate.
  - simpl. lia.
Defined.

(** *** Random swap *)

Lemma getitem_Some {A} (l : list A) i x : getitem l i = Val x -> l !! Z.to_nat i = Some x.
Proof.
  unfold getitem. destruct (l !! Z.to_nat i) as [y|]; [by intros [= ->]|done].
Qed.

Lemma swap_items_Permutation {A} (l l' : list A) i j :
  swap_items l i j = Val l' -> l' ≡ₚ l.
Proof.
  unfold swap_items.
  destruct (getitem l j) as [at_j|] eqn:Hj; [|done].
  destruct (getitem l i) as [at_i|] eqn:Hi; [|done].
  cbn [val_bind]. intros [= <-].
  apply getitem_Some in Hi, Hj. by apply Permutation_insert_swap.
Qed.

Lemma swap_items_defined {A} (l : list A) i j :
  0 <= i < len l -> 0 <= j < len l -> exists l', swap_items l i j = Val l'.
Proof.
  intros Hi Hj. unfold swap_items.
  destruct (getitem_in_range l j Hj) as [at_j ->].
  destruct (getitem_in_range l i Hi) as [at_i ->].
  cbn [val_bind]. eauto.
Qed.

Lemma swap_word_loop_Permutation new_words random_idx_1 counter t l rest :
  swap_word_loop new_words random_idx_1 counter t = Return l rest ->
  l ≡ₚ new_words.
Proof.
  revert counter. induction t as [|r t IH]; intros counter; cbn [swap_word_loop].
  - by destruct (len new_words - 1 <? 0).
  - destruct (len new_words - 1 <? 0); [done|].
    destruct (3 <? counter + 1); [by intros [= <- _]|].
    destruct (_ =? random_idx_1); [apply IH|].
    destruct (swap_items _ _ _) as [l'|] eqn:E; [|done].
    cbn [lift]. unfold ret. intros [= <- _]. by eapply swap_items_Permutation.
Qed.

(** The loop leaves after at most [4 - counter] draws. *)
Lemma swap_word_loop_returns new_words random_idx_1 counter t :
  new_words <> [] ->
  0 <= random_idx_1 < len new_words ->
  0 <= counter <= 3 ->
  4 - counter <= len t ->
  exists l rest,
    swap_word_loop new_words random_idx_1 counter t = Return l rest
    /\ len t <= len rest + (4 - counter).
Proof.
  intros Hne Hi. revert counter.
  induction t as [|r t IH]; intros counter Hc Hlen;
    cbn [swap_word_loop]; unfold len in *; cbn [length] in *.
  - replace (Z.of_nat (length new_words) - 1 <? 0) with false
      by (symmetry; apply Z.ltb_ge; lia).
    lia.
  - replace (Z.of_nat (length new_words) - 1 <? 0) with false
      by (symmetry; apply Z.ltb_ge; lia).
    destruct (3 <? counter + 1) eqn:E3.
    + apply Z.ltb_lt in E3. exists new_words, t. split; [done|lia].
    + apply Z.ltb_ge in E3.
      assert (1 <= Z.of_nat (length new_words))
        by (destruct new_words; [done|simpl; lia]).
      pose proof (randint_of_range 0 (Z.of_nat (length new_words) - 1) r
                    ltac:(lia)) as Hr.
      fold (len new_words) in *.
      destruct (_ =? random_idx_1).
      * destruct (IH (counter + 1)) as (l & rest & -> & Hrest); [lia|lia|].
        exists l, rest. split; [done|lia].
      * destruct (swap_items_defined new_words random_idx_1
                    (randint_of 0 (len new_words - 1) r)) as [l' ->];
          [done|unfold len in *; lia|].
        exists l', t. split; [done|lia].
Qed.

Lemma swap_word_Permutation new_words t l rest :
  swap_word new_words t = Return l rest -> l ≡ₚ new_words.
Proof.
  unfold swap_word, bind, randint.
  destruct (len new_words - 1 <? 0); [done|].
  destruct t as [|r t]; [done|]. apply swap_word_loop_Permutation.
Qed.

Lemma swap_word_returns new_words t :
  new_words <> [] -> 5 <= len t ->
  exists l rest, swap_word new_words t = Return l rest /\ len t <= len rest + 5.
Proof.
  intros Hne Hlen. unfold swap_word, bind, randint.
  assert (1 <= len new_words) by (destruct new_words; [done|unfold len; simpl; lia]).
  replace (len new_words - 1 <? 0) with false by (symmetry; apply Z.ltb_ge; lia).
  destruct t as [|r t]; [unfold len in Hlen; simpl in Hlen; lia|].
  pose proof (randint_of_range 0 (len new_words - 1) r ltac:(lia)) as Hr.
  destruct (swap_word_loop_returns new_words (randint_of 0 (len new_words - 1) r) 0 t)
    as (l & rest & -> & Hrest); [done|lia|lia|unfold len in *; simpl in *; lia|].
  exists l, rest. split; [done|]. unfold len in *. simpl in *. lia.
Qed.

Lemma repeat_swap_Permutation (k : nat) words t l rest :
  repeat_m k swap_word words t = Return l rest -> l ≡ₚ words.
Proof.
  revert words t. induction k as [|k IH]; intros words t; cbn [repeat_m].
  - unfold ret. by intros [= <- _].
  - unfold bind. destruct (swap_word words t) as [l' t'| |] eqn:E; [|done|done].
    intros Hrun. apply IH in Hrun. apply swap_word_Permutation in E.
    by rewrite Hrun.
Qed.

Lemma repeat_swap_returns (k : nat) words t :
  words <> [] -> 5 * Z.of_nat k <= len t ->
  exists l rest,
    repeat_m k swap_word words t = Return l rest
    /\ len t <= len rest + 5 * Z.of_nat k.
Proof.
  revert words t. induction k as [|k IH]; intros words t Hne Hlen; cbn [repeat_m].
  - exists words, t. split; [done|lia].
  - unfold bind.
    destruct (swap_word_returns words t Hne ltac:(lia)) as (l' & t' & E & Ht').
    rewrite E.
    destruct (IH l' t') as (l & rest & -> & Hrest).
    + intros ->. apply swap_word_Permutation in E.
      by apply Permutation_nil_l in E.
    + lia.
    + exists l, rest. split; [done|lia].
Qed.

(** C5, as stated, fails on the empty token list: the first
    [random.randint(0, -1)] of [swap_word] is a [ValueError]. *)
Lemma random_swap_empty_raises :
  ~ (forall words n, 0 <= n ->
       exists t new_words rest,
         random_swap words n t = Return new_words rest /\ new_words ≡ₚ words).
Proof.
  intros H. destruct (H [] 1 ltac:(lia)) as (t & new_words & rest & Hrun & _).
  assert (random_swap [] 1 t = Raise ValueError) as Hraise by done.
  by rewrite Hraise in Hrun.
Qed.

(** C5, amended: on a token list that is not empty (or with no swap
    asked for), and with five draws for each swap, [random_swap] returns
    a permutation of its input: the same tokens, as many times each, and
    so the same length. *)
Theorem random_swap_permutation words n t :
  words <> [] \/ n <= 0 ->
  5 * n <= len t ->
  exists new_words rest,
    random_swap words n t = Return new_words rest
    /\ new_words ≡ₚ words
    /\ length new_words = length words.
Proof.
  intros Hcase Hlen. unfold random_swap.
  assert (exists new_words rest,
            repeat_m (Z.to_nat n) swap_word words t = Return new_words rest)
    as (new_words & rest & Hrun).
  { destruct Hcase as [Hne|Hn].
    - destruct (repeat_swap_returns (Z.to_nat n) words t Hne) as (l & rest & E & _);
        [pose proof (len_nonneg t); lia|eauto].
    - replace (Z.to_nat n) with 0%nat by lia. by exists words, t. }
  exists new_words, rest. split; [done|].
  apply repeat_swap_Permutation in Hrun.
  split; [done|]. by apply Permutation_length.
Qed.

Lemma random_swap_permutation_witness :
  exists new_words rest,
    random_swap [of_string "a"; of_string "b"; of_string "c"] 2
      [0; 0; 0; 0; 0; 1; 2; 7; 7; 7] = Return new_words rest
    /\ new_words ≡ₚ [of_string "a"; of_string "b"; of_string "c"]
    /\ length new_words = length [of_string "a"; of_string "b"; of_string "c"].
Proof.
  apply (random_swap_permutation
           [of_string "a"; of_string "b"; of_string "c"] 2
           [0; 0; 0; 0; 0; 1; 2; 7; 7; 7]).
  - left. discriminate.
  - vm_compute. discriminate.
Defined.

End Operators.


(** ** Facts about the orchestrator *)

Section Orchestrator.

Lemma shuffle_from_Permutation {A} (i : nat) (x x' : list A) t rest :
  shuffle_from i x t = Return x' rest -> x' ≡ₚ x.
Proof.
  revert x t. induction i as [|i IH]; intros x t; cbn [shuffle_from].
  - unfold ret. by intros [= <- _].
  - unfold bind at 1. destruct (randint 0 (Z.of_nat (S i)) t) as [j t'| |]; [|done|done].
    unfold bind at 1.
    destruct (swap_items x (Z.of_nat (S i)) j) as [x0|] eqn:E; [|done].
    cbn [lift]. unfold ret at 1. intros Hrun. apply IH in Hrun.
    apply swap_items_Permutation in E. by rewrite Hrun.
Qed.

Lemma shuffle_Permutation {A} (x x' : list A) t rest :
  shuffle x t = Return x' rest -> x' ≡ₚ x.
Proof. apply shuffle_from_Permutation. Qed.

Lemma filter_m_sublist {A} (keep : A -> M bool) (l l' : list A) t rest :
  filter_m keep l t = Return l' rest -> l' `sublist_of` l.
Proof.
  revert l' t rest. induction l as [|x l IH]; intros l' t rest; cbn [filter_m].
  - unfold ret. by intros [= <- _].
  - unfold bind at 1. destruct (keep x t) as [b t'| |]; [|done|done].
    unfold bind at 1. destruct (filter_m keep l t') as [ys t''| |] eqn:E; [|done|done].
    unfold ret. intros [= <- _]. apply IH in E.
    destruct b; [by apply sublist_skip|by apply sublist_cons].
Qed.

Lemma eda_trim_sublist num_aug l l' t rest :
  eda_trim num_aug l t = Return l' rest -> l' `sublist_of` l.
Proof.
  unfold eda_trim. unfold bind at 1.
  destruct (num_le (PyInt 1) num_aug).
  - unfold bind at 1. destruct (py_int num_aug) as [k|]; [|done].
    cbn [lift]. unfold ret at 1 2.
    destruct (k <? len l).
    + unfold ret. intros [= <- _]. apply sublist_take.
    + destruct (num_lt (PyInt 0) num_aug).
      * unfold bind at 1.
        destruct (truediv num_aug (PyInt (len l))) as [keep_prob|]; [|done].
        cbn [lift]. unfold ret at 1. apply filter_m_sublist.
      * unfold ret. by intros [= <- _].
  - unfold ret at 1.
    destruct (num_lt (PyInt 0) num_aug).
    + unfold bind at 1.
      destruct (truediv num_aug (PyInt (len l))) as [keep_prob|]; [|done].
      cbn [lift]. unfold ret at 1. apply filter_m_sublist.
    + unfold ret. by intros [= <- _].
Qed.

Lemma eda_unfold lex sentence language num_aug a1 a2 a3 a4 randomize :
  eda lex sentence language num_aug a1 a2 a3 a4 randomize =
    if len (words_of sentence) =? 0 then ret [sentence]
    else
      (augmented_sentences <-
         eda_generate lex (words_of sentence) language num_aug a1 a2 a3 a4 ;;
       augmented_sentences <-
         (if randomize then shuffle augmented_sentences
          else ret augmented_sentences) ;;
       augmented_sentences <- eda_trim num_aug augmented_sentences ;;
       ret (sentence :: augmented_sentences)).
Proof. reflexivity. Qed.

(** C3: whatever the parameters, the list [eda] returns starts with the
    sentence it was given, char for char. The rest is what was generated
    for the words of the sentence, shuffled as a whole when [randomize]
    is set (the sentence at the front takes no part in it) and then
    trimmed; for a sentence without words there is no rest. *)
Theorem eda_original_first lex sentence language num_aug
    alpha_sr alpha_ri alpha_rs alpha_rd randomize t l rest :
  eda lex sentence language num_aug alpha_sr alpha_ri alpha_rs alpha_rd
    randomize t = Return l rest ->
  exists augmented_sentences,
    l = sentence :: augmented_sentences
    /\ ((words_of sentence = [] /\ augmented_sentences = [])
        \/ exists generated t1 shuffled t2,
             eda_generate lex (words_of sentence) language num_aug
               alpha_sr alpha_ri alpha_rs alpha_rd t = Return generated t1
             /\ (if randomize
                 then shuffle generated t1 = Return shuffled t2
                 else shuffled = generated /\ t2 = t1)
             /\ shuffled ≡ₚ generated
             /\ eda_trim num_aug shuffled t2 = Return augmented_sentences rest
             /\ augmented_sentences `sublist_of` shuffled).
Proof.
  rewrite eda_unfold.
  destruct (len (words_of sentence) =? 0) eqn:Ewords.
  - unfold ret. intros [= <- _]. exists []. split; [done|]. left.
    apply Z.eqb_eq in Ewords. unfold len in Ewords.
    by destruct (words_of sentence).
  - unfold bind at 1.
    destruct (eda_generate _ _ _ _ _ _ _ _ t) as [generated t1| |] eqn:Egen;
      [|done|done].
    unfold bind at 1.
    destruct randomize.
    + destruct (shuffle generated t1) as [shuffled t2| |] eqn:Esh; [|done|done].
      unfold bind at 1.
      destruct (eda_trim num_aug shuffled t2) as [trimmed t3| |] eqn:Etr;
        [|done|done].
      unfold ret. intros [= <- <-]. exists trimmed. split; [done|]. right.
      exists generated, t1, shuffled, t2.
      repeat split; try done; [by eapply shuffle_Permutation|].
      by eapply eda_trim_sublist.
    + unfold ret at 1. unfold bind at 1.
      destruct (eda_trim num_aug generated t1) as [trimmed t3| |] eqn:Etr;
        [|done|done].
      unfold ret. intros [= <- <-]. exists trimmed. split; [done|]. right.
      exists generated, t1, generated, t1.
      repeat split; try done. by eapply eda_trim_sublist.
Qed.

Lemma eda_original_first_witness :
  exists augmented_sentences,
    [fox_sentence; of_string "quick the brown fox jumps";
     of_string "jumps quick brown fox the"]
    = fox_sentence :: augmented_sentences
    /\ ((words_of fox_sentence = [] /\ augmented_sentences = [])
        \/ exists generated t1 shuffled t2,
             eda_generate empty_lexicon (words_of fox_sentence) (of_string "eng")
               (PyInt 2) (PyInt 0) (PyInt 0) (strength 3 1) (PyInt 0)
               [2; 6; 0; 1; 4; 0; 0; 0] = Return generated t1
             /\ (if false
                 then shuffle generated t1 = Return shuffled t2
                 else shuffled = generated /\ t2 = t1)
             /\ shuffled ≡ₚ generated
             /\ eda_trim (PyInt 2) shuffled t2 = Return augmented_sentences []
             /\ augmented_sentences `sublist_of` shuffled).
Proof.
  apply (eda_original_first empty_lexicon fox_sentence (of_string "eng")
           (PyInt 2) (PyInt 0) (PyInt 0) (strength 3 1) (PyInt 0) false
           [2; 6; 0; 1; 4; 0; 0; 0]).
  reflexivity.
Defined.

(** *** No operator switched on *)

Lemma falsy_not_positive a : truthy a = false -> num_lt (PyInt 0) a = false.
Proof.
  destruct a as [z|[s|s| |s m e]]; simpl; try done.
  intros H. apply negb_false_iff, Z.eqb_eq in H. by subst z.
Qed.

Lemma falsy_disabled a1 a2 a3 a4 p :
  truthy a1 = false -> truthy a2 = false -> truthy a3 = false ->
  truthy a4 = false -> 0 <= p <= 3 -> enabled [a1; a2; a3; a4] p = false.
Proof.
  intros H1 H2 H3 H4 Hp.
  assert (p = 0 \/ p = 1 \/ p = 2 \/ p = 3) as [-> | [-> | [-> | ->]]] by lia;
    unfold enabled; simpl; done.
Qed.

Lemma at_least_one_float f :
  num_le (PyInt 1) (PyFloat f) = true ->
  match f with
  | S754_infinity false | S754_finite false _ _ => True
  | _ => False
  end.
Proof.
  unfold num_le. cbn [num_compare].
  destruct f as [s|[|]| |[|] m e]; try done; cbn [compare_float_int cond_Zopp].
  pose proof (Pos2Z.neg_is_neg m).
  destruct (0 <=? e) eqn:He; cbn [option_map].
  - apply Z.leb_le in He. pose proof (Z.pow_pos_nonneg 2 e ltac:(lia) He).
    match goal with
    | |- context [?a ?= ?b] => destruct (Z.compare_spec a b)
    end; simpl; try done; nia.
  - apply Z.leb_gt in He.
    pose proof (Z.pow_pos_nonneg 2 (- e) ltac:(lia) ltac:(lia)).
    match goal with
    | |- context [?a ?= ?b] => destruct (Z.compare_spec a b)
    end; simpl; try done; lia.
Qed.

Lemma at_least_one_positive x :
  num_le (PyInt 1) x = true -> num_lt (PyInt 0) x = true.
Proof.
  destruct x as [z|f].
  - unfold num_le, num_lt. cbn [num_compare].
    destruct (Z.compare_spec 1 z); try done;
      destruct (Z.compare_spec 0 z); try done; lia.
  - intros H. apply at_least_one_float in H.
    destruct f as [s|[|]| |[|] m e]; try done.
    unfold num_lt. cbn [num_compare compare_float_int cond_Zopp].
    destruct (0 <=? e) eqn:He; cbn [option_map].
    + apply Z.leb_le in He. pose proof (Z.pow_pos_nonneg 2 e ltac:(lia) He).
      match goal with
      | |- context [?a ?= ?b] => destruct (Z.compare_spec a b)
      end; simpl; try done; nia.
    + match goal with
      | |- context [?a ?= ?b] => destruct (Z.compare_spec a b)
      end; simpl; try done; lia.
Qed.

Lemma at_least_one_int x k :
  num_le (PyInt 1) x = true -> py_int x = Val k -> 0 <= k.
Proof.
  destruct x as [z|f]; cbn [py_int].
  - unfold num_le. cbn [num_compare]. intros H [= <-].
    destruct (Z.compare_spec 1 z); try done; lia.
  - intros H Hk. apply at_least_one_float in H.
    eapply int_of_float_nonneg; [done|]. by destruct f as [s|[|]| |[|] m e].
Qed.

(** With no operator switched on, [get_num_per_technique] hands out
    nothing, and returns only if nothing is left to distribute. *)
Lemma get_num_per_technique_disabled num_aug a1 a2 a3 a4 t :
  truthy a1 = false -> truthy a2 = false -> truthy a3 = false ->
  truthy a4 = false ->
  get_num_per_technique num_aug [a1; a2; a3; a4] t =
    match remainder_of num_aug with
    | Exc e => Raise e
    | Val remainder => if 0 <? remainder then Starved else Return [0; 0; 0; 0] t
    end.
Proof.
  intros H1 H2 H3 H4. rewrite get_num_per_technique_unfold. cbn [effective].
  assert (base_counts num_aug [a1; a2; a3; a4] [0; 1; 2; 3] = Val [0; 0; 0; 0]) as ->.
  { simpl. unfold getitem. simpl. by rewrite H1, H2, H3, H4. }
  destruct (remainder_of num_aug) as [remainder|]; [|done].
  destruct (0 <? remainder) eqn:E.
  - apply Z.ltb_lt in E. apply remainder_loop_starves; [simpl; lia|].
    rewrite hits_none; [done|]. intros p Hp. by apply falsy_disabled.
  - destruct t; simpl; by rewrite E.
Qed.

Lemma eda_generate_disabled lex words language num_aug a1 a2 a3 a4 t :
  truthy a1 = false -> truthy a2 = false -> truthy a3 = false ->
  truthy a4 = false ->
  eda_generate lex words language num_aug a1 a2 a3 a4 t =
    match remainder_of num_aug with
    | Exc e => Raise e
    | Val remainder => if 0 <? remainder then Starved else Return [] t
    end.
Proof.
  intros H1 H2 H3 H4. unfold eda_generate. unfold bind at 1.
  rewrite get_num_per_technique_disabled by done.
  destruct (remainder_of num_aug) as [remainder|]; [|done].
  destruct (0 <? remainder); [done|].
  by rewrite !falsy_not_positive.
Qed.

(** What [eda] comes to when no operator is switched on. *)
Lemma eda_no_operator lex sentence language num_aug a1 a2 a3 a4 randomize t :
  words_of sentence <> [] ->
  truthy a1 = false -> truthy a2 = false -> truthy a3 = false ->
  truthy a4 = false ->
  eda lex sentence language num_aug a1 a2 a3 a4 randomize t =
    match remainder_of num_aug with
    | Exc e => Raise e
    | Val remainder =>
        if 0 <? remainder then Starved
        else match eda_trim num_aug [] t with
             | Return l rest => Return (sentence :: l) rest
             | Raise e => Raise e
             | Starved => Starved
             end
    end.
Proof.
  intros Hwords H1 H2 H3 H4. rewrite eda_unfold.
  replace (len (words_of sentence) =? 0) with false.
  2:{ symmetry. apply Z.eqb_neq. unfold len.
      destruct (words_of sentence); [done|simpl; lia]. }
  unfold bind at 1. rewrite eda_generate_disabled by done.
  destruct (remainder_of num_aug) as [remainder|]; [|done].
  destruct (0 <? remainder); [done|].
  unfold bind. by destruct randomize.
Qed.

(** C2, as stated, fails: with the four strengths zero and a target of
    9, one unit is left to distribute and no operator may take it: the
    remainder loop of [get_num_per_technique] runs on whatever the
    generator hands out, and [eda] does not return. *)
Lemma eda_all_alphas_zero_no_result :
  ~ (forall num_aug, num_le (PyInt 1) num_aug = true ->
       exists t rest,
         eda empty_lexicon fox_sentence (of_string "eng") num_aug
           (PyInt 0) (PyInt 0) (PyInt 0) (PyInt 0) false t
         = Return [fox_sentence] rest)
  /\ (forall t,
        eda empty_lexicon fox_sentence (of_string "eng") (PyInt 9)
          (PyInt 0) (PyInt 0) (PyInt 0) (PyInt 0) false t = Starved).
Proof.
  assert (forall t,
            eda empty_lexicon fox_sentence (of_string "eng") (PyInt 9)
              (PyInt 0) (PyInt 0) (PyInt 0) (PyInt 0) false t = Starved) as Hnine.
  { intros t. by rewrite eda_no_operator. }
  split; [|done].
  intros H. destruct (H (PyInt 9) eq_refl) as (t & rest & Hrun).
  by rewrite Hnine in Hrun.
Qed.

(** C2, amended: on a sentence that has words, with the four strengths
    zero and a target of at least 1 for which [math.ceil(num_aug % 4)]
    is positive (an integer that is no multiple of 4 is one), [eda] does
    not return: the remainder loop of [get_num_per_technique] finds no
    operator to give to, and is still running whatever the draws. The
    engine leaves it to its caller to switch one operator on. *)
Theorem eda_all_alphas_zero lex sentence language num_aug a1 a2 a3 a4 randomize
    remainder t :
  words_of sentence <> [] ->
  truthy a1 = false -> truthy a2 = false -> truthy a3 = false ->
  truthy a4 = false ->
  num_le (PyInt 1) num_aug = true ->
  remainder_of num_aug = Val remainder -> 0 < remainder ->
  eda lex sentence language num_aug a1 a2 a3 a4 randomize t = Starved
  /\ get_num_per_technique num_aug [a1; a2; a3; a4] t = Starved.
Proof.
  intros Hwords H1 H2 H3 H4 _ Hr Hpos.
  rewrite eda_no_operator, get_num_per_technique_disabled by done.
  rewrite Hr. by replace (0 <? remainder) with true by (symmetry; by apply Z.ltb_lt).
Qed.

Lemma eda_all_alphas_zero_witness :
  eda empty_lexicon fox_sentence (of_string "eng") (PyInt 9)
    (PyInt 0) (PyInt 0) (PyInt 0) (PyInt 0) false [1; 2; 3] = Starved
  /\ get_num_per_technique (PyInt 9) [PyInt 0; PyInt 0; PyInt 0; PyInt 0] [1; 2; 3]
     = Starved.
Proof.
  apply (eda_all_alphas_zero empty_lexicon fox_sentence (of_string "eng")
           (PyInt 9) (PyInt 0) (PyInt 0) (PyInt 0) (PyInt 0) false 1 [1; 2; 3]).
  - vm_compute. discriminate.
  - reflexivity.
  - reflexivity.
  - reflexivity.
  - reflexivity.
  - reflexivity.
  - reflexivity.
  - lia.
Defined.

End Orchestrator.


(** ** The scenario of the quick brown fox *)

Section Fox.

(** *** Draws read as floats *)

Lemma pos_iter_xO p k : Zpos (Pos.iter xO p k) = Zpos p * 2 ^ Zpos k.
Proof.
  induction k as [|k IH] using Pos.peano_ind.
  - simpl. lia.
  - rewrite Pos.iter_succ, Pos2Z.inj_xO, IH, Pos2Z.inj_succ, Z.pow_succ_r by lia.
    lia.
Qed.

(** [random.random()] is below 1. *)
Lemma random_of_lt_one r : SFltb (random_of r) one = true.
Proof.
  unfold random_of.
  pose proof (Z.mod_pos_bound r (2 ^ 53) ltac:(lia)) as Hu.
  destruct (r mod 2 ^ 53) as [|p|p] eqn:Ep; [done| |lia].
  unfold binary_normalize, binary_round. change prec with 53. change emax with 1024.
  pose proof (FloatFacts.small_digits p ltac:(lia)) as Hd.
  set (d := Zpos (digits2_pos p)) in *.
  destruct (FloatFacts.normalised_mantissa p d eq_refl Hd) as (m & Em & Hm).
  rewrite FloatFacts.fexp_normal by lia.
  assert (shl_align p (- 53) (d + - 53 - 53) = (m, d - 106)) as ->.
  { unfold shl_align.
    destruct (d + - 53 - 53 - - 53) as [|k|k] eqn:Ek; try lia.
    - replace (53 - d) with 0 in Em by lia. rewrite Z.mul_1_r in Em.
      injection Em as ->. f_equal. lia.
    - f_equal; [|lia]. apply Pos2Z.inj. rewrite pos_iter_xO, <- Em.
      f_equal. f_equal. lia. }
  rewrite FloatFacts.binary_round_aux_canonical by lia.
  unfold SFltb, one. cbn [SFcompare].
  by replace (d - 106 ?= -52) with Lt by (symmetry; apply Z.compare_lt_iff; lia).
Qed.


(** *** Joining and splitting words *)

Lemma str_join_cons sep w v :
  v <> [] -> str_join sep (w :: v) = w ++ sep ++ str_join sep v.
Proof. by destruct v. Qed.

Lemma letter_valid c : 97 <= c <= 122 -> is_valid c = true.
Proof. intros H. apply is_valid_spec. by left. Qed.

Lemma letter_not_space c : 97 <= c <= 122 -> (c =? space) = false.
Proof. intros H. apply Z.eqb_neq. unfold space. lia. Qed.

Lemma letter_not_isspace c : 97 <= c <= 122 -> isspace c = false.
Proof.
  intros H. rewrite valid_isspace by (by apply letter_valid).
  by apply letter_not_space.
Qed.

Lemma str_join_valid v : Forall is_word v -> valid_str (str_join [space] v).
Proof.
  induction 1 as [|w v [_ Hw] Hv IH]; [constructor|].
  assert (valid_str w) as Hvalid.
  { eapply Forall_impl; [exact Hw|]. intros c. apply letter_valid. }
  destruct v as [|w' v]; [done|].
  rewrite str_join_cons by done.
  apply Forall_app. split; [done|]. by constructor.
Qed.

(** The joined words start with a letter. *)
Lemma str_join_head v :
  Forall is_word v -> v <> [] ->
  exists c s, str_join [space] v = c :: s /\ 97 <= c <= 122.
Proof.
  intros Hv Hne. destruct Hv as [|w v [Hw Hl] Hv]; [done|].
  destruct w as [|c w]; [done|].
  apply Forall_cons in Hl as [Hc _].
  destruct v as [|w' v]; [by exists c, w|].
  rewrite str_join_cons by done. by eexists c, _.
Qed.

Lemma single_spaced_letter c s :
  97 <= c <= 122 -> single_spaced (c :: s) = single_spaced s.
Proof.
  intros Hc. destruct s as [|d s]; [done|].
  change (single_spaced (c :: d :: s))
    with (negb ((c =? space) && (d =? space)) && single_spaced (d :: s)).
  by rewrite letter_not_space.
Qed.

Lemma single_spaced_word w s :
  Forall (fun c => 97 <= c <= 122) w ->
  single_spaced (w ++ s) = single_spaced s.
Proof.
  induction 1 as [|c w Hc Hw IH]; [done|].
  cbn [app]. by rewrite single_spaced_letter.
Qed.

Lemma str_join_single v :
  Forall is_word v -> single_spaced (str_join [space] v) = true.
Proof.
  induction 1 as [|w v [Hne Hw] Hv IH]; [done|].
  destruct v as [|w' v].
  - cbn [str_join]. rewrite <- (app_nil_r w). by rewrite single_spaced_word.
  - rewrite str_join_cons by done. rewrite single_spaced_word by done.
    destruct (str_join_head (w' :: v) Hv ltac:(done)) as (c & s & Hs & Hc).
    rewrite Hs in *. cbn [app].
    change (single_spaced (space :: c :: s))
      with (negb ((space =? space) && (c =? space)) && single_spaced (c :: s)).
    rewrite (letter_not_space c) by done. by rewrite IH.
Qed.

Lemma rstrip_last s c :
  last s = Some c -> isspace c = false -> rstrip s = s.
Proof.
  intros Hlast Hc. induction s as [|a s IH]; [done|].
  cbn [rstrip]. destruct s as [|b s].
  - injection Hlast as ->. simpl. by rewrite Hc.
  - rewrite IH by done. done.
Qed.

Lemma str_join_last v :
  Forall is_word v -> v <> [] ->
  exists c, last (str_join [space] v) = Some c /\ 97 <= c <= 122.
Proof.
  induction 1 as [|w v [Hne Hw] Hv IH]; [done|]. intros _.
  destruct v as [|w' v].
  - cbn [str_join]. destruct (last w) as [c|] eqn:E.
    + exists c. split; [done|].
      rewrite Forall_forall in Hw. apply Hw. by eapply last_Some_elem_of.
    + apply last_None in E. done.
  - rewrite str_join_cons by done.
    destruct (IH ltac:(done)) as (c & Hc & Hl).
    exists c. split; [|done].
    by rewrite !last_app, Hc.
Qed.

Lemma str_join_strip v :
  Forall is_word v -> v <> [] ->
  str_strip (str_join [space] v) = str_join [space] v.
Proof.
  intros Hv Hne. unfold str_strip.
  destruct (str_join_last v Hv Hne) as (c & Hc & Hl).
  rewrite (rstrip_last _ c) by (done || by apply letter_not_isspace).
  destruct (str_join_head v Hv Hne) as (c' & s & -> & Hc').
  cbn [lstrip]. by rewrite letter_not_isspace.
Qed.

(** Words joined by single spaces are already normal. *)
Lemma get_only_chars_join v :
  Forall is_word v -> v <> [] ->
  get_only_chars (str_join [space] v) = str_join [space] v.
Proof.
  intros Hv Hne.
  rewrite get_only_chars_valid by (by apply str_join_valid).
  rewrite collapse_spaces_id by (by apply str_join_single).
  by apply str_join_strip.
Qed.

Lemma str_split_word w :
  Forall (fun c => 97 <= c <= 122) w -> str_split space w = [w].
Proof.
  induction 1 as [|c w Hc Hw IH]; [done|].
  cbn [str_split]. by rewrite letter_not_space, IH.
Qed.

Lemma str_split_app w s :
  Forall (fun c => 97 <= c <= 122) w ->
  str_split space (w ++ space :: s) = w :: str_split space s.
Proof.
  induction 1 as [|c w Hc Hw IH]; [done|].
  cbn [app str_split]. by rewrite letter_not_space, IH.
Qed.

(** Splitting gives the words back. *)
Lemma str_split_join v :
  Forall is_word v -> v <> [] -> str_split space (str_join [space] v) = v.
Proof.
  induction 1 as [|w v [Hne Hw] Hv IH]; [done|]. intros _.
  destruct v as [|w' v].
  - by apply str_split_word.
  - rewrite str_join_cons by done. cbn [app].
    rewrite str_split_app by done. by rewrite IH.
Qed.


(** *** The run of the scenario *)

Lemma remainder_loop_more_tape flags counts remainder t counts' rest t' :
  remainder_loop flags counts remainder t = Return counts' rest ->
  remainder_loop flags counts remainder (t ++ t') = Return counts' (rest ++ t').
Proof.
  revert counts remainder.
  induction t as [|r t IH]; intros counts remainder; cbn [remainder_loop app].
  - destruct (0 <? remainder) eqn:E; [done|]. intros [= <- <-].
    destruct t'; cbn [remainder_loop app]; by rewrite E.
  - destruct (0 <? remainder); [|by intros [= <- <-]].
    destruct (getitem flags _) as [flag|]; [|done].
    destruct (truthy flag); apply IH.
Qed.

Lemma len_app {A} (l l' : list A) : len (l ++ l') = len l + len l'.
Proof. unfold len. rewrite length_app. lia. Qed.

(** With the swap alone switched on and a target of 2, both sentences go
    to the swap. *)
Lemma fox_allocation a1 a2 a4 t1 t2 :
  truthy a1 = false -> truthy a2 = false -> truthy a4 = false ->
  2 <= hits [a1; a2; strength 3 1; a4] t1 ->
  exists rest,
    get_num_per_technique (PyInt 2) [a1; a2; strength 3 1; a4] (t1 ++ t2)
    = Return [0; 0; 2; 0] rest
    /\ len t2 <= len rest.
Proof.
  intros H1 H2 H4 Hhits. rewrite get_num_per_technique_unfold. cbn [effective].
  assert (base_counts (PyInt 2) [a1; a2; strength 3 1; a4] [0; 1; 2; 3]
          = Val [0; 0; 0; 0]) as ->.
  { rewrite (base_counts_defined _ _ _ 0); [|done|].
    - cbn [map]. by repeat destruct (enabled _ _).
    - intros pos Hpos. simpl.
      repeat (apply elem_of_cons in Hpos as [->|Hpos]; [lia|]).
      by apply elem_of_nil in Hpos. }
  rewrite remainder_of_int. change (2 mod 4) with 2.
  destruct (remainder_loop_returns [a1; a2; strength 3 1; a4] [0; 0; 0; 0] 2 t1)
    as (counts & rest & Hrun); [simpl; lia|done|].
  rewrite (remainder_loop_more_tape _ _ _ _ _ _ t2 Hrun).
  exists (rest ++ t2). split; [|rewrite len_app; pose proof (len_nonneg rest); lia].
  f_equal.
  apply remainder_loop_spec in Hrun as (Hl & Ht & Hc); [|done].
  destruct counts as [|c0 [|c1 [|c2 [|c3 [|]]]]]; try done.
  destruct (Hc 0%nat 0 eq_refl) as (? & [= <-] & _ & H0).
  destruct (Hc 1%nat 0 eq_refl) as (? & [= <-] & _ & H1').
  destruct (Hc 3%nat 0 eq_refl) as (? & [= <-] & _ & H3).
  rewrite H0, H1', H3 in *;
    try (unfold enabled, getitem; simpl; done).
  unfold total in Ht. simpl in Ht. repeat f_equal. lia.
Qed.

Lemma generate_returns (P : list str -> Prop) (k : Z) (operator : M (list str))
    (count : nat) acc t :
  0 <= k ->
  (forall t', k <= len t' ->
     exists v rest', operator t' = Return v rest' /\ P v /\ len t' <= len rest' + k) ->
  k * Z.of_nat count <= len t ->
  exists vs rest,
    repeat_m count
      (fun augmented_sentences =>
         a_words <- operator ;;
         ret (augmented_sentences ++ [str_join [space] a_words])) acc t
    = Return (acc ++ map (str_join [space]) vs) rest
    /\ Forall P vs /\ length vs = count
    /\ len t <= len rest + k * Z.of_nat count.
Proof.
  intros Hk Hop. revert acc t.
  induction count as [|count IH]; intros acc t Hlen; cbn [repeat_m].
  - exists [], t. rewrite app_nil_r. repeat split; [constructor|lia].
  - unfold bind at 1 2.
    destruct (Hop t ltac:(lia)) as (v & t' & -> & Hv & Ht').
    unfold ret at 1.
    destruct (IH (acc ++ [str_join [space] v]) t' ltac:(lia))
      as (vs & rest & -> & Hvs & Hcount & Hrest).
    exists (v :: vs), rest. rewrite <- app_assoc. cbn [map app].
    repeat split; [by constructor|simpl; lia|lia].
Qed.

Lemma one_swap_returns words t :
  words <> [] -> 5 <= len t ->
  exists v rest,
    random_swap words 1 t = Return v rest /\ v ≡ₚ words /\ len t <= len rest + 5.
Proof.
  intros Hne Hlen.
  destruct (repeat_swap_returns 1 words t Hne ltac:(lia)) as (v & rest & Hrun & Hrest).
  exists v, rest. split; [done|]. split; [|lia].
  by eapply repeat_swap_Permutation.
Qed.

Lemma shuffle_from_returns {A} (i : nat) (x : list A) t :
  (i < length x)%nat \/ i = 0%nat -> (i <= length t)%nat ->
  exists x', shuffle_from i x t = Return x' (drop i t) /\ x' ≡ₚ x.
Proof.
  revert x t. induction i as [|i IH]; intros x t Hi Hlen; cbn [shuffle_from].
  - by exists x.
  - destruct Hi as [Hi|]; [|done].
    destruct t as [|r t]; [simpl in Hlen; lia|].
    unfold bind at 1. unfold randint.
    replace (Z.of_nat (S i) <? 0) with false by (symmetry; apply Z.ltb_ge; lia).
    pose proof (randint_of_range 0 (Z.of_nat (S i)) r ltac:(lia)) as Hr.
    destruct (swap_items_defined x (Z.of_nat (S i)) (randint_of 0 (Z.of_nat (S i)) r))
      as [x0 Hx0]; [unfold len; lia|unfold len; lia|].
    unfold bind at 1. rewrite Hx0. cbn [lift]. unfold ret at 1.
    pose proof (swap_items_Permutation _ _ _ _ Hx0) as Hperm.
    destruct (IH x0 t) as (x' & -> & Hx').
    + left. rewrite (Permutation_length Hperm). lia.
    + simpl in Hlen. lia.
    + exists x'. split; [done|]. by rewrite Hx'.
Qed.

Lemma filter_m_keep_all {A} keep_prob (l : list A) t :
  (forall r, SFltb (random_of r) keep_prob = true) ->
  (length l <= length t)%nat ->
  filter_m (fun _ => u <- uniform01 ;; ret (SFltb u keep_prob)) l t
  = Return l (drop (length l) t).
Proof.
  intros Hkeep. revert t. induction l as [|x l IH]; intros t Hlen; [by destruct t|].
  destruct t as [|r t]; [simpl in Hlen; lia|].
  cbn [filter_m length drop]. unfold bind at 1 2. cbn [uniform01].
  unfold ret at 1. unfold bind at 1.
  rewrite IH by (simpl in Hlen; lia).
  unfold ret. by rewrite Hkeep.
Qed.

(** A target of 2 keeps two generated sentences, both of them. *)
Lemma eda_trim_two (a b : str) t :
  (2 <= length t)%nat ->
  eda_trim (PyInt 2) [a; b] t = Return [a; b] (drop 2 t).
Proof.
  intros Hlen.
  change (eda_trim (PyInt 2) [a; b] t)
    with (filter_m (fun _ => u <- uniform01 ;; ret (SFltb u one)) [a; b] t).
  by rewrite (filter_m_keep_all one [a; b] t random_of_lt_one).
Qed.


Lemma fox_words_are_words : Forall is_word fox_words.
Proof.
  repeat constructor; try done; vm_compute; by intros [=].
Qed.

Lemma eda_generate_swap_only lex words language num_aug a1 a2 alpha_rs a4 t :
  truthy a1 = false -> truthy a2 = false -> truthy a4 = false ->
  num_lt (PyInt 0) alpha_rs = true ->
  eda_generate lex words language num_aug a1 a2 alpha_rs a4 t =
    (num_new_per_technique <-
       get_num_per_technique num_aug [a1; a2; alpha_rs; a4] ;;
     num_rs <- lift (words_to_change alpha_rs (len words)) ;;
     count <- lift (getitem num_new_per_technique 2) ;;
     augmented_sentences <- generate count (random_swap words num_rs) [] ;;
     ret (map get_only_chars augmented_sentences)) t.
Proof.
  intros H1 H2 H4 Hrs. unfold eda_generate.
  rewrite (falsy_not_positive a1), (falsy_not_positive a2),
    (falsy_not_positive a4), Hrs by done.
  unfold bind, ret.
  destruct (get_num_per_technique _ _ t) as [counts t'| |]; [|done|done].
  destruct (words_to_change alpha_rs (len words)) as [num_rs|]; [|done].
  cbn [lift]. unfold ret.
  destruct (getitem counts 2) as [count|]; [|done].
  cbn [lift]. unfold ret.
  by destruct (generate count (random_swap words num_rs) [] t').
Qed.

Lemma fox_generate lex language a1 a2 a4 t1 t2 :
  truthy a1 = false -> truthy a2 = false -> truthy a4 = false ->
  2 <= hits [a1; a2; strength 3 1; a4] t1 ->
  10 <= len t2 ->
  exists v1 v2 rest,
    eda_generate lex fox_words language (PyInt 2) a1 a2 (strength 3 1) a4 (t1 ++ t2)
    = Return [str_join [space] v1; str_join [space] v2] rest
    /\ v1 ≡ₚ fox_words /\ v2 ≡ₚ fox_words
    /\ len t2 <= len rest + 10.
Proof.
  intros H1 H2 H4 Hhits Hlen.
  rewrite eda_generate_swap_only by done.
  unfold bind at 1.
  destruct (fox_allocation a1 a2 a4 t1 t2 H1 H2 H4 Hhits) as (rest0 & -> & Hrest0).
  change (words_to_change (strength 3 1) (len fox_words)) with (Val 1).
  change (getitem [0; 0; 2; 0] 2) with (Val (A := Z) 2).
  change ((num_rs <- lift (Val 1) ;;
           count <- lift (Val 2) ;;
           augmented_sentences <- generate count (random_swap fox_words num_rs) [] ;;
           ret (map get_only_chars augmented_sentences)) rest0)
    with ((augmented_sentences <- generate 2 (random_swap fox_words 1) [] ;;
           ret (map get_only_chars augmented_sentences)) rest0).
  unfold bind at 1. unfold generate. change (Z.to_nat 2) with 2%nat.
  destruct (generate_returns (fun v => v ≡ₚ fox_words) 5
              (random_swap fox_words 1) 2 [] rest0)
    as (vs & rest & -> & Hvs & Hcount & Hrest); [lia| |lia|].
  { intros t' Ht'. by apply one_swap_returns. }
  destruct vs as [|v1 [|v2 [|]]]; try done.
  apply Forall_cons in Hvs as [Hv1 Hvs]. apply Forall_cons in Hvs as [Hv2 _].
  exists v1, v2, rest.
  unfold ret. cbn [app map].
  assert (forall v, v ≡ₚ fox_words ->
            get_only_chars (str_join [space] v) = str_join [space] v) as Hclean.
  { intros v Hv. apply get_only_chars_join.
    - eapply Permutation_Forall; [symmetry; exact Hv|apply fox_words_are_words].
    - intros ->. by apply Permutation_nil_l in Hv. }
  rewrite !Hclean by done. repeat split; try done. lia.
Qed.

Lemma fox_variant_words v :
  v ≡ₚ fox_words -> str_split space (str_join [space] v) ≡ₚ fox_words.
Proof.
  intros Hv. rewrite str_split_join; [done| |].
  - eapply Permutation_Forall; [symmetry; exact Hv|apply fox_words_are_words].
  - intros ->. by apply Permutation_nil_l in Hv.
Qed.

(** C6, amended: for the sentence [The quick brown fox jumps] with only
    the swap switched on ([alpha_rs = 0.3]) and a target of 2, as soon
    as the draws have picked the swap twice and 13 more draws are at
    hand, [eda] returns three strings: the sentence as given, then two
    variants, each of them the five words [the quick brown fox jumps],
    in lower case, in some order. *)
Theorem eda_quick_brown_fox lex language a1 a2 a4 randomize t1 t2 :
  truthy a1 = false -> truthy a2 = false -> truthy a4 = false ->
  2 <= hits [a1; a2; strength 3 1; a4] t1 ->
  13 <= len t2 ->
  exists v1 v2 rest,
    eda lex fox_sentence language (PyInt 2) a1 a2 (strength 3 1) a4 randomize
      (t1 ++ t2)
    = Return [fox_sentence; v1; v2] rest
    /\ str_split space v1 ≡ₚ fox_words
    /\ str_split space v2 ≡ₚ fox_words.
Proof.
  intros H1 H2 H4 Hhits Hlen. rewrite eda_unfold.
  change (words_of fox_sentence) with fox_words.
  change (len fox_words =? 0) with false. cbv iota.
  unfold bind at 1.
  destruct (fox_generate lex language a1 a2 a4 t1 t2 H1 H2 H4 Hhits ltac:(lia))
    as (v1 & v2 & rest & -> & Hv1 & Hv2 & Hrest).
  unfold bind at 1.
  pose proof (fox_variant_words v1 Hv1) as Hw1.
  pose proof (fox_variant_words v2 Hv2) as Hw2.
  destruct randomize.
  - destruct (shuffle_from_returns 1
                [str_join [space] v1; str_join [space] v2] rest)
      as (shuffled & Hsh & Hperm); [left; simpl; lia|unfold len in *; lia|].
    unfold shuffle. change (length [_; _] - 1)%nat with 1%nat. rewrite Hsh.
    assert (length shuffled = 2%nat) as Hl2 by (by rewrite Hperm).
    destruct shuffled as [|x [|y [|]]]; try done.
    unfold bind at 1. rewrite eda_trim_two.
    2:{ rewrite length_drop. unfold len in *. lia. }
    unfold ret. exists x, y, (drop 2 (drop 1 rest)). split; [done|].
    assert (forall s, s ∈ [x; y] -> str_split space s ≡ₚ fox_words) as Hin.
    { intros s Hs. rewrite Hperm in Hs.
      apply elem_of_cons in Hs as [->|Hs]; [done|].
      apply list_elem_of_singleton in Hs as ->. done. }
    split; apply Hin; [left|right; left].
  - unfold ret at 1. unfold bind at 1. rewrite eda_trim_two.
    2:{ unfold len in *. lia. }
    unfold ret. by exists (str_join [space] v1), (str_join [space] v2), (drop 2 rest).
Qed.

Lemma eda_quick_brown_fox_witness :
  exists v1 v2 rest,
    eda empty_lexicon fox_sentence (of_string "eng") (PyInt 2)
      (PyInt 0) (PyInt 0) (strength 3 1) (PyInt 0) true
      ([2; 6] ++ [0; 1; 4; 0; 1; 0; 0; 0; 0; 0; 0; 0; 0])
    = Return [fox_sentence; v1; v2] rest
    /\ str_split space v1 ≡ₚ fox_words
    /\ str_split space v2 ≡ₚ fox_words.
Proof.
  apply (eda_quick_brown_fox empty_lexicon (of_string "eng")
           (PyInt 0) (PyInt 0) (PyInt 0) true
           [2; 6] [0; 1; 4; 0; 1; 0; 0; 0; 0; 0; 0; 0; 0]).
  - reflexivity.
  - reflexivity.
  - reflexivity.
  - vm_compute. discriminate.
  - vm_compute. discriminate.
Defined.

(** C6, as stated, fails by the case of one letter: the sentence at the
    front keeps its [The], the variants are made of the normalized words
    and have [the], so the three strings are not made of the same words. *)
Lemma eda_quick_brown_fox_case :
  ~ (forall t l rest,
       eda empty_lexicon fox_sentence (of_string "eng") (PyInt 2)
         (PyInt 0) (PyInt 0) (strength 3 1) (PyInt 0) false t = Return l rest ->
       length l = 3%nat
       /\ exists five_words,
            length five_words = 5%nat
            /\ forall s, s ∈ l -> str_split space s ≡ₚ five_words).
Proof.
  intros H.
  destruct (H [2; 6; 0; 1; 4; 0; 0; 0]
              [fox_sentence;
               of_string "quick the brown fox jumps";
               of_string "jumps quick brown fox the"] [] eq_refl)
    as (_ & five_words & _ & Hall).
  pose proof (Hall fox_sentence ltac:(left)) as Horiginal.
  pose proof (Hall (of_string "quick the brown fox jumps") ltac:(right; left))
    as Hvariant.
  rewrite <- Hvariant in Horiginal.
  assert (of_string "The" ∈ str_split space fox_sentence) as Hin by (by left).
  rewrite Horiginal in Hin.
  assert (bool_decide
            (of_string "The"
             ∈ str_split space (of_string "quick the brown fox jumps")) = false)
    as Hno by (by vm_compute).
  by apply bool_decide_eq_false in Hno.
Qed.

End Fox.

(** ** The normal form and the words of a sentence *)

Section NormalForm.

Implicit Types (c : char) (s : str).

Lemma lstrip_head s c : head (lstrip s) = Some c -> isspace c = false.
Proof.
  induction s as [|d s IH]; [done|].
  cbn [lstrip]. destruct (isspace d) eqn:E; [done|].
  by intros [= <-].
Qed.

Lemma rstrip_last_char s c : last (rstrip s) = Some c -> isspace c = false.
Proof.
  induction s as [|d s IH]; [done|].
  cbn [rstrip]. destruct (rstrip s) as [|e r] eqn:E.
  - destruct (isspace d) eqn:Ed; [done|]. by intros [= <-].
  - rewrite last_cons. destruct (last (e :: r)) as [x|] eqn:El.
    + intros [= <-]. by apply IH.
    + by apply last_None in El.
Qed.

Lemma get_only_chars_ends line :
  head (get_only_chars line) <> Some space
  /\ last (get_only_chars line) <> Some space.
Proof.
  unfold get_only_chars. fold keep_valid.
  set (y := collapse_spaces _). split.
  - intros H. unfold str_strip in H. by apply lstrip_head in H.
  - intros H. unfold str_strip in H. rewrite strip_commute in H.
    by apply rstrip_last_char in H.
Qed.

(** X1: whatever the line, the normalizer returns a string in normal
    form: chars of [a-z] and spaces only, never two spaces in a row,
    and no space at either end. *)
Theorem get_only_chars_normal line : normal (get_only_chars line).
Proof.
  destruct (get_only_chars_shape line) as [Hv Hs].
  destruct (get_only_chars_ends line) as [Hh Hl]. done.
Qed.

(** *** Splitting and joining *)

Lemma str_split_nonempty s : str_split space s <> [].
Proof.
  destruct s as [|c s]; [done|]. cbn [str_split].
  destruct (c =? space); [done|]. by destruct (str_split space s).
Qed.

(** [" ".join(s.split(" ")) == s] *)
Lemma str_join_split s : str_join [space] (str_split space s) = s.
Proof.
  induction s as [|c s IH]; [done|].
  cbn [str_split]. pose proof (str_split_nonempty s) as Hne.
  destruct (c =? space) eqn:E.
  - apply Z.eqb_eq in E. subst c.
    rewrite str_join_cons by done. by rewrite IH.
  - destruct (str_split space s) as [|w ws]; [done|].
    destruct ws as [|w' ws].
    + cbn [str_join] in *. by rewrite IH.
    + rewrite <- IH. by rewrite !str_join_cons by done.
Qed.

Lemma valid_letter_or_space c :
  is_valid c = true -> c <> space -> 97 <= c <= 122.
Proof. intros H Hne. apply is_valid_spec in H. unfold space in *. lia. Qed.

(** The pieces of a normal string. *)
Lemma str_split_normal s :
  valid_str s -> single_spaced s = true -> last s <> Some space -> s <> [] ->
  exists w ws,
    str_split space s = w :: ws
    /\ Forall is_word ws
    /\ (head s <> Some space -> is_word w)
    /\ (head s = Some space -> w = []).
Proof.
  induction s as [|c s IH]; [done|]. intros Hv Hs Hl _.
  apply Forall_cons in Hv as [Hc Hv].
  destruct s as [|d s].
  - assert (c <> space) as Hne by (intros ->; by apply Hl).
    cbn [str_split]. replace (c =? space) with false
      by (symmetry; by apply Z.eqb_neq).
    exists [c], []. split_and!; [done|done| |].
    + intros _. split; [done|].
      constructor; [by apply valid_letter_or_space|done].
    + cbn [head]. by intros [= ->].
  - destruct IH as (w' & ws' & Hsplit & Hws & Hword & Hempty).
    { done. } { by eapply single_spaced_tail. }
    { by rewrite last_cons_cons in Hl. } { done. }
    change (single_spaced (c :: d :: s))
      with (negb ((c =? space) && (d =? space)) && single_spaced (d :: s)) in Hs.
    apply andb_prop in Hs as [Hcd _]. apply negb_true_iff in Hcd.
    cbn [str_split] in *. destruct (c =? space) eqn:Ec.
    + apply Z.eqb_eq in Ec. subst c. simpl in Hcd.
      exists [], (w' :: ws'). rewrite Hsplit. split_and!; [done| |done|done].
      constructor; [|done]. apply Hword. cbn [head].
      intros [= ->]. by rewrite Z.eqb_refl in Hcd.
    + apply Z.eqb_neq in Ec. rewrite Hsplit.
      exists (c :: w'), ws'. split_and!; [done|done| |].
      * intros _. cbn [head] in *. split; [done|].
        constructor; [by apply valid_letter_or_space|].
        destruct (Z.eq_dec d space) as [->|Hd].
        -- by rewrite (Hempty eq_refl).
        -- destruct Hword as [_ Hw]; [by intros [= ->]|done].
      * cbn [head]. by intros [= ->].
Qed.

Lemma filter_words ws :
  Forall is_word ws ->
  List.filter (fun word => negb (bool_decide (word = []))) ws = ws.
Proof.
  induction 1 as [|w ws [Hne _] Hws IH]; [done|].
  cbn [List.filter]. rewrite bool_decide_eq_false_2 by done. simpl. by rewrite IH.
Qed.

(** What [words] is in [eda], from the normalized sentence. *)
Lemma words_of_split sentence :
  (get_only_chars sentence = [] /\ words_of sentence = [])
  \/ (get_only_chars sentence <> []
      /\ words_of sentence = str_split space (get_only_chars sentence)
      /\ Forall is_word (words_of sentence)).
Proof.
  unfold words_of.
  destruct (get_only_chars_shape sentence) as [Hv Hs].
  destruct (get_only_chars_ends sentence) as [Hh Hl].
  destruct (get_only_chars sentence) as [|c s] eqn:E; [by left|]. right.
  split; [done|].
  destruct (str_split_normal (c :: s) Hv Hs Hl ltac:(done))
    as (w & ws & Hsplit & Hws & Hword & _).
  assert (Forall is_word (str_split space (c :: s))) as Hall.
  { rewrite Hsplit. constructor; [by apply Hword|done]. }
  by rewrite filter_words.
Qed.

(** X2: the tokens [eda] works on are words: one letter of [a-z] or more. *)
Theorem words_of_are_words sentence : Forall is_word (words_of sentence).
Proof.
  destruct (words_of_split sentence) as [[_ ->]|(_ & _ & H)]; [constructor|done].
Qed.

(** X3: joining the tokens with single spaces gives the normalized sentence
    back. *)
Theorem words_of_join sentence :
  str_join [space] (words_of sentence) = get_only_chars sentence.
Proof.
  destruct (words_of_split sentence) as [[-> ->]|(_ & -> & _)]; [done|].
  apply str_join_split.
Qed.

(** X4: a sentence made of words joined by single spaces is tokenized into
    these words. *)
Theorem words_of_joined v :
  Forall is_word v -> words_of (str_join [space] v) = v.
Proof.
  intros Hv. destruct v as [|w v]; [done|].
  unfold words_of. rewrite get_only_chars_join by done.
  rewrite str_split_join by done. by apply filter_words.
Qed.

Lemma words_of_joined_witness :
  Forall is_word fox_words
  /\ words_of (str_join [space] fox_words) = fox_words.
Proof.
  split; [exact fox_words_are_words|].
  apply (words_of_joined fox_words). exact fox_words_are_words.
Defined.

End NormalForm.

(** ** What the normalizer does to a char *)

Section Pipeline.

Implicit Types (c : char) (s u v : str).

(** The normalizer up to the cleaning of the chars. *)
Lemma get_only_chars_stages line :
  get_only_chars line
  = str_strip
      (collapse_spaces
         (map keep_valid
            (str_lower
               (str_replace [10] [space]
                  (str_replace [9] [space]
                     (str_replace [45] [space]
                        (str_replace [39] []
                           (str_replace broken_apostrophe [] line)))))))).
Proof. reflexivity. Qed.

Lemma letters_valid w : Forall (fun c => 97 <= c <= 122) w -> valid_str w.
Proof.
  intros Hw. eapply Forall_impl; [exact Hw|]. intros c. apply letter_valid.
Qed.

Lemma letters_without w o :
  Forall (fun c => 97 <= c <= 122) w -> ~ (97 <= o <= 122) -> o ∉ w.
Proof.
  intros Hw Ho Hin. rewrite Forall_forall in Hw. apply Hw in Hin. lia.
Qed.

Lemma str_replace_prefix o old new u s :
  o ∉ u ->
  str_replace_from (o :: old) new 0 (u ++ s)
  = u ++ str_replace_from (o :: old) new 0 s.
Proof.
  induction u as [|c u IH]; intros Hno; [done|].
  apply not_elem_of_cons in Hno as [Hne Hno].
  cbn [app str_replace_from starts_with].
  replace (o =? c) with false by (symmetry; apply Z.eqb_neq; done).
  simpl. by rewrite IH.
Qed.

Lemma str_replace_from_no_start old new c s :
  starts_with old (c :: s) = false ->
  str_replace_from old new 0 (c :: s) = c :: str_replace_from old new 0 s.
Proof. intros H. cbn [str_replace_from]. by rewrite H. Qed.

(** A pattern of one char between two strings that do not have it. *)
Lemma str_replace_one o new u v :
  o ∉ u -> o ∉ v -> str_replace [o] new (u ++ o :: v) = u ++ new ++ v.
Proof.
  intros Hu Hv. unfold str_replace. rewrite str_replace_prefix by done.
  cbn [str_replace_from starts_with length]. rewrite Z.eqb_refl. simpl.
  by rewrite str_replace_from_absent.
Qed.

Lemma str_replace_none o old new u c v :
  o ∉ u -> o ∉ v -> c <> o ->
  str_replace (o :: old) new (u ++ c :: v) = u ++ c :: v.
Proof.
  intros Hu Hv Hc. apply str_replace_from_absent.
  rewrite not_elem_of_app, not_elem_of_cons. done.
Qed.

Lemma str_lower_app s s' : str_lower (s ++ s') = str_lower s ++ str_lower s'.
Proof. apply flat_map_app. Qed.

Lemma separates_cleaned c :
  ~ (65 <= c <= 90) -> ~ (97 <= c <= 122) -> c <> 304 -> c <> 8490 ->
  map keep_valid (str_lower [c]) = [space].
Proof.
  intros Hup Hlow Hi Hk. unfold str_lower, lower_char. cbn [flat_map].
  replace ((65 <=? c) && (c <=? 90)) with false
    by (symmetry; apply andb_false_iff; lia).
  replace (c =? 304) with false by (symmetry; by apply Z.eqb_neq).
  replace (c =? 8490) with false by (symmetry; by apply Z.eqb_neq).
  cbn [app map]. unfold keep_valid.
  destruct (is_valid c) eqn:E; [|done].
  apply is_valid_spec in E as [E| ->]; [lia|done].
Qed.

Lemma cleaned_between u c v :
  Forall (fun c => 97 <= c <= 122) u -> Forall (fun c => 97 <= c <= 122) v ->
  ~ (65 <= c <= 90) -> ~ (97 <= c <= 122) -> c <> 304 -> c <> 8490 ->
  map keep_valid (str_lower (u ++ c :: v)) = u ++ space :: v.
Proof.
  intros Hu Hv Hup Hlow Hi Hk.
  change (u ++ c :: v) with (u ++ [c] ++ v).
  rewrite !str_lower_app, !map_app, separates_cleaned by done.
  by rewrite !str_lower_valid, !keep_valid_id by (by apply letters_valid).
Qed.

Lemma two_words u v :
  is_word u -> is_word v -> get_only_chars (u ++ space :: v) = u ++ space :: v.
Proof.
  intros Hu Hv.
  apply (get_only_chars_join [u; v]); [|done].
  constructor; [done|]. by constructor.
Qed.

Lemma normalized_between u v s :
  is_word u -> is_word v ->
  map keep_valid (str_lower s) = u ++ space :: v ->
  str_strip (collapse_spaces (map keep_valid (str_lower s))) = u ++ space :: v.
Proof.
  intros Hu Hv ->. rewrite <- (two_words u v Hu Hv) at 2.
  rewrite get_only_chars_valid; [done|].
  apply (str_join_valid [u; v]). constructor; [done|]. by constructor.
Qed.

(** X5: a char that is neither a letter nor an apostrophe, between two
    words, separates them: the normalizer makes it one space. *)
Theorem get_only_chars_separator u c v :
  is_word u -> is_word v -> separates c ->
  get_only_chars (u ++ c :: v) = u ++ space :: v.
Proof.
  intros Hu Hv (Hup & Hlow & Hi & Hk & Hq).
  pose proof Hu as [_ Hlu]. pose proof Hv as [Hnv Hlv].
  rewrite get_only_chars_stages. apply normalized_between; [done|done|].
  assert (forall o, ~ (97 <= o <= 122) -> o ∉ u) as Hnu
    by (intros o; by apply letters_without).
  assert (forall o, ~ (97 <= o <= 122) -> o ∉ v) as Hnv'
    by (intros o; by apply letters_without).
  assert (str_replace broken_apostrophe [] (u ++ c :: v) = u ++ c :: v) as ->.
  { unfold str_replace, broken_apostrophe.
    rewrite str_replace_prefix by (apply Hnu; lia).
    rewrite str_replace_from_no_start.
    - rewrite str_replace_from_absent; [done|]. apply Hnv'. lia.
    - destruct v as [|l v]; [by destruct Hnv|].
      apply Forall_cons in Hlv as [Hl Hlv]. cbn [starts_with].
      replace (8364 =? l) with false by (symmetry; apply Z.eqb_neq; lia).
      by rewrite andb_false_r. }
  rewrite (str_replace_none 39) by (done || apply Hnu || apply Hnv'; lia).
  destruct (decide (c = 45)) as [->|H45].
  { rewrite (str_replace_one 45) by (apply Hnu || apply Hnv'; lia).
    cbn [app].
    rewrite (str_replace_none 9), (str_replace_none 10)
      by (done || apply Hnu || apply Hnv'; lia).
    apply cleaned_between; (done || unfold space; lia). }
  rewrite (str_replace_none 45) by (done || apply Hnu || apply Hnv'; lia).
  destruct (decide (c = 9)) as [->|H9].
  { rewrite (str_replace_one 9) by (apply Hnu || apply Hnv'; lia).
    cbn [app].
    rewrite (str_replace_none 10) by (done || apply Hnu || apply Hnv'; lia).
    apply cleaned_between; (done || unfold space; lia). }
  rewrite (str_replace_none 9) by (done || apply Hnu || apply Hnv'; lia).
  destruct (decide (c = 10)) as [->|H10].
  { rewrite (str_replace_one 10) by (apply Hnu || apply Hnv'; lia).
    cbn [app]. apply cleaned_between; (done || unfold space; lia). }
  rewrite (str_replace_none 10) by (done || apply Hnu || apply Hnv'; lia).
  by apply cleaned_between.
Qed.

Lemma get_only_chars_separator_witness :
  get_only_chars (of_string "well" ++ 45 :: of_string "known")
  = of_string "well" ++ space :: of_string "known".
Proof.
  apply (get_only_chars_separator (of_string "well") 45 (of_string "known")).
  - repeat constructor; try done; vm_compute; by intros [=].
  - repeat constructor; try done; vm_compute; by intros [=].
  - unfold separates. lia.
Defined.

Lemma one_word w : is_word w -> get_only_chars w = w.
Proof.
  intros Hw. apply (get_only_chars_join [w]); [by constructor|done].
Qed.

Lemma normalized_word w s :
  is_word w ->
  map keep_valid (str_lower s) = w ->
  str_strip (collapse_spaces (map keep_valid (str_lower s))) = w.
Proof.
  intros Hw ->. rewrite <- (one_word w Hw) at 2.
  rewrite get_only_chars_valid; [done|]. destruct Hw as [_ Hw].
  by apply letters_valid.
Qed.

Lemma is_word_app u v : is_word u -> is_word v -> is_word (u ++ v).
Proof.
  intros [Hu Hlu] [Hv Hlv]. split; [by destruct u|]. by apply Forall_app.
Qed.

Lemma cleaned_word w :
  Forall (fun c => 97 <= c <= 122) w -> map keep_valid (str_lower w) = w.
Proof.
  intros Hw. by rewrite str_lower_valid, keep_valid_id by (by apply letters_valid).
Qed.

(** X6: an apostrophe between two words vanishes, and so do the three chars
    of the mis-decoded one: the two words become one. *)
Theorem get_only_chars_apostrophe u v :
  is_word u -> is_word v ->
  get_only_chars (u ++ 39 :: v) = u ++ v
  /\ get_only_chars (u ++ broken_apostrophe ++ v) = u ++ v.
Proof.
  intros Hu Hv. pose proof Hu as [_ Hlu]. pose proof Hv as [_ Hlv].
  pose proof (is_word_app u v Hu Hv) as Huv. pose proof Huv as [_ Hluv].
  assert (forall o, ~ (97 <= o <= 122) -> o ∉ u) as Hnu
    by (intros o; by apply letters_without).
  assert (forall o, ~ (97 <= o <= 122) -> o ∉ v) as Hnv
    by (intros o; by apply letters_without).
  assert (forall o old new, ~ (97 <= o <= 122) ->
            str_replace (o :: old) new (u ++ v) = u ++ v) as Hclean.
  { intros o old new Ho. apply str_replace_from_absent.
    by apply letters_without. }
  split; rewrite get_only_chars_stages; apply normalized_word; try done.
  - unfold broken_apostrophe.
    rewrite (str_replace_none 226) by (apply Hnu || apply Hnv || idtac; lia).
    rewrite (str_replace_one 39) by (apply Hnu || apply Hnv; lia).
    cbn [app]. rewrite !Hclean by lia. by apply cleaned_word.
  - assert (str_replace broken_apostrophe [] (u ++ broken_apostrophe ++ v)
            = u ++ v) as ->.
    { unfold str_replace, broken_apostrophe.
      rewrite str_replace_prefix by (apply Hnu; lia).
      cbn [app str_replace_from starts_with length Nat.sub].
      rewrite !Z.eqb_refl. cbn [andb app].
      rewrite str_replace_from_absent; [done|]. apply Hnv. lia. }
    rewrite !Hclean by lia. by apply cleaned_word.
Qed.

Lemma get_only_chars_apostrophe_witness :
  get_only_chars (of_string "don" ++ 39 :: of_string "t")
  = of_string "don" ++ of_string "t"
  /\ get_only_chars (of_string "don" ++ broken_apostrophe ++ of_string "t")
     = of_string "don" ++ of_string "t".
Proof.
  apply (get_only_chars_apostrophe (of_string "don") (of_string "t")).
  - repeat constructor; try done; vm_compute; by intros [=].
  - repeat constructor; try done; vm_compute; by intros [=].
Defined.

Lemma str_lower_ascii s :
  Forall (fun c => 65 <= c <= 90 \/ 97 <= c <= 122) s ->
  str_lower s = map ascii_lower s.
Proof.
  induction 1 as [|c s Hc Hs IH]; [done|].
  unfold str_lower in *. cbn [flat_map map]. rewrite IH.
  unfold lower_char, ascii_lower.
  destruct (decide (c <= 90)).
  - replace ((65 <=? c) && (c <=? 90)) with true
      by (symmetry; apply andb_true_iff; lia).
    by replace (c <=? 90) with true by (symmetry; apply Z.leb_le; lia).
  - replace ((65 <=? c) && (c <=? 90)) with false
      by (symmetry; apply andb_false_iff; lia).
    replace (c <=? 90) with false by (symmetry; apply Z.leb_gt; lia).
    replace (c =? 304) with false by (symmetry; apply Z.eqb_neq; lia).
    by replace (c =? 8490) with false by (symmetry; apply Z.eqb_neq; lia).
Qed.

(** X7: a string of ASCII letters is normalized to the same letters in
    lower case. *)
Theorem get_only_chars_lowers s :
  Forall (fun c => 65 <= c <= 90 \/ 97 <= c <= 122) s ->
  get_only_chars s = map ascii_lower s.
Proof.
  intros Hs. destruct (decide (s = [])) as [->|Hne]; [done|].
  assert (forall o, ~ (65 <= o <= 90 \/ 97 <= o <= 122) -> o ∉ s) as Hno.
  { intros o Ho Hin. rewrite Forall_forall in Hs. by apply Hs in Hin. }
  assert (Forall (fun c => 97 <= c <= 122) (map ascii_lower s)) as Hlow.
  { rewrite Forall_fmap. eapply Forall_impl; [exact Hs|].
    intros c Hc. unfold compose, ascii_lower. cbv beta in *.
    destruct (Z.leb_spec c 90); lia. }
  rewrite get_only_chars_stages. apply normalized_word.
  - split; [by destruct s|done].
  - unfold broken_apostrophe, str_replace.
    rewrite (str_replace_from_absent 226 _ _ s) by (apply Hno; lia).
    rewrite (str_replace_from_absent 39 _ _ s) by (apply Hno; lia).
    rewrite (str_replace_from_absent 45 _ _ s) by (apply Hno; lia).
    rewrite (str_replace_from_absent 9 _ _ s) by (apply Hno; lia).
    rewrite (str_replace_from_absent 10 _ _ s) by (apply Hno; lia).
    rewrite str_lower_ascii by done. by apply keep_valid_id, letters_valid.
Qed.

Lemma get_only_chars_lowers_witness :
  get_only_chars (of_string "NASA") = map ascii_lower (of_string "NASA").
Proof.
  apply (get_only_chars_lowers (of_string "NASA")).
  repeat (constructor; [left; vm_compute; split; by intros [=]|]). constructor.
Defined.

End Pipeline.

(** ** Sentences without a letter *)

Section Letterless.

Implicit Types (c : char) (s : str).

Lemma str_replace_from_Forall (P : char -> Prop) old new k s :
  Forall P new -> Forall P s -> Forall P (str_replace_from old new k s).
Proof.
  intros Hnew Hs. revert k.
  induction Hs as [|c s Hc Hs IH]; intros k; [done|].
  cbn [str_replace_from]. destruct k as [|k]; [|by apply IH].
  destruct (starts_with old (c :: s)).
  - apply Forall_app. split; [done|by apply IH].
  - constructor; [done|by apply IH].
Qed.

Lemma str_lower_letterless s :
  letterless s -> Forall (fun c => is_valid c = true -> c = space) (str_lower s).
Proof.
  induction 1 as [|c s (Hup & Hlow & Hi & Hk) Hs IH]; [constructor|].
  unfold str_lower. cbn [flat_map]. apply Forall_app. split; [|done].
  unfold lower_char.
  replace ((65 <=? c) && (c <=? 90)) with false by (symmetry; apply andb_false_iff; lia).
  replace (c =? 304) with false by (symmetry; by apply Z.eqb_neq).
  replace (c =? 8490) with false by (symmetry; by apply Z.eqb_neq).
  constructor; [|done]. intros Hv. apply is_valid_spec in Hv. unfold space. lia.
Qed.

Lemma keep_valid_spaces s :
  Forall (fun c => is_valid c = true -> c = space) s ->
  Forall (fun c => c = space) (map keep_valid s).
Proof.
  induction 1 as [|c s Hc Hs IH]; [constructor|].
  cbn [map]. constructor; [|done].
  unfold keep_valid. destruct (is_valid c); [by apply Hc|done].
Qed.

Lemma collapse_spaces_spaces s :
  Forall (fun c => c = space) s -> Forall (fun c => c = space) (collapse_spaces s).
Proof.
  induction s as [|c [|d s] IH]; [done|done|]. intros Hs.
  apply Forall_cons in Hs as [Hc Hs].
  change (collapse_spaces (c :: d :: s))
    with (if (c =? space) && (d =? space) then collapse_spaces (d :: s)
          else c :: collapse_spaces (d :: s)).
  destruct ((c =? space) && (d =? space)); [by apply IH|].
  constructor; [done|by apply IH].
Qed.

Lemma rstrip_spaces s : Forall (fun c => c = space) s -> rstrip s = [].
Proof.
  induction 1 as [|c s -> Hs IH]; [done|]. cbn [rstrip]. by rewrite IH.
Qed.

(** A string without letters is normalized to the empty string. *)
Lemma get_only_chars_letterless s : letterless s -> get_only_chars s = [].
Proof.
  intros Hs. unfold get_only_chars, str_strip.
  rewrite rstrip_spaces; [done|].
  apply collapse_spaces_spaces, keep_valid_spaces, str_lower_letterless.
  unfold letterless, str_replace.
  assert (Forall (fun c => ~ 65 <= c <= 90 /\ ~ 97 <= c <= 122
                           /\ c <> 304 /\ c <> 8490) [space]) as Hsp.
  { constructor; [unfold space; lia|done]. }
  repeat (apply str_replace_from_Forall; [done|]). done.
Qed.

(** X8: for a sentence without any letter, whatever the other arguments,
    [eda] returns the sentence alone, as it was given, and takes no
    draw. *)
Theorem eda_letterless lex sentence language num_aug
    alpha_sr alpha_ri alpha_rs alpha_rd randomize t :
  letterless sentence ->
  eda lex sentence language num_aug alpha_sr alpha_ri alpha_rs alpha_rd
      randomize t
  = Return [sentence] t.
Proof.
  intros Hs. rewrite eda_unfold. unfold words_of.
  by rewrite get_only_chars_letterless.
Qed.

Lemma eda_letterless_witness :
  letterless (of_string "2 + 2 = 4 !")
  /\ eda sample_lexicon (of_string "2 + 2 = 4 !") (of_string "eng")
       (PyInt 9) (strength 1 1) (strength 1 1) (strength 1 1) (strength 1 1)
       true []
     = Return [of_string "2 + 2 = 4 !"] [].
Proof.
  assert (letterless (of_string "2 + 2 = 4 !")) as H.
  { unfold letterless. rewrite Forall_forall. intros c Hc.
    vm_compute in Hc. repeat (apply elem_of_cons in Hc as [->|Hc]; [lia|]).
    by apply elem_of_nil in Hc. }
  split; [exact H|]. by apply eda_letterless.
Defined.

End Letterless.

(** ** The number of flags *)

Section FlagsLength.

Implicit Types (flags : list number) (t : tape).

Lemma getitem_app_l {A} (l more : list A) p :
  0 <= p < len l -> getitem (l ++ more) p = getitem l p.
Proof.
  intros Hp. unfold getitem. rewrite lookup_app_l; [done|]. unfold len in Hp. lia.
Qed.

Lemma base_counts_app num_aug flags more positions :
  (forall pos, pos ∈ positions -> 0 <= pos < len flags) ->
  base_counts num_aug (flags ++ more) positions
  = base_counts num_aug flags positions.
Proof.
  induction positions as [|pos ps IH]; intros Hin; [done|].
  cbn [base_counts]. rewrite getitem_app_l by (apply Hin; by left).
  rewrite IH; [done|]. intros p Hp. apply Hin. by right.
Qed.

Lemma remainder_loop_app flags more counts remainder t :
  len flags = 4 ->
  remainder_loop (flags ++ more) counts remainder t
  = remainder_loop flags counts remainder t.
Proof.
  intros Hlen. revert counts remainder.
  induction t as [|r t IH]; intros counts remainder; [done|].
  cbn [remainder_loop]. destruct (0 <? remainder); [|done].
  rewrite getitem_app_l by (pose proof (position_range r); lia).
  destruct (getitem flags _) as [flag|]; [|done].
  destruct (truthy flag); apply IH.
Qed.

(** X9: flags after the fourth are never read: the function returns what it
    returns for the first four, on the same draws. *)
Theorem allocation_ignores_extra_flags num_aug flags more t :
  length flags = 4%nat ->
  get_num_per_technique num_aug (flags ++ more) t
  = get_num_per_technique num_aug flags t.
Proof.
  intros Hlen. rewrite !get_num_per_technique_unfold.
  assert (len flags = 4) as Hl by (unfold len; lia).
  rewrite !effective_nonempty by (destruct flags; [done|done]).
  rewrite base_counts_app.
  - destruct (base_counts num_aug flags [0; 1; 2; 3]); [|done].
    destruct (remainder_of num_aug); [|done]. by apply remainder_loop_app.
  - intros pos Hpos. rewrite Hl.
    repeat (apply elem_of_cons in Hpos as [->|Hpos]; [lia|]).
    by apply elem_of_nil in Hpos.
Qed.

Lemma allocation_ignores_extra_flags_witness :
  length [PyInt 1; PyInt 0; PyInt 1; PyInt 0] = 4%nat
  /\ get_num_per_technique (PyInt 6)
       ([PyInt 1; PyInt 0; PyInt 1; PyInt 0] ++ [PyInt 1; PyInt 1]) [5; 2; 7]
     = get_num_per_technique (PyInt 6) [PyInt 1; PyInt 0; PyInt 1; PyInt 0]
         [5; 2; 7].
Proof.
  split; [reflexivity|].
  apply (allocation_ignores_extra_flags (PyInt 6)
           [PyInt 1; PyInt 0; PyInt 1; PyInt 0] [PyInt 1; PyInt 1] [5; 2; 7]).
  reflexivity.
Defined.

(** X10: one, two or three flags: the base counts read [flags[pos]] for every
    [pos] of [range(4)], and the function ends in an [IndexError]
    before any draw is taken. *)
Theorem allocation_too_few_flags num_aug flags t b :
  flags <> [] -> (length flags < 4)%nat ->
  base_share num_aug = Val b ->
  get_num_per_technique num_aug flags t = Raise IndexError.
Proof.
  intros Hne Hlen Hb. rewrite get_num_per_technique_unfold.
  rewrite effective_nonempty by done.
  destruct flags as [|f0 [|f1 [|f2 [|f3 flags]]]]; [done| | | |simpl in Hlen; lia];
    cbn [base_counts]; unfold getitem; simpl; rewrite ?Hb;
    repeat match goal with |- context [truthy ?f] => destruct (truthy f) end;
    reflexivity.
Qed.

Lemma allocation_too_few_flags_witness :
  [strength 1 1; strength 0 0; strength 1 1] <> []
  /\ (length [strength 1 1; strength 0 0; strength 1 1] < 4)%nat
  /\ base_share (PyInt 9) = Val 2
  /\ get_num_per_technique (PyInt 9)
       [strength 1 1; strength 0 0; strength 1 1] [3; 1]
     = Raise IndexError.
Proof.
  split; [discriminate|]. split; [simpl; lia|]. split; [reflexivity|].
  apply (allocation_too_few_flags (PyInt 9)
           [strength 1 1; strength 0 0; strength 1 1] [3; 1] 2).
  - discriminate.
  - simpl. lia.
  - reflexivity.
Defined.

End FlagsLength.

(** ** One swap *)

Section SwapWord.

Implicit Types (words new_words : list str) (t : tape).

Lemma pick_range words r : words <> [] -> 0 <= pick words r < len words.
Proof.
  intros Hne. unfold pick.
  assert (1 <= len words) by (destruct words; [done|unfold len; simpl; lia]).
  pose proof (randint_of_range 0 (len words - 1) r ltac:(lia)). lia.
Qed.

Lemma nonempty_randint words : words <> [] -> (len words - 1 <? 0) = false.
Proof.
  intros Hne. apply Z.ltb_ge.
  destruct words; [done|unfold len; simpl; lia].
Qed.

(** X11: three retries that repeat the first position end the search: the
    fourth retry takes a draw that is not looked at, and the list comes
    back as it was, five draws later. *)
Theorem swap_word_gives_up new_words r0 r1 r2 r3 r4 rest :
  new_words <> [] ->
  pick new_words r1 = pick new_words r0 ->
  pick new_words r2 = pick new_words r0 ->
  pick new_words r3 = pick new_words r0 ->
  swap_word new_words (r0 :: r1 :: r2 :: r3 :: r4 :: rest)
  = Return new_words rest.
Proof.
  intros Hne H1 H2 H3. unfold swap_word, bind, randint.
  rewrite nonempty_randint by done.
  fold (pick new_words r0).
  cbn [swap_word_loop]. rewrite nonempty_randint by done.
  fold (pick new_words r1) (pick new_words r2) (pick new_words r3).
  rewrite H1, H2, H3, Z.eqb_refl. reflexivity.
Qed.

Lemma swap_word_gives_up_witness :
  pick [of_string "a"; of_string "b"] 1 <> pick [of_string "a"; of_string "b"] 0
  /\ swap_word [of_string "a"; of_string "b"] [0; 2; 4; 6; 1; 9]
     = Return [of_string "a"; of_string "b"] [9].
Proof.
  split; [by vm_compute|].
  apply (swap_word_gives_up [of_string "a"; of_string "b"] 0 2 4 6 1 [9]);
    [discriminate|reflexivity|reflexivity|reflexivity].
Defined.

Lemma swap_word_loop_exchange new_words i counter t l rest x :
  new_words !! Z.to_nat i = Some x -> 0 <= i ->
  swap_word_loop new_words i counter t = Return l rest ->
  exists j y,
    new_words !! j = Some y
    /\ l = <[j := x]> (<[Z.to_nat i := y]> new_words).
Proof.
  intros Hx Hi. revert counter.
  induction t as [|r t IH]; intros counter; cbn [swap_word_loop].
  - by destruct (len new_words - 1 <? 0).
  - destruct (len new_words - 1 <? 0); [done|].
    destruct (3 <? counter + 1).
    { intros [= <- _]. exists (Z.to_nat i), x. split; [done|].
      by rewrite !(list_insert_id new_words _ x Hx). }
    destruct (_ =? i); [apply IH|].
    unfold swap_items.
    destruct (getitem new_words (randint_of 0 (len new_words - 1) r))
      as [at_j|] eqn:Hj; [|done].
    destruct (getitem new_words i) as [at_i|] eqn:Hi'; [|done].
    cbn [val_bind lift]. unfold ret. intros [= <- _].
    apply getitem_Some in Hj, Hi'. rewrite Hx in Hi'. injection Hi' as <-.
    by exists (Z.to_nat (randint_of 0 (len new_words - 1) r)), at_j.
Qed.

(** X12: whenever [swap_word] returns, its result is the list with the
    tokens of two positions exchanged (the two may be the same
    position): no other position changes. *)
Theorem swap_word_exchanges_two new_words t l rest :
  swap_word new_words t = Return l rest ->
  exists (i j : nat) x y,
    new_words !! i = Some x /\ new_words !! j = Some y
    /\ l = <[j := x]> (<[i := y]> new_words).
Proof.
  unfold swap_word, bind, randint.
  destruct (len new_words - 1 <? 0) eqn:E; [done|].
  destruct t as [|r t]; [done|]. intros Hrun.
  apply Z.ltb_ge in E.
  pose proof (randint_of_range 0 (len new_words - 1) r ltac:(lia)) as Hr.
  destruct (getitem_in_range new_words (randint_of 0 (len new_words - 1) r))
    as [x Hx]; [unfold len in *; lia|].
  apply getitem_Some in Hx.
  destruct (swap_word_loop_exchange _ _ _ _ _ _ x Hx ltac:(lia) Hrun)
    as (j & y & Hy & ->).
  by exists (Z.to_nat (randint_of 0 (len new_words - 1) r)), j, x, y.
Qed.

Lemma swap_word_exchanges_two_witness :
  exists (i j : nat) x y,
    fox_words !! i = Some x /\ fox_words !! j = Some y
    /\ [of_string "fox"; of_string "quick"; of_string "brown";
        of_string "the"; of_string "jumps"]
       = <[j := x]> (<[i := y]> fox_words).
Proof.
  apply (swap_word_exchanges_two fox_words [3; 0; 7]
           [of_string "fox"; of_string "quick"; of_string "brown";
            of_string "the"; of_string "jumps"] [7]).
  reflexivity.
Defined.

End SwapWord.

(** ** The order of the tokens after a deletion *)

Section Deletion.

Implicit Types (words new_words : list str) (t : tape).

Lemma singleton_sublist {A} (x : A) (l : list A) : x ∈ l -> [x] `sublist_of` l.
Proof.
  induction 1 as [x l|x y l _ IH].
  - apply sublist_skip, sublist_nil_l.
  - by apply sublist_cons.
Qed.

Lemma random_deletion_sublist words probability t new_words rest :
  random_deletion words probability t = Return new_words rest ->
  new_words `sublist_of` words /\ (words <> [] -> new_words <> []).
Proof.
  unfold random_deletion. destruct (len words =? 1).
  { unfold ret. by intros [= <- _]. }
  unfold bind at 1.
  destruct (filter_m _ words t) as [kept t'| |] eqn:E; [|done|done].
  apply filter_m_sublist in E.
  destruct (len kept =? 0) eqn:Ek.
  - unfold bind at 1.
    destruct (randint 0 (len words - 1) t') as [i t''| |]; [|done|done].
    unfold bind. destruct (getitem words i) as [word|] eqn:Hw; [|done].
    cbn [lift]. unfold ret. intros [= <- _]. split; [|done].
    apply singleton_sublist. apply getitem_Some in Hw.
    by eapply list_elem_of_lookup_2.
  - unfold ret. intros [= <- _]. split; [done|]. intros _ ->. done.
Qed.

(** X13: whenever [random_deletion] returns, its result is made of
    tokens of the input in the order they had there: nothing is added,
    repeated or moved. *)
Theorem random_deletion_keeps_order words probability t new_words rest :
  random_deletion words probability t = Return new_words rest ->
  new_words `sublist_of` words.
Proof. intros Hrun. by apply random_deletion_sublist in Hrun as [Hsub _]. Qed.

Lemma random_deletion_keeps_order_witness :
  [of_string "the"; of_string "brown"; of_string "jumps"] `sublist_of` fox_words.
Proof.
  apply (random_deletion_keeps_order fox_words (strength 5 1)
           [2 ^ 52 + 1; 3; 2 ^ 52 + 5; 0; 2 ^ 53 - 1; 4]
           [of_string "the"; of_string "brown"; of_string "jumps"] [4]).
  by vm_compute.
Defined.

End Deletion.

(** ** A deletion that is certain *)

Section DeletionExtremes.

Implicit Types (words new_words : list str) (t : tape).

(** [random.random()] is zero or a positive float below 1. *)
Lemma random_of_shape r :
  random_of r = S754_zero false
  \/ exists m e, random_of r = S754_finite false m e
                 /\ e <= -53 /\ Zpos m < 2 ^ 53.
Proof.
  unfold random_of.
  pose proof (Z.mod_pos_bound r (2 ^ 53) ltac:(lia)) as Hu.
  destruct (r mod 2 ^ 53) as [|p|p] eqn:Ep; [by left| |lia]. right.
  unfold binary_normalize, binary_round. change prec with 53. change emax with 1024.
  pose proof (FloatFacts.small_digits p ltac:(lia)) as Hd.
  set (d := Zpos (digits2_pos p)) in *.
  destruct (FloatFacts.normalised_mantissa p d eq_refl Hd) as (m & Em & Hm).
  rewrite FloatFacts.fexp_normal by lia.
  assert (shl_align p (- 53) (d + - 53 - 53) = (m, d - 106)) as ->.
  { unfold shl_align.
    destruct (d + - 53 - 53 - - 53) as [|k|k] eqn:Ek; try lia.
    - replace (53 - d) with 0 in Em by lia. rewrite Z.mul_1_r in Em.
      injection Em as ->. f_equal. lia.
    - f_equal; [|lia]. apply Pos2Z.inj. rewrite pos_iter_xO, <- Em.
      f_equal. f_equal. lia. }
  rewrite FloatFacts.binary_round_aux_canonical by lia.
  exists m, (d - 106). split; [done|]. split; [lia|].
  apply FloatFacts.digits2_pos_bounds in Hm. lia.
Qed.

(** No draw is above a probability of 1 or more. *)
Lemma certain_deletion probability r :
  (exists z, probability = PyInt z /\ 1 <= z) \/ probability = PyFloat one ->
  num_lt probability (PyFloat (random_of r)) = false.
Proof.
  intros Hp. unfold num_lt.
  destruct (random_of_shape r) as [->|(m & e & -> & He & Hm)];
    destruct Hp as [(z & -> & Hz)| ->]; cbn [num_compare compare_float_int option_map].
  - by replace (0 ?= z) with Lt by (symmetry; apply Z.compare_lt_iff; lia).
  - reflexivity.
  - replace (0 <=? e) with false by (symmetry; apply Z.leb_gt; lia).
    cbn [cond_Zopp option_map].
    assert (2 ^ 53 <= 2 ^ (- e)) by (apply Z.pow_le_mono_r; lia).
    assert (2 ^ (- e) <= z * 2 ^ (- e)) by nia.
    by replace (Zpos m ?= z * 2 ^ (- e)) with Lt
      by (symmetry; apply Z.compare_lt_iff; lia).
  - unfold one. cbn [SFcompare].
    by replace (-52 ?= e) with Gt by (symmetry; apply Z.compare_gt_iff; lia).
Qed.

Lemma survivors_none probability words t :
  (forall r, num_lt probability (PyFloat (random_of r)) = false) ->
  survivors probability words t = [].
Proof.
  intros Hp. revert t. induction words as [|w words IH]; intros [|r t]; try done.
  cbn [survivors]. by rewrite Hp.
Qed.

(** X14: with a probability of 1 (or an integer above), on two tokens or
    more, every token is deleted, and the result is the single token
    the next draw picks. *)
Theorem random_deletion_certain words probability t :
  (exists z, probability = PyInt z /\ 1 <= z) \/ probability = PyFloat one ->
  (2 <= length words)%nat ->
  (length words < length t)%nat ->
  exists r word,
    t !! length words = Some r
    /\ words !! Z.to_nat (pick words r) = Some word
    /\ random_deletion words probability t
       = Return [word] (drop (S (length words)) t).
Proof.
  intros Hp H2 Hlen. unfold random_deletion.
  replace (len words =? 1) with false
    by (symmetry; apply Z.eqb_neq; unfold len; lia).
  unfold bind at 1. rewrite filter_m_survivors by lia.
  rewrite survivors_none by (intros r; by apply certain_deletion).
  change (len [] =? 0) with true. cbn iota.
  destruct (lookup_lt_is_Some_2 t (length words) Hlen) as [r Hr].
  rewrite (drop_S t r (length words) Hr).
  unfold bind, randint.
  assert (words <> []) as Hne by (intros ->; simpl in H2; lia).
  replace (len words - 1 <? 0) with false
    by (symmetry; apply Z.ltb_ge; unfold len; lia).
  fold (pick words r).
  pose proof (pick_range words r Hne) as Hpick.
  destruct (getitem_in_range words (pick words r) Hpick) as [word Hw].
  rewrite Hw. cbn [lift]. unfold ret.
  exists r, word. split; [done|]. split; [by apply getitem_Some|done].
Qed.

Lemma random_deletion_certain_witness :
  exists r word,
    [0; 2 ^ 53 - 1; 5; 7] !! length [of_string "a"; of_string "b"; of_string "c"]
    = Some r
    /\ [of_string "a"; of_string "b"; of_string "c"]
         !! Z.to_nat (pick [of_string "a"; of_string "b"; of_string "c"] r)
       = Some word
    /\ random_deletion [of_string "a"; of_string "b"; of_string "c"] (PyInt 1)
         [0; 2 ^ 53 - 1; 5; 7]
       = Return [word]
           (drop (S (length [of_string "a"; of_string "b"; of_string "c"]))
              [0; 2 ^ 53 - 1; 5; 7]).
Proof.
  apply (random_deletion_certain
           [of_string "a"; of_string "b"; of_string "c"] (PyInt 1)
           [0; 2 ^ 53 - 1; 5; 7]).
  - left. exists 1. split; [reflexivity|lia].
  - simpl. lia.
  - simpl. lia.
Defined.

End DeletionExtremes.

(** ** The synonyms of a word *)

Section Synonyms.

Implicit Types (words new_words : list str) (t : tape) (lex : lexicon).

Lemma filter_elem_of {A} (f : A -> bool) (l : list A) x :
  x ∈ List.filter f l <-> x ∈ l /\ f x = true.
Proof. rewrite !list_elem_of_In. apply filter_In. Qed.

Lemma filter_NoDup {A} (f : A -> bool) (l : list A) :
  NoDup l -> NoDup (List.filter f l).
Proof.
  induction 1 as [|x l Hx Hl IH]; [constructor|].
  cbn [List.filter]. destruct (f x); [|done].
  constructor; [|done]. intros Hin. by apply filter_elem_of in Hin as [Hin _].
Qed.

Lemma filter_valid s : valid_str (List.filter is_valid s).
Proof.
  unfold valid_str. rewrite Forall_forall. intros c Hc.
  by apply filter_elem_of in Hc as [_ Hc].
Qed.

(** X15: where the lexicon iterates a set in some order of its elements, the
    synonyms of a word never hold the word itself, hold no string
    twice, and are made of chars of [a-z] and spaces only. *)
Theorem get_synonyms_clean lex word language synonyms :
  orders_sets lex ->
  get_synonyms lex word language = Val synonyms ->
  (word ∉ synonyms) /\ NoDup synonyms /\ Forall valid_str synonyms.
Proof.
  intros Hord. unfold get_synonyms.
  destruct (lemma_names lex word language) as [names|]; [|done].
  cbn [val_bind].
  set (clean := fun name : str =>
         List.filter is_valid
           (str_lower
              (str_replace (of_string "-") [space]
                 (str_replace (of_string "_") [space] name)))).
  set (s := remove_dups (map clean names)).
  assert (NoDup s) as Hnd by apply NoDup_remove_dups.
  assert (Forall valid_str s) as Hv.
  { rewrite Forall_forall. intros x Hx. apply (proj1 (elem_of_remove_dups _ _)) in Hx.
    apply list_elem_of_fmap in Hx as (name & -> & _). apply filter_valid. }
  intros [= <-]. rewrite !(Hord _).
  destruct (str_in word s) eqn:E.
  - split; [|split].
    + intros Hin. apply filter_elem_of in Hin as [_ Hin].
      by rewrite bool_decide_eq_true_2 in Hin.
    + by apply filter_NoDup.
    + rewrite Forall_forall in Hv |- *. intros x Hx.
      apply filter_elem_of in Hx as [Hx _]. by apply Hv.
  - unfold str_in in E. by apply bool_decide_eq_false in E.
Qed.

Lemma get_synonyms_clean_witness :
  orders_sets sample_lexicon
  /\ get_synonyms sample_lexicon (of_string "quick") (of_string "eng")
     = Val [of_string "fast"; of_string "speedy one"]
  /\ (of_string "quick" ∉ [of_string "fast"; of_string "speedy one"])
  /\ NoDup [of_string "fast"; of_string "speedy one"]
  /\ Forall valid_str [of_string "fast"; of_string "speedy one"].
Proof.
  assert (orders_sets sample_lexicon) as Hord.
  { intros l. apply reverse_Permutation. }
  split; [exact Hord|]. split; [reflexivity|].
  apply (get_synonyms_clean sample_lexicon (of_string "quick") (of_string "eng")
           [of_string "fast"; of_string "speedy one"] Hord).
  reflexivity.
Defined.

End Synonyms.

(** ** The insertion *)

Section Insertion.

Implicit Types (words new_words : list str) (t : tape) (lex : lexicon).

Lemma pick_getitem words r word :
  words !! Z.to_nat (pick words r) = Some word ->
  getitem words (randint_of 0 (len words - 1) r) = Val word.
Proof. unfold getitem, pick. by intros ->. Qed.

(** Nine picks without a synonym, then a tenth: the search is given up
    whatever the tenth pick has. *)
Lemma add_word_loop_misses lex language new_words turns counter t9 r word
    synonyms rest :
  new_words <> [] ->
  Forall (misses lex language new_words) t9 ->
  new_words !! Z.to_nat (pick new_words r) = Some word ->
  get_synonyms lex word language = Val synonyms ->
  0 <= counter -> counter + len t9 = 9 -> (length t9 < turns)%nat ->
  add_word_loop lex language new_words turns counter (t9 ++ r :: rest)
  = Return None rest.
Proof.
  intros Hne Hmiss Hw Hsyn. revert turns counter.
  induction Hmiss as [|r' t9 (w' & Hw' & Hsyn') Hmiss IH];
    intros turns counter Hc Hlen Hturns.
  - destruct turns as [|turns]; [simpl in Hturns; lia|].
    unfold len in Hlen. simpl in Hlen.
    cbn [app add_word_loop]. unfold bind at 1, randint.
    rewrite nonempty_randint by done.
    unfold bind at 1. rewrite (pick_getitem _ _ _ Hw). cbn [lift]. unfold ret at 1.
    unfold bind at 1. rewrite Hsyn. cbn [lift]. unfold ret at 1.
    by replace (10 <=? counter + 1) with true by (symmetry; apply Z.leb_le; lia).
  - destruct turns as [|turns]; [simpl in Hturns; lia|].
    unfold len in Hlen. cbn [length] in Hlen, Hturns.
    cbn [app add_word_loop]. unfold bind at 1, randint.
    rewrite nonempty_randint by done.
    unfold bind at 1. rewrite (pick_getitem _ _ _ Hw'). cbn [lift]. unfold ret at 1.
    unfold bind at 1. rewrite Hsyn'. cbn [lift]. unfold ret at 1.
    replace (10 <=? counter + 1) with false by (symmetry; apply Z.leb_gt; lia).
    change (len [] <? 1) with true. cbn iota.
    apply IH; [lia|unfold len; lia|lia].
Qed.

(** X16: the tenth try of [add_word] is lost: after nine picks of a word
    without synonyms, the synonyms of the tenth pick are fetched and the
    function returns at once, the list left as it was. *)
Theorem add_word_tenth_try lex new_words language t9 r word synonyms rest :
  length t9 = 9%nat ->
  Forall (misses lex language new_words) t9 ->
  new_words !! Z.to_nat (pick new_words r) = Some word ->
  get_synonyms lex word language = Val synonyms ->
  add_word lex new_words language (t9 ++ r :: rest) = Return new_words rest.
Proof.
  intros Hlen Hmiss Hw Hsyn. unfold add_word. unfold bind at 1.
  rewrite (add_word_loop_misses lex language new_words 10 0 t9 r word synonyms rest);
    try done; [|unfold len; lia|lia].
  intros ->. by rewrite lookup_nil in Hw.
Qed.

Lemma add_word_tenth_try_witness :
  get_synonyms sample_lexicon (of_string "quick") (of_string "eng")
  = Val [of_string "fast"; of_string "speedy one"]
  /\ add_word sample_lexicon [of_string "the"; of_string "quick"] (of_string "eng")
       (replicate 9 0 ++ 1 :: [5])
     = Return [of_string "the"; of_string "quick"] [5].
Proof.
  split; [reflexivity|].
  apply (add_word_tenth_try sample_lexicon [of_string "the"; of_string "quick"]
           (of_string "eng") (replicate 9 0) 1 (of_string "quick")
           [of_string "fast"; of_string "speedy one"] [5]).
  - reflexivity.
  - apply Forall_replicate. exists (of_string "the"). split; reflexivity.
  - reflexivity.
  - reflexivity.
Defined.

Lemma misses_all lex language words t :
  words <> [] -> no_synonyms lex language words ->
  Forall (misses lex language words) t.
Proof.
  intros Hne Hno. rewrite Forall_forall. intros r _.
  assert (1 <= len words) by (destruct words; [done|unfold len; simpl; lia]).
  pose proof (randint_of_range 0 (len words - 1) r ltac:(lia)) as Hr.
  destruct (getitem_in_range words (pick words r)) as [word Hw];
    [unfold pick, len in *; lia|].
  apply getitem_Some in Hw. exists word. split; [done|].
  apply Hno. by eapply list_elem_of_lookup_2.
Qed.

Lemma add_word_no_synonyms lex words language t :
  words <> [] -> no_synonyms lex language words -> (10 <= length t)%nat ->
  add_word lex words language t = Return words (drop 10 t).
Proof.
  intros Hne Hno Hlen.
  destruct (lookup_lt_is_Some_2 t 9 ltac:(lia)) as [r Hr].
  rewrite <- (take_drop 9 t) at 1. rewrite (drop_S t r 9 Hr).
  pose proof (misses_all lex language words [r] Hne Hno) as Hm.
  apply Forall_cons in Hm as [(word & Hw & Hsyn) _].
  unfold add_word. unfold bind at 1.
  rewrite (add_word_loop_misses lex language words 10 0 (take 9 t) r word [] _);
    try done.
  - by apply misses_all.
  - unfold len. rewrite length_take. lia.
  - rewrite length_take. lia.
Qed.

(** X17: where no word of the list has a synonym, [random_insertion] inserts
    nothing: it returns the list as it was, after ten draws for each
    insertion asked for. *)
Theorem random_insertion_no_synonyms lex words n language t :
  words <> [] ->
  no_synonyms lex language words ->
  10 * n <= len t ->
  random_insertion lex words n language t
  = Return words (drop (Z.to_nat (10 * n)) t).
Proof.
  intros Hne Hno Hlen. unfold random_insertion.
  assert (10 * Z.of_nat (Z.to_nat n) <= len t) as Hk by (unfold len in *; lia).
  replace (Z.to_nat (10 * n)) with (10 * Z.to_nat n)%nat by lia.
  clear Hlen. revert t Hk. generalize (Z.to_nat n) as k.
  induction k as [|k IH]; intros t Hk; [done|].
  cbn [repeat_m]. unfold bind. unfold len in Hk.
  rewrite add_word_no_synonyms by (done || lia).
  rewrite IH.
  - rewrite drop_drop. do 2 f_equal. lia.
  - unfold len. rewrite length_drop. lia.
Qed.

Lemma random_insertion_no_synonyms_witness :
  random_insertion empty_lexicon fox_words 2 (of_string "eng") (replicate 21 3)
  = Return fox_words (drop (Z.to_nat (10 * 2)) (replicate 21 3)).
Proof.
  apply (random_insertion_no_synonyms empty_lexicon fox_words 2 (of_string "eng")
           (replicate 21 3)).
  - discriminate.
  - intros w _. reflexivity.
  - vm_compute. discriminate.
Defined.

(** *** What [add_word] does to the list *)

Lemma add_word_shape lex new_words language t l rest :
  add_word lex new_words language t = Return l rest ->
  l = new_words
  \/ exists (i : nat) synonym,
       (i < length new_words)%nat
       /\ l = take i new_words ++ synonym :: drop i new_words.
Proof.
  unfold add_word. unfold bind at 1.
  destruct (add_word_loop _ _ _ _ _ t) as [[synonyms|] t'| |]; [| |done|done].
  - unfold bind at 1. destruct (getitem synonyms 0) as [synonym|]; [|done].
    cbn [lift]. unfold ret at 1. unfold bind, randint.
    destruct (len new_words - 1 <? 0) eqn:E; [done|]. apply Z.ltb_ge in E.
    destruct t' as [|r t']; [done|]. unfold ret. intros [= <- _]. right.
    pose proof (randint_of_range 0 (len new_words - 1) r ltac:(lia)) as Hr.
    exists (Z.to_nat (randint_of 0 (len new_words - 1) r)), synonym.
    split; [unfold len in *; lia|done].
  - unfold ret. intros [= <- _]. by left.
Qed.

Lemma last_insert_before {A} (l : list A) (i : nat) x :
  (i < length l)%nat -> last (take i l ++ x :: drop i l) = last l.
Proof.
  intros Hi. rewrite <- (take_drop i l) at 3. rewrite !last_app.
  destruct (drop i l) as [|y d] eqn:Hd.
  - apply (f_equal length) in Hd. rewrite length_drop in Hd. simpl in Hd. lia.
  - by rewrite last_cons_cons.
Qed.

Lemma sublist_insert_before {A} (l : list A) (i : nat) x :
  l `sublist_of` take i l ++ x :: drop i l.
Proof.
  rewrite <- (take_drop i l) at 1.
  apply sublist_app; [done|]. by apply sublist_cons.
Qed.

Lemma repeat_add_word_grows lex language (k : nat) words t l rest :
  repeat_m k (fun new_words => add_word lex new_words language) words t
  = Return l rest ->
  words `sublist_of` l
  /\ (length l <= length words + k)%nat
  /\ last l = last words.
Proof.
  revert words t. induction k as [|k IH]; intros words t; cbn [repeat_m].
  - unfold ret. intros [= <- _]. split; [done|]. split; [lia|done].
  - unfold bind.
    destruct (add_word lex words language t) as [l' t'| |] eqn:E; [|done|done].
    intros Hrun. apply IH in Hrun as (Hsub & Hlen & Hlast).
    apply add_word_shape in E as [->|(i & synonym & Hi & ->)].
    + split; [done|]. split; [lia|done].
    + split; [|split].
      * etrans; [apply (sublist_insert_before words i synonym)|done].
      * rewrite length_app in Hlen. cbn [length] in Hlen.
        rewrite length_take, length_drop in Hlen. lia.
      * by rewrite Hlast, last_insert_before.
Qed.

(** X18: whenever [random_insertion] returns, the words of the input are
    still there in their order, at most [n] tokens have been added, and
    the last token is the one that was last: a synonym is put before a
    token, never after the last one. *)
Theorem random_insertion_grows lex words n language t l rest :
  random_insertion lex words n language t = Return l rest ->
  words `sublist_of` l
  /\ (length l <= length words + Z.to_nat n)%nat
  /\ last l = last words.
Proof. apply repeat_add_word_grows. Qed.

Lemma random_insertion_grows_witness :
  [of_string "the"; of_string "quick"]
    `sublist_of` [of_string "fast"; of_string "the"; of_string "quick"]
  /\ (length [of_string "fast"; of_string "the"; of_string "quick"]
      <= length [of_string "the"; of_string "quick"] + Z.to_nat 1)%nat
  /\ last [of_string "fast"; of_string "the"; of_string "quick"]
     = last [of_string "the"; of_string "quick"].
Proof.
  apply (random_insertion_grows sample_lexicon
           [of_string "the"; of_string "quick"] 1 (of_string "eng") [1; 0; 8]
           [of_string "fast"; of_string "the"; of_string "quick"] [8]).
  reflexivity.
Defined.

End Insertion.

(** ** The replacement *)

Section Replacement.

Implicit Types (words new_words : list str) (t : tape) (lex : lexicon).

(** *** Tokens after the join and the split *)

Lemma str_split_no_space s : Forall (fun w => space ∉ w) (str_split space s).
Proof.
  induction s as [|c s IH]; cbn [str_split].
  - constructor; [|done]. apply not_elem_of_nil.
  - destruct (c =? space) eqn:E.
    + constructor; [apply not_elem_of_nil|done].
    + apply Z.eqb_neq in E. pose proof (str_split_nonempty s) as Hne.
      destruct (str_split space s) as [|w ws]; [done|].
      apply Forall_cons in IH as [Hw Hws]. constructor; [|done].
      intros Hin. apply elem_of_cons in Hin as [Hin|Hin]; [by subst c|done].
Qed.

Lemma str_split_spaceless w : space ∉ w -> str_split space w = [w].
Proof.
  induction w as [|c w IH]; [done|]. intros Hc.
  apply not_elem_of_cons in Hc as [Hc Hw]. cbn [str_split].
  replace (c =? space) with false by (symmetry; apply Z.eqb_neq; congruence).
  by rewrite IH.
Qed.

Lemma str_split_sep u s :
  str_split space (u ++ space :: s) = str_split space u ++ str_split space s.
Proof.
  induction u as [|c u IH]; [done|].
  cbn [app str_split]. rewrite IH.
  destruct (c =? space); [done|].
  pose proof (str_split_nonempty u) as Hne.
  by destruct (str_split space u) as [|w ws].
Qed.

(** [" ".join(l).split(" ")] splits every string of [l] where it has
    spaces. *)
Lemma str_split_join_tokens l :
  l <> [] ->
  str_split space (str_join [space] l) = flat_map (str_split space) l.
Proof.
  induction l as [|w l IH]; [done|]. intros _.
  destruct l as [|w' l].
  - cbn [str_join flat_map]. by rewrite app_nil_r.
  - rewrite str_join_cons by done. cbn [app]. rewrite str_split_sep, IH by done.
    done.
Qed.

(** *** The loop *)

Lemma replacement_loop_no_synonyms lex language n random_word_list new_words
    num_replaced t :
  (forall w, w ∈ random_word_list -> get_synonyms lex w language = Val []) ->
  replacement_loop lex language n random_word_list new_words num_replaced t
  = Return new_words t.
Proof.
  induction random_word_list as [|random_word rest IH]; intros Hno; [done|].
  cbn [replacement_loop]. unfold bind at 1.
  rewrite Hno by (by left). cbn [lift]. unfold ret at 1.
  change (1 <=? len []) with false. cbn iota.
  unfold bind, ret. cbn [fst snd].
  destruct (n <=? num_replaced); [done|].
  apply IH. intros w Hw. apply Hno. by right.
Qed.

Lemma replacement_loop_keeps lex language n random_word_list new_words
    num_replaced t out rest w (i : nat) :
  replacement_loop lex language n random_word_list new_words num_replaced t
  = Return out rest ->
  w ∉ random_word_list -> new_words !! i = Some w -> out !! i = Some w.
Proof.
  revert new_words num_replaced t.
  induction random_word_list as [|random_word rwl IH];
    intros new_words num_replaced t; cbn [replacement_loop].
  - unfold ret. by intros [= <- _].
  - intros Hrun Hw Hi. apply not_elem_of_cons in Hw as [Hne Hw].
    unfold bind at 1 in Hrun.
    destruct (get_synonyms lex random_word language) as [synonyms|]; [|done].
    cbn [lift] in Hrun. unfold ret at 1 in Hrun. unfold bind at 1 in Hrun.
    destruct (1 <=? len synonyms).
    + unfold bind at 1 in Hrun.
      destruct (choice synonyms t) as [synonym t'| |]; [|done|done].
      unfold ret at 1 in Hrun. cbn [fst snd] in Hrun.
      assert (map (fun word => if bool_decide (word = random_word)
                               then synonym else word) new_words !! i = Some w)
        as Hi'.
      { rewrite list_lookup_fmap, Hi. cbn. by rewrite bool_decide_eq_false_2. }
      destruct (n <=? num_replaced + 1).
      * unfold ret in Hrun. injection Hrun as <- _. done.
      * by eapply IH.
    + unfold ret at 1 in Hrun. cbn [fst snd] in Hrun.
      destruct (n <=? num_replaced).
      * unfold ret in Hrun. injection Hrun as <- _. done.
      * by eapply IH.
Qed.

(** What [synonym_replacement] is made of, once it has returned. *)
Lemma synonym_replacement_inv lex words n language t l rest :
  synonym_replacement lex words n language t = Return l rest ->
  exists stops random_word_list new_words t1 t2,
    stop_words lex language = Val stops
    /\ shuffle (set_order lex
                  (remove_dups
                     (List.filter (fun word => negb (str_in word stops)) words))) t
       = Return random_word_list t1
    /\ replacement_loop lex language n random_word_list words 0 t1
       = Return new_words t2
    /\ l = str_split space (str_join [space] new_words).
Proof.
  unfold synonym_replacement. unfold bind at 1.
  destruct (stop_words lex language) as [stops|]; [|done].
  cbn [lift]. unfold ret at 1. unfold bind at 1.
  destruct (shuffle _ t) as [random_word_list t1| |] eqn:Es; [|done|done].
  unfold bind at 1.
  destruct (replacement_loop _ _ _ _ _ _ t1) as [new_words t2| |] eqn:El;
    [|done|done].
  unfold ret. intros [= <- _].
  by exists stops, random_word_list, new_words, t1, t2.
Qed.

(** X19: whenever [synonym_replacement] returns, no token of its result has
    a space in it, and there is at least one token: a synonym of several
    words has become several tokens. *)
Theorem synonym_replacement_tokens lex words n language t l rest :
  synonym_replacement lex words n language t = Return l rest ->
  l <> [] /\ Forall (fun w => space ∉ w) l.
Proof.
  intros Hrun.
  apply synonym_replacement_inv in Hrun as (? & ? & new_words & ? & ? & _ & _ & _ & ->).
  split; [apply str_split_nonempty|apply str_split_no_space].
Qed.

Lemma synonym_replacement_tokens_witness :
  [of_string "the"; of_string "speedy"; of_string "one"] <> []
  /\ Forall (fun w => space ∉ w)
       [of_string "the"; of_string "speedy"; of_string "one"].
Proof.
  apply (synonym_replacement_tokens sample_lexicon
           [of_string "the"; of_string "quick"] 1 (of_string "eng") [1; 7]
           [of_string "the"; of_string "speedy"; of_string "one"] [7]).
  reflexivity.
Defined.

(** X20: on the empty token list [synonym_replacement] returns one token,
    the empty string: [''.split(' ')] is [['']]. No draw is taken. *)
Theorem synonym_replacement_empty lex n language t stops :
  orders_sets lex ->
  stop_words lex language = Val stops ->
  synonym_replacement lex [] n language t = Return [[]] t.
Proof.
  intros Hord Hstops. unfold synonym_replacement. unfold bind at 1.
  rewrite Hstops. cbn [lift List.filter remove_dups]. unfold ret at 1.
  assert (set_order lex [] = []) as -> by apply Permutation_nil_r, Hord.
  reflexivity.
Qed.

Lemma synonym_replacement_empty_witness :
  synonym_replacement sample_lexicon [] 3 (of_string "eng") [6] = Return [[]] [6].
Proof.
  apply (synonym_replacement_empty sample_lexicon 3 (of_string "eng") [6]
           [of_string "the"]).
  - intros l. apply reverse_Permutation.
  - reflexivity.
Defined.

Lemma remove_dups_length (l : list str) : (length (remove_dups l) <= length l)%nat.
Proof.
  induction l as [|x l IH]; [done|]. cbn [remove_dups length].
  destruct (decide_rel _ x l); simpl; lia.
Qed.

(** The words that may be replaced: shuffled, they are still words of
    the input that are not stop words. *)
Lemma candidates lex words stops t random_word_list t1 :
  orders_sets lex ->
  shuffle (set_order lex
             (remove_dups
                (List.filter (fun word => negb (str_in word stops)) words))) t
  = Return random_word_list t1 ->
  forall w, w ∈ random_word_list -> w ∈ words /\ w ∉ stops.
Proof.
  intros Hord Hs w Hw. apply shuffle_Permutation in Hs.
  rewrite Hs, (Hord _) in Hw.
  apply (proj1 (elem_of_remove_dups _ _)) in Hw.
  apply filter_elem_of in Hw as [Hw Hstop]. split; [done|].
  apply negb_true_iff in Hstop. unfold str_in in Hstop.
  by apply bool_decide_eq_false in Hstop.
Qed.

(** X21: where no word of the list has a synonym, [synonym_replacement]
    returns the words as they were. *)
Theorem synonym_replacement_no_synonyms lex words n language t stops :
  orders_sets lex ->
  stop_words lex language = Val stops ->
  no_synonyms lex language words ->
  Forall is_word words -> words <> [] ->
  (length words <= length t)%nat ->
  exists rest, synonym_replacement lex words n language t = Return words rest.
Proof.
  intros Hord Hstops Hno Hwords Hne Hlen.
  unfold synonym_replacement. unfold bind at 1.
  rewrite Hstops. cbn [lift]. unfold ret at 1. unfold bind at 1.
  set (x := set_order lex _).
  assert (length x <= length words)%nat as Hx.
  { unfold x. rewrite (Permutation_length (Hord _)).
    etrans; [apply remove_dups_length|apply filter_length_le]. }
  destruct (shuffle_from_returns (length x - 1) x t) as (rwl & Hs & Hperm);
    [lia|lia|].
  fold (shuffle x) in Hs. rewrite Hs. unfold bind at 1.
  rewrite replacement_loop_no_synonyms.
  - unfold ret. rewrite str_split_join by done. eauto.
  - intros w Hw. apply Hno.
    by apply (candidates lex words stops t rwl _ Hord Hs).
Qed.

Lemma synonym_replacement_no_synonyms_witness :
  exists rest,
    synonym_replacement empty_lexicon fox_words 2 (of_string "eng")
      [4; 1; 3; 0; 2] = Return fox_words rest.
Proof.
  apply (synonym_replacement_no_synonyms empty_lexicon fox_words 2
           (of_string "eng") [4; 1; 3; 0; 2] []).
  - intros l. reflexivity.
  - reflexivity.
  - intros w _. reflexivity.
  - apply fox_words_are_words.
  - discriminate.
  - simpl. lia.
Defined.

(** X22: a stop word of the input is never replaced: whenever
    [synonym_replacement] returns, it is still a token of the result. *)
Theorem synonym_replacement_keeps_stop_words lex words n language t l rest
    stops w :
  orders_sets lex ->
  stop_words lex language = Val stops ->
  w ∈ stops -> w ∈ words -> space ∉ w ->
  synonym_replacement lex words n language t = Return l rest ->
  w ∈ l.
Proof.
  intros Hord Hstops Hstop Hin Hw Hrun.
  apply synonym_replacement_inv in Hrun
    as (stops' & rwl & new_words & t1 & t2 & Hstops' & Hs & Hloop & ->).
  rewrite Hstops in Hstops'. injection Hstops' as <-.
  apply list_elem_of_lookup in Hin as [i Hi].
  assert (new_words !! i = Some w) as Hi'.
  { eapply replacement_loop_keeps; [exact Hloop| |done].
    intros Hc. by destruct (candidates lex words stops t rwl t1 Hord Hs w Hc). }
  assert (new_words <> []) as Hne by (intros ->; by rewrite lookup_nil in Hi').
  rewrite str_split_join_tokens by done.
  apply list_elem_of_In, in_flat_map. exists w. split.
  - apply list_elem_of_In. by eapply list_elem_of_lookup_2.
  - rewrite str_split_spaceless by done. by left.
Qed.

Lemma synonym_replacement_keeps_stop_words_witness :
  of_string "the" ∈ [of_string "the"; of_string "speedy"; of_string "one"].
Proof.
  apply (synonym_replacement_keeps_stop_words sample_lexicon
           [of_string "the"; of_string "quick"] 1 (of_string "eng") [1; 7]
           [of_string "the"; of_string "speedy"; of_string "one"] [7]
           [of_string "the"] (of_string "the")).
  - intros l. apply reverse_Permutation.
  - reflexivity.
  - by left.
  - by left.
  - by vm_compute; intros H; repeat (apply elem_of_cons in H as [H|H]; [done|]);
      apply elem_of_nil in H.
  - reflexivity.
Defined.

End Replacement.

(** ** No word, no target *)

Section Edges.

Implicit Types (words : list str) (t : tape) (lex : lexicon).

(** X23: on the empty token list the deletion, the insertion and the swap
    end in the [ValueError] of [random.randint(0, -1)]. *)
Theorem operators_on_no_words lex probability n language t :
  1 <= n ->
  random_deletion [] probability t = Raise ValueError
  /\ random_insertion lex [] n language t = Raise ValueError
  /\ random_swap [] n t = Raise ValueError.
Proof.
  intros Hn. split; [done|].
  unfold random_insertion, random_swap.
  destruct (Z.to_nat n) as [|k] eqn:E; [lia|]. done.
Qed.

Lemma operators_on_no_words_witness :
  random_deletion [] (strength 1 1) [4; 2] = Raise ValueError
  /\ random_insertion sample_lexicon [] 1 (of_string "eng") [4; 2]
     = Raise ValueError
  /\ random_swap [] 1 [4; 2] = Raise ValueError.
Proof.
  apply (operators_on_no_words sample_lexicon (strength 1 1) 1 (of_string "eng")
           [4; 2]).
  lia.
Defined.

Lemma zero_target num_aug :
  truthy num_aug = false ->
  base_share num_aug = Val 0 /\ remainder_of num_aug = Val 0
  /\ num_le (PyInt 1) num_aug = false /\ num_lt (PyInt 0) num_aug = false.
Proof.
  destruct num_aug as [z|[s|s| |s m e]]; try done.
  cbn [truthy]. intros H. apply negb_false_iff, Z.eqb_eq in H. by subst z.
Qed.

Lemma allocation_zero_target num_aug a1 a2 a3 a4 t :
  truthy num_aug = false ->
  get_num_per_technique num_aug [a1; a2; a3; a4] t = Return [0; 0; 0; 0] t.
Proof.
  intros Hz. destruct (zero_target num_aug Hz) as (Hb & Hr & _).
  rewrite get_num_per_technique_unfold. cbn [effective].
  rewrite (base_counts_defined _ _ _ 0 Hb), Hr.
  2:{ intros pos Hpos.
      repeat (apply elem_of_cons in Hpos as [->|Hpos]; [simpl; lia|]).
      by apply elem_of_nil in Hpos. }
  assert (map (fun pos => if enabled [a1; a2; a3; a4] pos then 0 else 0)
            [0; 1; 2; 3] = [0; 0; 0; 0]) as ->.
  { cbn [map]. by destruct (enabled _ 0), (enabled _ 1), (enabled _ 2), (enabled _ 3). }
  by destruct t.
Qed.

Lemma stage_zero alpha num_words (operator : Z -> M (list str)) position t :
  0 <= position <= 3 ->
  (num_lt (PyInt 0) alpha = true ->
     exists k, words_to_change alpha num_words = Val k) ->
  (if num_lt (PyInt 0) alpha then
     num <- lift (words_to_change alpha num_words) ;;
     count <- lift (getitem [0; 0; 0; 0] position) ;;
     generate count (operator num) []
   else ret []) t = Return [] t.
Proof.
  intros Hp Hdef. destruct (num_lt (PyInt 0) alpha); [|done].
  destruct (Hdef eq_refl) as [k Hk]. unfold bind at 1. rewrite Hk.
  cbn [lift]. unfold ret at 1.
  assert (position = 0 \/ position = 1 \/ position = 2 \/ position = 3)
    as [-> | [-> | [-> | ->]]] by lia; done.
Qed.

(** X24: with a target of zero, [eda] returns the sentence alone and takes
    no draw, as long as the number of words to change can be computed
    for the strengths above zero. *)
Theorem eda_zero_target lex sentence language num_aug
    alpha_sr alpha_ri alpha_rs alpha_rd randomize t :
  truthy num_aug = false ->
  (forall alpha, alpha ∈ [alpha_sr; alpha_ri; alpha_rs] ->
     num_lt (PyInt 0) alpha = true ->
     exists k, words_to_change alpha (len (words_of sentence)) = Val k) ->
  eda lex sentence language num_aug alpha_sr alpha_ri alpha_rs alpha_rd
      randomize t
  = Return [sentence] t.
Proof.
  intros Hz Hdef. rewrite eda_unfold.
  destruct (len (words_of sentence) =? 0); [done|].
  assert (eda_generate lex (words_of sentence) language num_aug
            alpha_sr alpha_ri alpha_rs alpha_rd t = Return [] t) as Hgen.
  { unfold eda_generate. unfold bind at 1.
    rewrite allocation_zero_target by done.
    unfold bind at 1. rewrite stage_zero; [|lia|apply Hdef; by left].
    unfold bind at 1. rewrite stage_zero; [|lia|apply Hdef; right; by left].
    unfold bind at 1.
    rewrite stage_zero; [|lia|apply Hdef; right; right; by left].
    unfold bind at 1. by destruct (num_lt (PyInt 0) alpha_rd). }
  unfold bind at 1. rewrite Hgen. unfold bind at 1.
  assert ((if randomize then shuffle [] else ret []) t = Return ([] : list str) t)
    as -> by (by destruct randomize).
  unfold bind, eda_trim.
  destruct (zero_target num_aug Hz) as (_ & _ & -> & ->). done.
Qed.

Lemma eda_zero_target_witness :
  eda sample_lexicon fox_sentence (of_string "eng") (PyInt 0)
    (strength 1 1) (strength 1 1) (strength 1 1) (strength 1 1) true [3; 1]
  = Return [fox_sentence] [3; 1].
Proof.
  apply (eda_zero_target sample_lexicon fox_sentence (of_string "eng") (PyInt 0)
           (strength 1 1) (strength 1 1) (strength 1 1) (strength 1 1) true
           [3; 1]).
  - reflexivity.
  - intros alpha Hin _. exists 1.
    repeat (apply elem_of_cons in Hin as [->|Hin]; [by vm_compute|]).
    by apply elem_of_nil in Hin.
Defined.

End Edges.

(** ** Where the sentences of [eda] come from *)

Section Variants.

Implicit Types (words : list str) (t : tape) (lex : lexicon).

Lemma generate_inv (count : Z) (operator : M (list str)) acc t l rest :
  generate count operator acc t = Return l rest ->
  exists vs,
    l = acc ++ map (str_join [space]) vs
    /\ length vs = Z.to_nat count
    /\ Forall (produced_by operator) vs.
Proof.
  unfold generate. generalize (Z.to_nat count) as k. intros k. revert acc t.
  induction k as [|k IH]; intros acc t; cbn [repeat_m].
  - unfold ret. intros [= <- _]. exists []. by rewrite app_nil_r.
  - unfold bind at 1 2.
    destruct (operator t) as [v t'| |] eqn:E; [|done|done].
    unfold ret at 1. intros Hrun.
    apply IH in Hrun as (vs & -> & Hlen & Hvs).
    exists (v :: vs). rewrite <- app_assoc. split; [done|].
    split; [simpl; lia|]. constructor; [by exists t, t'|done].
Qed.

Lemma stage_inv alpha (num_words : Z) counts position
    (operator : Z -> M (list str)) acc t acc' t' :
  (if num_lt (PyInt 0) alpha then
     num <- lift (words_to_change alpha num_words) ;;
     count <- lift (getitem counts position) ;;
     generate count (operator num) acc
   else ret acc) t = Return acc' t' ->
  exists vs,
    acc' = acc ++ map (str_join [space]) vs
    /\ batch alpha counts position operator vs.
Proof.
  unfold batch. destruct (num_lt (PyInt 0) alpha).
  - unfold bind at 1.
    destruct (words_to_change alpha num_words) as [num|]; [|done].
    cbn [lift]. unfold ret at 1. unfold bind at 1.
    destruct (getitem counts position) as [count|]; [|done].
    cbn [lift]. unfold ret at 1. intros Hrun.
    apply generate_inv in Hrun as (vs & -> & Hlen & Hvs).
    exists vs. split; [done|]. exists count. split; [done|]. split; [done|].
    eapply Forall_impl; [exact Hvs|]. intros v Hv. by exists num.
  - unfold ret. intros [= <- _]. exists []. by rewrite app_nil_r.
Qed.

Lemma last_stage_inv alpha counts position (operator : M (list str)) acc t acc' t' :
  (if num_lt (PyInt 0) alpha then
     count <- lift (getitem counts position) ;;
     generate count operator acc
   else ret acc) t = Return acc' t' ->
  exists vs,
    acc' = acc ++ map (str_join [space]) vs
    /\ batch alpha counts position (fun _ => operator) vs.
Proof.
  unfold batch. destruct (num_lt (PyInt 0) alpha).
  - unfold bind at 1.
    destruct (getitem counts position) as [count|]; [|done].
    cbn [lift]. unfold ret at 1. intros Hrun.
    apply generate_inv in Hrun as (vs & -> & Hlen & Hvs).
    exists vs. split; [done|]. exists count. split; [done|]. split; [done|].
    eapply Forall_impl; [exact Hvs|]. intros v Hv. by exists 0.
  - unfold ret. intros [= <- _]. exists []. by rewrite app_nil_r.
Qed.

(** What [eda] has generated before the shuffle and the trimming. *)
Lemma eda_generate_inv lex words language num_aug a1 a2 a3 a4 t l rest :
  eda_generate lex words language num_aug a1 a2 a3 a4 t = Return l rest ->
  exists counts t' sr ri rs rd,
    get_num_per_technique num_aug [a1; a2; a3; a4] t = Return counts t'
    /\ l = map get_only_chars (map (str_join [space]) (sr ++ ri ++ rs ++ rd))
    /\ batch a1 counts 0 (fun n => synonym_replacement lex words n language) sr
    /\ batch a2 counts 1 (fun n => random_insertion lex words n language) ri
    /\ batch a3 counts 2 (fun n => random_swap words n) rs
    /\ batch a4 counts 3 (fun _ => random_deletion words a4) rd.
Proof.
  unfold eda_generate. unfold bind at 1.
  destruct (get_num_per_technique num_aug [a1; a2; a3; a4] t)
    as [counts t0| |] eqn:Ecounts; [|done|done].
  unfold bind at 1.
  match goal with
  | |- context [match ?c t0 with _ => _ end] =>
      destruct (c t0) as [acc1 t1| |] eqn:E1; [|done|done]
  end.
  apply (stage_inv a1 (len words) counts 0
           (fun n => synonym_replacement lex words n language)) in E1
    as (sr & -> & Hsr).
  unfold bind at 1.
  match goal with
  | |- context [match ?c t1 with _ => _ end] =>
      destruct (c t1) as [acc2 t2| |] eqn:E2; [|done|done]
  end.
  apply (stage_inv a2 (len words) counts 1
           (fun n => random_insertion lex words n language)) in E2
    as (ri & -> & Hri).
  unfold bind at 1.
  match goal with
  | |- context [match ?c t2 with _ => _ end] =>
      destruct (c t2) as [acc3 t3| |] eqn:E3; [|done|done]
  end.
  apply (stage_inv a3 (len words) counts 2 (fun n => random_swap words n)) in E3
    as (rs & -> & Hrs).
  unfold bind at 1.
  match goal with
  | |- context [match ?c t3 with _ => _ end] =>
      destruct (c t3) as [acc4 t4| |] eqn:E4; [|done|done]
  end.
  apply (last_stage_inv a4 counts 3 (random_deletion words a4)) in E4
    as (rd & -> & Hrd).
  unfold ret. intros [= <- _].
  exists counts, t0, sr, ri, rs, rd. split; [done|].
  split; [|done]. cbn [app]. by rewrite !map_app, <- !app_assoc.
Qed.

Lemma batch_outputs alpha counts position operator vs v :
  batch alpha counts position operator vs -> v ∈ vs ->
  num_lt (PyInt 0) alpha = true /\ exists n, produced_by (operator n) v.
Proof.
  unfold batch. destruct (num_lt (PyInt 0) alpha).
  - intros (count & _ & _ & Hvs) Hv. split; [done|].
    rewrite Forall_forall in Hvs. by apply Hvs.
  - intros -> Hv. by apply elem_of_nil in Hv.
Qed.

Lemma eda_generate_origin lex words language num_aug a1 a2 a3 a4 t l rest :
  eda_generate lex words language num_aug a1 a2 a3 a4 t = Return l rest ->
  Forall (fun s => exists v,
            operator_output lex words language a1 a2 a3 a4 v
            /\ s = get_only_chars (str_join [space] v)) l.
Proof.
  intros Hrun.
  apply eda_generate_inv in Hrun
    as (counts & t' & sr & ri & rs & rd & _ & -> & Hsr & Hri & Hrs & Hrd).
  rewrite Forall_forall. intros s Hs.
  apply list_elem_of_fmap in Hs as (joined & -> & Hs).
  apply list_elem_of_fmap in Hs as (v & -> & Hv).
  exists v. split; [|done]. unfold operator_output.
  rewrite !elem_of_app in Hv. destruct Hv as [Hv|[Hv|[Hv|Hv]]].
  - left. by eapply batch_outputs.
  - right. left. by eapply batch_outputs.
  - right. right. left. by eapply batch_outputs.
  - right. right. right.
    destruct (batch_outputs _ _ _ _ _ _ Hrd Hv) as [Hon [_ Hp]]. done.
Qed.

(** The sentences after the first come from what was generated. *)
Lemma eda_tail lex sentence language num_aug a1 a2 a3 a4 randomize t l rest :
  eda lex sentence language num_aug a1 a2 a3 a4 randomize t = Return l rest ->
  (words_of sentence = [] /\ l = [sentence])
  \/ exists generated t1 shuffled t2 trimmed,
       words_of sentence <> []
       /\ eda_generate lex (words_of sentence) language num_aug a1 a2 a3 a4 t
          = Return generated t1
       /\ shuffled ≡ₚ generated
       /\ eda_trim num_aug shuffled t2 = Return trimmed rest
       /\ l = sentence :: trimmed.
Proof.
  rewrite eda_unfold.
  destruct (len (words_of sentence) =? 0) eqn:Ewords.
  - unfold ret. intros [= <- _]. left.
    apply Z.eqb_eq in Ewords. unfold len in Ewords.
    by destruct (words_of sentence).
  - assert (words_of sentence <> []) as Hne by (by intros H; rewrite H in Ewords).
    unfold bind at 1.
    destruct (eda_generate _ _ _ _ _ _ _ _ t) as [generated t1| |] eqn:Egen;
      [|done|done].
    unfold bind at 1. destruct randomize.
    + destruct (shuffle generated t1) as [shuffled t2| |] eqn:Esh; [|done|done].
      unfold bind at 1.
      destruct (eda_trim num_aug shuffled t2) as [trimmed t3| |] eqn:Etr;
        [|done|done].
      unfold ret. intros [= <- <-]. right.
      exists generated, t1, shuffled, t2, trimmed.
      split; [done|]. split; [done|]. split; [by eapply shuffle_Permutation|done].
    + unfold ret at 1. unfold bind at 1.
      destruct (eda_trim num_aug generated t1) as [trimmed t3| |] eqn:Etr;
        [|done|done].
      unfold ret. intros [= <- <-]. right.
      by exists generated, t1, generated, t1, trimmed.
Qed.

Lemma eda_tail_generated lex sentence language num_aug a1 a2 a3 a4 randomize
    t l rest (P : str -> Prop) :
  eda lex sentence language num_aug a1 a2 a3 a4 randomize t = Return l rest ->
  (forall generated t1,
     words_of sentence <> [] ->
     eda_generate lex (words_of sentence) language num_aug a1 a2 a3 a4 t
     = Return generated t1 -> Forall P generated) ->
  Forall P (tail l).
Proof.
  intros Hrun HP.
  apply eda_tail in Hrun
    as [[_ ->]|(generated & t1 & shuffled & t2 & trimmed & Hne & Hgen & Hperm
                & Htrim & ->)]; [constructor|].
  cbn [tail]. apply eda_trim_sublist in Htrim.
  specialize (HP generated t1 Hne Hgen). rewrite <- Hperm in HP.
  rewrite Forall_forall in HP |- *. intros s Hs. apply HP.
  by eapply sublist_elem_of.
Qed.

(** X25: every sentence [eda] returns after the first is in the normal form
    of the normalizer: letters of [a-z] and single spaces, no space at
    either end. *)
Theorem eda_variants_normal lex sentence language num_aug
    alpha_sr alpha_ri alpha_rs alpha_rd randomize t l rest :
  eda lex sentence language num_aug alpha_sr alpha_ri alpha_rs alpha_rd
      randomize t = Return l rest ->
  Forall normal (tail l).
Proof.
  intros Hrun. eapply eda_tail_generated; [exact Hrun|].
  intros generated t1 _ Hgen. apply eda_generate_origin in Hgen.
  eapply Forall_impl; [exact Hgen|]. intros s (v & _ & ->).
  destruct (get_only_chars_shape (str_join [space] v)) as [Hv Hs].
  destruct (get_only_chars_ends (str_join [space] v)) as [Hh Hl]. done.
Qed.

Lemma eda_variants_normal_witness :
  Forall normal
    (tail [fox_sentence; of_string "quick the brown fox jumps";
           of_string "jumps quick brown fox the"]).
Proof.
  apply (eda_variants_normal empty_lexicon fox_sentence (of_string "eng")
           (PyInt 2) (PyInt 0) (PyInt 0) (strength 3 1) (PyInt 0) false
           [2; 6; 0; 1; 4; 0; 0; 0]
           [fox_sentence; of_string "quick the brown fox jumps";
            of_string "jumps quick brown fox the"] []).
  reflexivity.
Defined.

(** X26: every sentence [eda] returns after the first is the normalized join
    of what one operator, switched on, returned for the words of the
    sentence. *)
Theorem eda_variant_origin lex sentence language num_aug
    alpha_sr alpha_ri alpha_rs alpha_rd randomize t l rest :
  eda lex sentence language num_aug alpha_sr alpha_ri alpha_rs alpha_rd
      randomize t = Return l rest ->
  Forall (fun s => exists v,
            operator_output lex (words_of sentence) language
              alpha_sr alpha_ri alpha_rs alpha_rd v
            /\ s = get_only_chars (str_join [space] v)) (tail l).
Proof.
  intros Hrun. eapply eda_tail_generated; [exact Hrun|].
  intros generated t1 _ Hgen. by eapply eda_generate_origin.
Qed.


Lemma eda_variant_origin_witness :
  Forall (fun s => exists v,
            operator_output empty_lexicon (words_of fox_sentence) (of_string "eng")
              (PyInt 0) (PyInt 0) (strength 3 1) (PyInt 0) v
            /\ s = get_only_chars (str_join [space] v))
    (tail [fox_sentence; of_string "quick the brown fox jumps";
           of_string "jumps quick brown fox the"]).
Proof.
  apply (eda_variant_origin empty_lexicon fox_sentence (of_string "eng")
           (PyInt 2) (PyInt 0) (PyInt 0) (strength 3 1) (PyInt 0) false
           [2; 6; 0; 1; 4; 0; 0; 0]
           [fox_sentence; of_string "quick the brown fox jumps";
            of_string "jumps quick brown fox the"] []).
  reflexivity.
Defined.

(** *** One operator switched on *)

Lemma is_word_Permutation v words :
  v ≡ₚ words -> Forall is_word words -> Forall is_word v.
Proof. intros Hperm Hwords. by rewrite Hperm. Qed.

Lemma is_word_sublist v words :
  v `sublist_of` words -> Forall is_word words -> Forall is_word v.
Proof.
  intros Hsub Hwords. rewrite Forall_forall in Hwords |- *.
  intros w Hw. apply Hwords. by eapply sublist_elem_of.
Qed.

Lemma random_swap_produces words n v :
  produced_by (random_swap words n) v -> v ≡ₚ words.
Proof. intros (t & rest & Hrun). by eapply repeat_swap_Permutation. Qed.

Lemma words_of_nonempty sentence :
  words_of sentence <> [] -> Forall is_word (words_of sentence).
Proof.
  intros Hne. by destruct (words_of_split sentence) as [[_ H]|(_ & _ & H)].
Qed.

Lemma eda_one_operator lex sentence language num_aug a1 a2 a3 a4 randomize
    t l rest (Q : list str -> Prop) :
  eda lex sentence language num_aug a1 a2 a3 a4 randomize t = Return l rest ->
  (forall v,
     operator_output lex (words_of sentence) language a1 a2 a3 a4 v ->
     Q v /\ Forall is_word v /\ v <> []) ->
  Forall (fun s => exists v, Q v /\ s = str_join [space] v) (tail l).
Proof.
  intros Hrun HQ. eapply eda_tail_generated; [exact Hrun|].
  intros generated t1 Hne Hgen. apply eda_generate_origin in Hgen.
  eapply Forall_impl; [exact Hgen|]. intros s (v & Hv & ->).
  destruct (HQ v Hv) as (Hq & Hwords & Hnil).
  exists v. split; [done|]. by apply get_only_chars_join.
Qed.

(** X27: with the swap as the only operator switched on, every sentence
    [eda] returns after the first is made of the words of the normalized
    sentence, each as many times as there, joined by single spaces. *)
Theorem eda_swap_only lex sentence language num_aug
    alpha_sr alpha_ri alpha_rs alpha_rd randomize t l rest :
  num_lt (PyInt 0) alpha_sr = false ->
  num_lt (PyInt 0) alpha_ri = false ->
  num_lt (PyInt 0) alpha_rd = false ->
  eda lex sentence language num_aug alpha_sr alpha_ri alpha_rs alpha_rd
      randomize t = Return l rest ->
  Forall (fun s => exists v,
            v ≡ₚ words_of sentence /\ s = str_join [space] v) (tail l).
Proof.
  intros H1 H2 H4 Hrun.
  destruct (decide (words_of sentence = [])) as [Hnil|Hne].
  { apply eda_tail in Hrun as [[_ ->]|(? & ? & ? & ? & ? & Hne & _)]; [|done].
    constructor. }
  pose proof (words_of_nonempty sentence Hne) as Hwords.
  eapply eda_one_operator; [exact Hrun|].
  intros v [[Hon _]|[[Hon _]|[[_ [n Hv]]|[Hon _]]]]; try congruence.
  apply random_swap_produces in Hv. split; [done|].
  split; [by eapply is_word_Permutation|].
  intros ->. by apply Permutation_nil_l in Hv.
Qed.

Lemma eda_swap_only_witness :
  Forall (fun s => exists v,
            v ≡ₚ words_of fox_sentence /\ s = str_join [space] v)
    (tail [fox_sentence; of_string "quick the brown fox jumps";
           of_string "jumps quick brown fox the"]).
Proof.
  apply (eda_swap_only empty_lexicon fox_sentence (of_string "eng")
           (PyInt 2) (PyInt 0) (PyInt 0) (strength 3 1) (PyInt 0) false
           [2; 6; 0; 1; 4; 0; 0; 0]
           [fox_sentence; of_string "quick the brown fox jumps";
            of_string "jumps quick brown fox the"] []).
  - reflexivity.
  - reflexivity.
  - reflexivity.
  - reflexivity.
Defined.

(** X28: with the deletion as the only operator switched on, every sentence
    [eda] returns after the first is made of words of the normalized
    sentence, at least one, in the order they have there. *)
Theorem eda_deletion_only lex sentence language num_aug
    alpha_sr alpha_ri alpha_rs alpha_rd randomize t l rest :
  num_lt (PyInt 0) alpha_sr = false ->
  num_lt (PyInt 0) alpha_ri = false ->
  num_lt (PyInt 0) alpha_rs = false ->
  eda lex sentence language num_aug alpha_sr alpha_ri alpha_rs alpha_rd
      randomize t = Return l rest ->
  Forall (fun s => exists v,
            (v `sublist_of` words_of sentence /\ v <> [])
            /\ s = str_join [space] v) (tail l).
Proof.
  intros H1 H2 H3 Hrun.
  destruct (decide (words_of sentence = [])) as [Hnil|Hne].
  { apply eda_tail in Hrun as [[_ ->]|(? & ? & ? & ? & ? & Hne & _)]; [|done].
    constructor. }
  pose proof (words_of_nonempty sentence Hne) as Hwords.
  eapply eda_one_operator; [exact Hrun|].
  intros v [[Hon _]|[[Hon _]|[[Hon _]|[_ (t' & rest' & Hv)]]]]; try congruence.
  apply random_deletion_sublist in Hv as [Hsub Hnil].
  split; [by split; [|apply Hnil]|].
  split; [by eapply is_word_sublist|by apply Hnil].
Qed.

Lemma eda_deletion_only_witness :
  Forall (fun s => exists v,
            (v `sublist_of` words_of fox_sentence /\ v <> [])
            /\ s = str_join [space] v)
    (tail [fox_sentence; of_string "quick brown jumps"; of_string "the quick"]).
Proof.
  apply (eda_deletion_only empty_lexicon fox_sentence (of_string "eng")
           (PyInt 2) (PyInt 0) (PyInt 0) (PyInt 0) (strength 5 1) false
           [3; 7; 0; 2 ^ 53 - 1; 2 ^ 53 - 1; 0; 2 ^ 53 - 1;
            2 ^ 53 - 1; 2 ^ 53 - 1; 0; 0; 0; 0; 0]
           [fox_sentence; of_string "quick brown jumps"; of_string "the quick"]
           []).
  - reflexivity.
  - reflexivity.
  - reflexivity.
  - by vm_compute.
Defined.

(** *** How many sentences come back *)

Lemma eda_trim_bound num_aug k l t l' rest :
  num_le (PyInt 1) num_aug = true -> py_int num_aug = Val k ->
  eda_trim num_aug l t = Return l' rest -> len l' <= k.
Proof.
  intros Hone Hk. pose proof (at_least_one_int num_aug k Hone Hk) as Hpos.
  unfold eda_trim. rewrite Hone. unfold bind at 1 2. rewrite Hk.
  cbn [lift]. unfold ret at 1 2.
  destruct (k <? len l) eqn:E.
  - unfold ret. intros [= <- _]. unfold len. rewrite length_take. lia.
  - apply Z.ltb_ge in E. intros Hrun.
    assert (l' `sublist_of` l) as Hsub.
    { destruct (num_lt (PyInt 0) num_aug).
      - unfold bind at 1 in Hrun.
        destruct (truediv num_aug (PyInt (len l))) as [keep_prob|]; [|done].
        cbn [lift] in Hrun. unfold ret at 1 in Hrun.
        by eapply filter_m_sublist.
      - unfold ret in Hrun. by injection Hrun as <- _. }
    apply sublist_length in Hsub. unfold len in *. lia.
Qed.

(** X29: for a target of 1 or more, [eda] returns at most [int(num_aug)]
    sentences after the one it was given. *)
Theorem eda_length_bound lex sentence language num_aug k
    alpha_sr alpha_ri alpha_rs alpha_rd randomize t l rest :
  num_le (PyInt 1) num_aug = true ->
  py_int num_aug = Val k ->
  eda lex sentence language num_aug alpha_sr alpha_ri alpha_rs alpha_rd
      randomize t = Return l rest ->
  len l <= k + 1.
Proof.
  intros Hone Hk Hrun.
  pose proof (at_least_one_int num_aug k Hone Hk) as Hpos.
  apply eda_tail in Hrun
    as [[_ ->]|(generated & t1 & shuffled & t2 & trimmed & _ & _ & _ & Htrim & ->)].
  - unfold len. simpl. lia.
  - apply (eda_trim_bound num_aug k) in Htrim; [|done|done].
    unfold len in *. cbn [length]. lia.
Qed.

Lemma eda_length_bound_witness :
  len [fox_sentence; of_string "quick the brown fox jumps";
       of_string "jumps quick brown fox the"] <= 2 + 1.
Proof.
  apply (eda_length_bound empty_lexicon fox_sentence (of_string "eng")
           (PyInt 2) 2 (PyInt 0) (PyInt 0) (strength 3 1) (PyInt 0) false
           [2; 6; 0; 1; 4; 0; 0; 0]
           [fox_sentence; of_string "quick the brown fox jumps";
            of_string "jumps quick brown fox the"] []).
  - reflexivity.
  - reflexivity.
  - reflexivity.
Defined.

(** [n / n] is [1.0]. *)
Lemma fdiv_self p : fdiv (S754_finite false p 0) (S754_finite false p 0) = one.
Proof.
  unfold fdiv, SFdiv. change prec with 53. change emax with 1024.
  assert (SFdiv_core_binary 53 1024 (Zpos p) 0 (Zpos p) 0
          = (2 ^ 53, -53, loc_Exact)) as ->; [|by vm_compute].
  unfold SFdiv_core_binary.
  replace (Zdigits2 (Zpos p) + 0 - (Zdigits2 (Zpos p) + 0)) with 0 by lia.
  change (fexp 53 1024 0) with (-53). change (0 - 0) with 0.
  change (Z.min (-53) 0) with (-53). change (0 - -53) with 53.
  cbv iota. rewrite Z.shiftl_mul_pow2 by lia.
  assert (Z.div_eucl (Zpos p * 2 ^ 53) (Zpos p) = (2 ^ 53, 0)) as ->.
  { pose proof (Z.div_eucl_eq (Zpos p * 2 ^ 53) (Zpos p) ltac:(lia)) as Heq.
    pose proof (Z.mod_pos_bound (Zpos p * 2 ^ 53) (Zpos p) ltac:(lia)) as Hb.
    unfold Z.modulo in Hb.
    destruct (Z.div_eucl (Zpos p * 2 ^ 53) (Zpos p)) as [q r].
    assert (q = 2 ^ 53) by nia. subst q. f_equal. lia. }
  unfold new_location. by destruct (Z.even (Zpos p)).
Qed.

Lemma truediv_self n : 1 <= n -> truediv (PyInt n) (PyInt n) = Val one.
Proof.
  intros Hn. unfold truediv, int_truediv.
  replace (n =? 0) with false by (symmetry; apply Z.eqb_neq; lia).
  destruct n as [|p|p]; [lia| |lia]. cbn [exact_int]. by rewrite fdiv_self.
Qed.

Lemma filter_m_all_kept {A} keep_prob (l l' : list A) t rest :
  (forall r, SFltb (random_of r) keep_prob = true) ->
  filter_m (fun _ => u <- uniform01 ;; ret (SFltb u keep_prob)) l t
  = Return l' rest ->
  l' = l.
Proof.
  intros Hkeep. revert l' t rest.
  induction l as [|x l IH]; intros l' t rest; cbn [filter_m].
  - unfold ret. by intros [= <- _].
  - destruct t as [|r t]; [done|].
    unfold bind at 1 2. cbn [uniform01]. unfold ret at 1. unfold bind at 1.
    destruct (filter_m _ l t) as [ys t'| |] eqn:E; [|done|done].
    apply IH in E as ->. unfold ret. rewrite Hkeep. by intros [= <- _].
Qed.

Lemma eda_trim_exact n l t l' rest :
  1 <= n -> len l = n ->
  eda_trim (PyInt n) l t = Return l' rest -> l' = l.
Proof.
  intros Hn Hlen. unfold eda_trim.
  assert (num_le (PyInt 1) (PyInt n) = true) as ->.
  { unfold num_le. cbn [num_compare].
    destruct (Z.compare_spec 1 n); try done; lia. }
  unfold bind at 1 2. cbn [py_int lift]. unfold ret at 1 2.
  replace (n <? len l) with false by (symmetry; apply Z.ltb_ge; lia).
  assert (num_lt (PyInt 0) (PyInt n) = true) as ->.
  { unfold num_lt. cbn [num_compare].
    destruct (Z.compare_spec 0 n); try done; lia. }
  unfold bind at 1. rewrite Hlen, truediv_self by done.
  cbn [lift]. unfold ret at 1.
  apply filter_m_all_kept, random_of_lt_one.
Qed.

Lemma positive_truthy a : num_lt (PyInt 0) a = true -> truthy a = true.
Proof.
  intros H. destruct (truthy a) eqn:E; [done|].
  apply falsy_not_positive in E. congruence.
Qed.

(** With the four operators switched on, the counts add up to the
    target. *)
Lemma allocation_all_enabled n a1 a2 a3 a4 t counts t' :
  1 <= n < 2 ^ 53 ->
  truthy a1 = true -> truthy a2 = true -> truthy a3 = true -> truthy a4 = true ->
  get_num_per_technique (PyInt n) [a1; a2; a3; a4] t = Return counts t' ->
  exists c0 c1 c2 c3,
    counts = [c0; c1; c2; c3]
    /\ 0 <= c0 /\ 0 <= c1 /\ 0 <= c2 /\ 0 <= c3
    /\ c0 + c1 + c2 + c3 = n.
Proof.
  intros Hn H1 H2 H3 H4.
  assert (Hb : base_share (PyInt n) = Val (n / 4)).
  { rewrite base_share_int by lia. f_equal. apply Z.quot_div_nonneg; lia. }
  rewrite get_num_per_technique_unfold, effective_nonempty by done.
  rewrite (base_counts_defined _ _ _ (n / 4) Hb), remainder_of_int.
  2:{ intros pos Hpos.
      repeat (apply elem_of_cons in Hpos as [->|Hpos]; [simpl; lia|]).
      by apply elem_of_nil in Hpos. }
  assert (map (fun pos => if enabled [a1; a2; a3; a4] pos then n / 4 else 0)
            [0; 1; 2; 3] = [n / 4; n / 4; n / 4; n / 4]) as ->.
  { unfold enabled. simpl. by rewrite H1, H2, H3, H4. }
  intros Hrun. apply remainder_loop_spec in Hrun as (Hl & Ht & Hc); [|done].
  destruct counts as [|c0 [|c1 [|c2 [|c3 [|]]]]]; try done.
  exists c0, c1, c2, c3. split; [done|].
  pose proof (Z.div_pos n 4 ltac:(lia) ltac:(lia)) as Hq.
  pose proof (Z.mod_pos_bound n 4 ltac:(lia)) as Hm.
  pose proof (Z.div_mod n 4 ltac:(lia)) as Hdm.
  destruct (Hc 0%nat (n / 4) eq_refl) as (x0 & [= <-] & Hx0 & _).
  destruct (Hc 1%nat (n / 4) eq_refl) as (x1 & [= <-] & Hx1 & _).
  destruct (Hc 2%nat (n / 4) eq_refl) as (x2 & [= <-] & Hx2 & _).
  destruct (Hc 3%nat (n / 4) eq_refl) as (x3 & [= <-] & Hx3 & _).
  simpl in Ht. lia.
Qed.

Lemma batch_length alpha counts position operator vs count :
  num_lt (PyInt 0) alpha = true ->
  getitem counts position = Val count ->
  batch alpha counts position operator vs ->
  length vs = Z.to_nat count.
Proof.
  intros Hon Hcount. unfold batch. rewrite Hon.
  intros (count' & Hcount' & Hlen & _). congruence.
Qed.

(** X30: with an integer target [1 <= n < 2^53] and the four strengths above
    zero, a sentence that has a word brings back exactly [n] sentences
    after itself. *)
Theorem eda_count lex sentence language n
    alpha_sr alpha_ri alpha_rs alpha_rd randomize t l rest :
  1 <= n < 2 ^ 53 ->
  num_lt (PyInt 0) alpha_sr = true ->
  num_lt (PyInt 0) alpha_ri = true ->
  num_lt (PyInt 0) alpha_rs = true ->
  num_lt (PyInt 0) alpha_rd = true ->
  words_of sentence <> [] ->
  eda lex sentence language (PyInt n) alpha_sr alpha_ri alpha_rs alpha_rd
      randomize t = Return l rest ->
  len l = n + 1.
Proof.
  intros Hn H1 H2 H3 H4 Hne Hrun.
  apply eda_tail in Hrun
    as [[Hnil _]|(generated & t1 & shuffled & t2 & trimmed & _ & Hgen & Hperm
                  & Htrim & ->)]; [done|].
  apply eda_generate_inv in Hgen
    as (counts & t' & sr & ri & rs & rd & Hcounts & -> & Hsr & Hri & Hrs & Hrd).
  apply allocation_all_enabled in Hcounts
    as (c0 & c1 & c2 & c3 & -> & Hc0 & Hc1 & Hc2 & Hc3 & Hsum);
    [|done|by apply positive_truthy..].
  apply (batch_length _ [c0; c1; c2; c3] 0 _ _ c0 H1 eq_refl) in Hsr.
  apply (batch_length _ [c0; c1; c2; c3] 1 _ _ c1 H2 eq_refl) in Hri.
  apply (batch_length _ [c0; c1; c2; c3] 2 _ _ c2 H3 eq_refl) in Hrs.
  apply (batch_length _ [c0; c1; c2; c3] 3 _ _ c3 H4 eq_refl) in Hrd.
  assert (len shuffled = n) as Hlen.
  { unfold len. rewrite Hperm, !length_map, !length_app. lia. }
  apply eda_trim_exact in Htrim as ->; [|lia|done].
  unfold len in *. cbn [length]. lia.
Qed.

Lemma eda_count_witness :
  len [fox_sentence; of_string "the speedy one brown fox jumps";
       of_string "the fast quick brown fox jumps";
       of_string "the quick brown fox jumps"; of_string "quick"]
  = 4 + 1.
Proof.
  apply (eda_count sample_lexicon fox_sentence (of_string "eng") 4
           (strength 1 1) (strength 1 1) (strength 1 1) (strength 1 1) false
           (replicate 21 1)
           [fox_sentence; of_string "the speedy one brown fox jumps";
            of_string "the fast quick brown fox jumps";
            of_string "the quick brown fox jumps"; of_string "quick"] []).
  - lia.
  - reflexivity.
  - reflexivity.
  - reflexivity.
  - reflexivity.
  - by vm_compute.
  - by vm_compute.
Defined.

End Variants.
